(** * Solana phone simulator: Seed Vault and Mobile Wallet Adapter

    A shallow embedding of the TypeScript sources
      - seed-vault/crypto-utils.ts      (module [CryptoUtils])
      - seed-vault/storage.ts           (module [Storage])
      - seed-vault/seed-vault-mock.ts   (module [SeedVaultMock])
      - mwa/transaction-validator.ts    (module [TransactionValidator])
      - mwa/transaction-ui-mock.ts      (module [TransactionUIMock])
      - mwa/transaction-tracker.ts      (module [TransactionTracker])
      - mwa/mwa-service.ts              (module [MWAServiceImpl])
    followed by the properties proved about them.

    Conventions.  A method that may throw returns a [Result]; a method of a
    stateful object is a function from the object's state to a result and
    the new state, and the state reached before a throw is kept, as in
    JavaScript.  An [await] is the call it waits for: a method runs to its
    end before anything else does.  The clock ([new Date()], [Date.now()])
    and the random sources are explicit arguments.  Event listeners are
    not modelled.  Node's crypto, bip39, ed25519-hd-key, tweetnacl and
    JSON are not part of the repository: they are the fields of the class
    [Primitives]. *)

From Stdlib Require Import String Ascii List NArith Lia Bool.
From Stdlib.Strings Require Import Byte.
From Stdlib Require Import DecimalString DecimalN.
From Stdlib Require Import Sorted Permutation.
Import ListNotations.
Open Scope string_scope.
Open Scope N_scope.

Set Implicit Arguments.

(* ================================================================== *)
(** * JavaScript values used by the sources                            *)
(* ================================================================== *)

Module JS.

(** [SeedVaultErrorCode] of seed-vault/types.ts. *)
Inductive SeedVaultErrorCode :=
| VAULT_LOCKED
| INVALID_MNEMONIC
| WALLET_NOT_FOUND
| INVALID_DERIVATION_PATH
| ENCRYPTION_FAILED
| DECRYPTION_FAILED
| INVALID_TRANSACTION
| SIGNING_FAILED
| STORAGE_ERROR
| INVALID_PASSWORD.

(** An [Error] object: its message, and its [code] property when it was
    made by [createError] (['code' in error]). *)
Record JsError := mkError {
  code : option SeedVaultErrorCode;
  message : string
}.

(** [new Error(msg)]. *)
Definition plainError (msg : string) : JsError := mkError None msg.

(** [createError(code, message)] of SeedVaultMock and CryptoUtils. *)
Definition createError (c : SeedVaultErrorCode) (msg : string) : JsError :=
  mkError (Some c) msg.

(** Outcome of a call: a returned value or a thrown error. *)
Inductive Result (A : Type) :=
| Ok (a : A)
| Throw (e : JsError).
Arguments Ok {A} a.
Arguments Throw {A} e.

Definition isOk {A} (r : Result A) : bool :=
  match r with Ok _ => true | Throw _ => false end.

Definition bind {A B} (r : Result A) (k : A -> Result B) : Result B :=
  match r with
  | Ok a => k a
  | Throw e => Throw e
  end.

(** Bytes of a [Buffer] or [Uint8Array]. *)
Definition Bytes := list byte.

(** Milliseconds since the epoch ([Date.getTime()]). *)
Definition Time := N.

(** ** Strings *)

Definition isDigit (c : ascii) : bool :=
  let n := N_of_ascii c in (48 <=? n) && (n <=? 57).

(** The longest prefix of digits and what follows it. *)
Fixpoint spanDigits (s : string) : string * string :=
  match s with
  | EmptyString => (EmptyString, EmptyString)
  | String c r =>
      if isDigit c
      then let (d, t) := spanDigits r in (String c d, t)
      else (EmptyString, s)
  end.

(** [s.startsWith(p) ? s.slice(p.length) : undefined]. *)
Fixpoint stripPrefix (p s : string) : option string :=
  match p, s with
  | EmptyString, _ => Some s
  | String a p', String b s' =>
      if Ascii.eqb a b then stripPrefix p' s' else None
  | String _ _, EmptyString => None
  end.

Definition isEmpty (s : string) : bool :=
  match s with EmptyString => true | _ => false end.

(** White space, among the characters below 256: tab to carriage
    return, space, no-break space. *)
Definition isWhiteSpace (c : ascii) : bool :=
  let n := N_of_ascii c in
  ((9 <=? n) && (n <=? 13)) || (n =? 32) || (n =? 160).

Fixpoint trimStart (s : string) : string :=
  match s with
  | EmptyString => EmptyString
  | String c r => if isWhiteSpace c then trimStart r else s
  end.

Fixpoint trimEnd (s : string) : string :=
  match s with
  | EmptyString => EmptyString
  | String c r =>
      let r' := trimEnd r in
      if isWhiteSpace c && isEmpty r' then EmptyString else String c r'
  end.

(** [String.prototype.trim] *)
Definition trim (s : string) : string := trimEnd (trimStart s).

(** [Array.prototype.join]. *)
Fixpoint join (sep : string) (l : list string) : string :=
  match l with
  | [] => EmptyString
  | [x] => x
  | x :: r => x ++ sep ++ join sep r
  end.

(** ** Numbers

    An integer-valued Number is modelled by the integer; the model is
    exact on the safe integers (up to 2^53 - 1). *)

Definition decimal (n : N) : string :=
  NilEmpty.string_of_uint (N.to_uint n).

Fixpoint stripTrailingZeros (s : string) : string :=
  match s with
  | EmptyString => EmptyString
  | String c r =>
      match stripTrailingZeros r with
      | EmptyString =>
          if Ascii.eqb c "0" then EmptyString else String c EmptyString
      | r' => String c r'
      end
  end.

(** Exponent notation of an integer of at least 22 digits: first digit,
    the further significant digits after a point, [e+] and the decimal
    exponent.  (JavaScript keeps at most the 17 significant digits that
    identify the double; the shape of the text is the same.) *)
Definition exponential (n : N) : string :=
  let ds := decimal n in
  let e := decimal (N.of_nat (String.length ds - 1)) in
  match stripTrailingZeros ds with
  | EmptyString => ds
  | String d EmptyString => String d ("e+" ++ e)
  | String d r => String d ("." ++ r ++ "e+" ++ e)
  end.

(** [Number.prototype.toString()] on a non-negative integer, as used by
    template literals: plain digits below 10^21, exponent notation from
    10^21 on.  The digits are those of the integer; from 2^53 on
    JavaScript prints the shortest digits that identify the double. *)
Definition numberToString (n : N) : string :=
  if n <? 10 ^ 21 then decimal n else exponential n.

(** [parseInt(s, 10)] on a text that starts with digits: the value of
    the leading digits, kept as it is written.  JavaScript returns a
    double: the same value up to 2^53, the nearest double above. *)
Definition parseInt10 (s : string) : N :=
  match NilEmpty.uint_of_string (fst (spanDigits s)) with
  | Some d => N.of_uint d
  | None => 0
  end.

(** ** Arrays *)

(** [Array.prototype.sort] with a comparator that is the difference of
    a numeric key.  [before a b] tells that [a], met first, stays before
    [b]: the comparator is not positive.  The sort is stable. *)
Fixpoint insertSorted {A} (before : A -> A -> bool) (x : A) (l : list A)
  : list A :=
  match l with
  | [] => [x]
  | y :: r => if before x y then x :: l else y :: insertSorted before x r
  end.

Definition stableSort {A} (before : A -> A -> bool) (l : list A) : list A :=
  fold_right (insertSorted before) [] l.

End JS.
Export JS.

(* ================================================================== *)
(** * Types of @solana/web3.js and of seed-vault/types.ts              *)
(* ================================================================== *)

(** A [PublicKey] is identified with its base58 text: [toBase58] is the
    identity and [equals] is text equality. *)
Definition PublicKey := string.

(** [Keypair] of @solana/web3.js. *)
Record Keypair := mkKeypair {
  kp_publicKey : PublicKey;
  kp_secretKey : Bytes
}.

(** Transactions as the sources inspect them.  A field is an [option]
    where the sources test it for absence ([!x], [typeof x]). *)
Module Web3.

Record AccountMeta := mkAccountMeta {
  pubkey : option PublicKey;
  isSigner : option bool;
  isWritable : option bool
}.

Record TransactionInstruction := mkInstruction {
  programId : option PublicKey;
  keys : option (list AccountMeta);
  data : option Bytes
}.

Record SignaturePubkeyPair := mkSignature {
  sig_publicKey : PublicKey;
  sig_signature : option Bytes
}.

Record Transaction := mkTransaction {
  instructions : option (list TransactionInstruction);
  feePayer : option PublicKey;
  recentBlockhash : option string;
  signatures : list SignaturePubkeyPair
}.

(** [SystemProgram.programId.toBase58()] *)
Definition SYSTEM_PROGRAM_ID : string := "11111111111111111111111111111111".

End Web3.

(** seed-vault/types.ts *)
Module Types.

Inductive Network := mainnet | devnet | testnet | localhost.

Record WalletProfile := mkProfile {
  name : string;
  mnemonic : option string;
  derivationPath : string;
  network : Network
}.

Record Wallet := mkWallet {
  id : string;
  profile : WalletProfile;
  publicKey : PublicKey;
  encryptedPrivateKey : string;
  createdAt : Time;
  lastUsed : Time
}.

Record DerivedKey := mkDerivedKey {
  dk_keypair : Keypair;
  dk_publicKey : PublicKey;
  dk_derivationPath : string
}.

Record SigningResult := mkSigningResult {
  sr_signature : Bytes;
  sr_signedTransaction : Web3.Transaction;
  sr_timestamp : Time
}.

Record MessageSigningResult := mkMessageSigningResult {
  ms_signature : Bytes;
  ms_message : Bytes;
  ms_publicKey : PublicKey;
  ms_timestamp : Time
}.

Record WalletExport := mkWalletExport {
  we_profile : WalletProfile;
  we_mnemonic : string;
  we_publicKey : string;
  we_createdAt : Time
}.

Record SeedVaultConfig := mkConfig {
  encryptionKey : option string;
  storageLocation : option string;
  autoLock : option bool;
  lockTimeout : option N
}.

Record SeedVaultStatus := mkStatus {
  st_isLocked : bool;
  st_walletCount : nat;
  st_lastActivity : Time;
  st_version : string
}.

(** [{ ...base, ...over }]: a property present in [over] wins. *)
Definition spread (base over : SeedVaultConfig) : SeedVaultConfig :=
  let pick {A} (b o : option A) :=
    match o with Some _ => o | None => b end in
  mkConfig (pick (encryptionKey base) (encryptionKey over))
           (pick (storageLocation base) (storageLocation over))
           (pick (autoLock base) (autoLock over))
           (pick (lockTimeout base) (lockTimeout over)).

End Types.

(* ================================================================== *)
(** * Libraries the sources call                                       *)
(* ================================================================== *)

(** What is stored, encrypted, for a wallet:
    [{ mnemonic, secretKey: Array.from(keypair.secretKey) }]. *)
Record KeyMaterial := mkKeyMaterial {
  km_mnemonic : string;
  km_secretKey : Bytes
}.

(** The functions of Node's [crypto] and [Buffer], bip39, ed25519-hd-key,
    tweetnacl and [JSON] that the sources call. *)
Class Primitives := {
  (** state of the system random source *)
  Rng : Type;
  (** [crypto.randomBytes(n)] *)
  randomBytes : nat -> Rng -> Bytes * Rng;
  (** [bip39.validateMnemonic] *)
  bip39_validateMnemonic : string -> bool;
  (** [bip39.generateMnemonic(strength)] *)
  bip39_generateMnemonic : N -> Rng -> string * Rng;
  (** [bip39.mnemonicToSeedSync(mnemonic, passphrase)] *)
  bip39_mnemonicToSeedSync : string -> string -> Bytes;
  (** [derivePath(path, hexSeed).key]; throws on a path it rejects *)
  hd_derivePath : string -> string -> Result Bytes;
  (** [Keypair.fromSeed] *)
  Keypair_fromSeed : Bytes -> Result Keypair;
  (** [pbkdf2Sync(password, salt, iterations, keylen, 'sha256')] *)
  pbkdf2Sync : string -> Bytes -> N -> N -> Bytes;
  (** [createCipheriv('aes-256-cbc', key, iv)] followed by [update(data)]
      and [final()]: the two outputs *)
  aes256cbc_cipher : Bytes -> Bytes -> Bytes -> Result (Bytes * Bytes);
  (** [createDecipheriv('aes-256-cbc', key, iv)] followed by
      [update(data)] and [final()]: the two outputs *)
  aes256cbc_decipher : Bytes -> Bytes -> Bytes -> Result (Bytes * Bytes);
  (** the ['utf8'] encoding of a string and the decoding of bytes *)
  utf8Encode : string -> Bytes;
  utf8Decode : Bytes -> string;
  (** [buffer.toString('base64')] and [Buffer.from(text, 'base64')] *)
  base64Encode : Bytes -> string;
  base64Decode : string -> Bytes;
  (** [createHash('sha256').update(data).digest()] *)
  sha256 : Bytes -> Bytes;
  (** [nacl.sign.detached(message, secretKey)] *)
  nacl_sign_detached : Bytes -> Bytes -> Bytes;
  (** [JSON.stringify] and [JSON.parse] on the stored key material *)
  JSON_stringify : KeyMaterial -> string;
  JSON_parse : string -> Result KeyMaterial;
  (** [transaction.serialize()], which throws when the transaction cannot
      be serialized (no fee payer, missing signatures, ...) *)
  Transaction_serialize : Web3.Transaction -> Result Bytes
}.

(** ** Hexadecimal text of a buffer ([toString('hex')],
       [Buffer.from(text, 'hex')]) *)

Module Hex.

Definition digit (n : N) : ascii :=
  if n <? 10 then ascii_of_N (48 + n) else ascii_of_N (87 + n).

Definition ofByte (b : byte) : string :=
  let n := Byte.to_N b in
  String (digit (n / 16)) (String (digit (n mod 16)) EmptyString).

Fixpoint toHex (bs : Bytes) : string :=
  match bs with
  | [] => EmptyString
  | b :: r => ofByte b ++ toHex r
  end.

Definition value (c : ascii) : option N :=
  let n := N_of_ascii c in
  if (48 <=? n) && (n <=? 57) then Some (n - 48)
  else if (97 <=? n) && (n <=? 102) then Some (n - 87)
  else if (65 <=? n) && (n <=? 70) then Some (n - 55)
  else None.

(** Pairs of digits are read until the text ends or a pair is not
    hexadecimal. *)
Fixpoint fromHex (s : string) : Bytes :=
  match s with
  | String a (String b r) =>
      match value a, value b with
      | Some x, Some y =>
          match Byte.of_N (16 * x + y) with
          | Some c => c :: fromHex r
          | None => []
          end
      | _, _ => []
      end
  | _ => []
  end.

End Hex.

(* ================================================================== *)
(** * seed-vault/crypto-utils.ts                                       *)
(* ================================================================== *)

Module CryptoUtils.

(** [DerivationPathComponents] of seed-vault/types.ts. *)
Record DerivationPathComponents := mkComponents {
  purpose : N;
  coinType : N;
  account : N;
  change : N;
  addressIndex : N
}.

(** The regular expressions of [parseDerivationPath] are sequences of
    literal texts and groups [(\d+)], anchored at both ends. *)
Inductive Token :=
| Lit (s : string)
| Digits.

(** Matching: the captured groups, in order.  A group takes the longest
    run of digits; as every group is followed by a literal that starts
    with a character that is no digit, or by the end of the text, no
    shorter run can match. *)
Fixpoint matchTokens (pat : list Token) (s : string) : option (list string) :=
  match pat with
  | [] => if isEmpty s then Some [] else None
  | Lit l :: pat' =>
      match stripPrefix l s with
      | Some rest => matchTokens pat' rest
      | None => None
      end
  | Digits :: pat' =>
      let (ds, rest) := spanDigits s in
      if isEmpty ds then None
      else match matchTokens pat' rest with
           | Some gs => Some (ds :: gs)
           | None => None
           end
  end.

(** [/^m\/(\d+)'\/(\d+)'\/(\d+)'\/(\d+)'\/(\d+)'$/] *)
Definition hardenedRegex : list Token :=
  [Lit "m/"; Digits; Lit "'/"; Digits; Lit "'/"; Digits; Lit "'/";
   Digits; Lit "'/"; Digits; Lit "'"].

(** [/^m\/(\d+)'\/(\d+)'\/(\d+)'\/(\d+)\/(\d+)$/] *)
Definition mixedRegex : list Token :=
  [Lit "m/"; Digits; Lit "'/"; Digits; Lit "'/"; Digits; Lit "'/";
   Digits; Lit "/"; Digits].

(** The components read from the five groups of a match. *)
Definition componentsOfMatch (gs : list string) : DerivationPathComponents :=
  mkComponents (parseInt10 (nth 0 gs EmptyString))
               (parseInt10 (nth 1 gs EmptyString))
               (parseInt10 (nth 2 gs EmptyString))
               (parseInt10 (nth 3 gs EmptyString))
               (parseInt10 (nth 4 gs EmptyString)).

Definition parseDerivationPath (path : string)
  : Result DerivationPathComponents :=
  match matchTokens hardenedRegex path with
  | Some gs => Ok (componentsOfMatch gs)
  | None =>
      match matchTokens mixedRegex path with
      | Some gs => Ok (componentsOfMatch gs)
      | None =>
          Throw (createError INVALID_DERIVATION_PATH
                   ("Invalid derivation path format: " ++ path))
      end
  end.

Definition formatDerivationPath (c : DerivationPathComponents) : string :=
  "m/" ++ numberToString (purpose c) ++ "'/" ++ numberToString (coinType c)
       ++ "'/" ++ numberToString (account c) ++ "'/"
       ++ numberToString (change c) ++ "'/"
       ++ numberToString (addressIndex c) ++ "'".

Definition generateSolanaDerivationPath (acc chg idx : N) : string :=
  "m/44'/501'/" ++ numberToString acc ++ "'/" ++ numberToString chg
                ++ "'/" ++ numberToString idx ++ "'".

Definition validateSolanaDerivationPath (path : string) : bool :=
  match parseDerivationPath path with
  | Ok c =>
      if negb (purpose c =? 44) then false
      else if negb (coinType c =? 501) then false
      else if 2147483647 <? account c then false
      else if 2147483647 <? change c then false
      else if 2147483647 <? addressIndex c then false
      else true
  | Throw _ => false
  end.

Definition KEY_DERIVATION_ITERATIONS : N := 100000.
Definition SALT_LENGTH : nat := 32.
Definition IV_LENGTH : nat := 16.

(** Message of the TypeError Node raises when the password handed to
    [pbkdf2Sync] is [null]. *)
Definition nullPasswordMessage : string :=
  let q := String (ascii_of_N 34) EmptyString in
  "The " ++ q ++ "password" ++ q
    ++ " argument must be of type string or an instance of ArrayBuffer, "
    ++ "Buffer, TypedArray, or DataView. Received null".

Section WithPrimitives.
Context {P : Primitives}.

Definition generateSecureRandom (length : nat) (g : Rng) : Bytes * Rng :=
  randomBytes length g.

Definition generateMnemonic (strength : N) (g : Rng) : string * Rng :=
  bip39_generateMnemonic strength g.

Definition validateMnemonic (mnemonic : string) : bool :=
  bip39_validateMnemonic mnemonic.

Definition mnemonicToSeed (mnemonic passphrase : string) : Result Bytes :=
  if negb (validateMnemonic mnemonic)
  then Throw (createError INVALID_MNEMONIC "Invalid mnemonic phrase")
  else Ok (bip39_mnemonicToSeedSync mnemonic passphrase).

Definition deriveKeypairFromSeed (seed : Bytes) (derivationPath : string)
  : Result Keypair :=
  match bind (hd_derivePath derivationPath (Hex.toHex seed))
             Keypair_fromSeed with
  | Ok kp => Ok kp
  | Throw e =>
      Throw (createError INVALID_DERIVATION_PATH
               ("Failed to derive keypair: " ++ message e))
  end.

(** The passphrase takes its default, the empty text, at every call
    of the sources. *)
Definition deriveKeypairFromMnemonic (mnemonic derivationPath : string)
  : Result Keypair :=
  bind (mnemonicToSeed mnemonic EmptyString)
       (fun seed => deriveKeypairFromSeed seed derivationPath).

Definition deriveEncryptionKey (password : string) (salt : Bytes) : Bytes :=
  pbkdf2Sync password salt KEY_DERIVATION_ITERATIONS 32.

(** [encrypt(data, password)].  The password is [None] when the caller
    hands over a [null] master password. *)
Definition encrypt (data : string) (password : option string) (g : Rng)
  : Result string * Rng :=
  let (salt, g1) := generateSecureRandom SALT_LENGTH g in
  let (iv, g2) := generateSecureRandom IV_LENGTH g1 in
  let body :=
    match password with
    | None => Throw (plainError nullPasswordMessage)
    | Some pw =>
        let key := deriveEncryptionKey pw salt in
        bind (aes256cbc_cipher key iv (utf8Encode data))
             (fun uf =>
                let encrypted := Hex.toHex (fst uf) ++ Hex.toHex (snd uf) in
                Ok (base64Encode (salt ++ iv ++ Hex.fromHex encrypted)%list))
    end in
  match body with
  | Ok r => (Ok r, g2)
  | Throw e =>
      (Throw (createError ENCRYPTION_FAILED
                ("Encryption failed: " ++ message e)), g2)
  end.

Definition decrypt (encryptedData : string) (password : option string)
  : Result string :=
  let data := base64Decode encryptedData in
  let salt := firstn SALT_LENGTH data in
  let iv := firstn IV_LENGTH (skipn SALT_LENGTH data) in
  let encrypted := skipn (SALT_LENGTH + IV_LENGTH) data in
  let body :=
    match password with
    | None => Throw (plainError nullPasswordMessage)
    | Some pw =>
        let key := deriveEncryptionKey pw salt in
        bind (aes256cbc_decipher key iv encrypted)
             (fun uf => Ok (utf8Decode (fst uf ++ snd uf)%list))
    end in
  match body with
  | Ok r => Ok r
  | Throw e =>
      Throw (createError DECRYPTION_FAILED
               ("Decryption failed: " ++ message e))
  end.

(** [hash(data)] on a string. *)
Definition hash (data : string) : string :=
  Hex.toHex (sha256 (utf8Encode data)).

Definition generateWalletId (g : Rng) : string * Rng :=
  let (randomData, g1) := generateSecureRandom 16 g in
  (substring 0 16 (Hex.toHex (sha256 randomData)), g1).

Definition generateDeterministicWalletId (publicKey : string) : string :=
  substring 0 16 (hash publicKey).

End WithPrimitives.

End CryptoUtils.

(* ================================================================== *)
(** * Stateful methods                                                 *)
(* ================================================================== *)

(** A method of an object with state [S]: the outcome and the state it
    leaves.  A throw keeps the assignments made before it. *)
Module Eff.

Definition M (S A : Type) : Type := S -> Result A * S.

Definition ret {S A} (a : A) : M S A := fun s => (Ok a, s).

Definition throw {S A} (e : JsError) : M S A := fun s => (Throw e, s).

Definition bindM {S A B} (m : M S A) (k : A -> M S B) : M S B :=
  fun s =>
    match m s with
    | (Ok a, s') => k a s'
    | (Throw e, s') => (Throw e, s')
    end.

Definition gets {S A} (f : S -> A) : M S A := fun s => (Ok (f s), s).

Definition modify {S} (f : S -> S) : M S unit := fun s => (Ok tt, f s).

(** A pure computation that may throw. *)
Definition lift {S A} (r : Result A) : M S A := fun s => (r, s).

(** [try { m } catch (error) { h error }] *)
Definition tryCatch {S A} (m : M S A) (h : JsError -> M S A) : M S A :=
  fun s =>
    match m s with
    | (Ok a, s') => (Ok a, s')
    | (Throw e, s') => h e s'
    end.

(** [if (c) { m }] *)
Definition when {S} (c : bool) (m : M S unit) : M S unit :=
  if c then m else ret tt.

End Eff.
Import Eff.

Declare Scope eff_scope.
Delimit Scope eff_scope with eff.
Notation "x <- m ;; k" := (bindM m (fun x => k))
  (at level 61, m at next level, right associativity) : eff_scope.
Notation "m ;; k" := (bindM m (fun _ => k))
  (at level 61, right associativity) : eff_scope.

(** A JavaScript [Map] with string keys: insertion order is kept, and
    [set] on a present key replaces the value in place. *)
Module JsMap.

Section WithValue.
Variable V : Type.

Definition t := list (string * V).

Fixpoint get (k : string) (m : t) : option V :=
  match m with
  | [] => None
  | (k', v) :: r => if String.eqb k k' then Some v else get k r
  end.

Definition has (k : string) (m : t) : bool :=
  match get k m with Some _ => true | None => false end.

Fixpoint set (k : string) (v : V) (m : t) : t :=
  match m with
  | [] => [(k, v)]
  | (k', v') :: r =>
      if String.eqb k k' then (k, v) :: r else (k', v') :: set k v r
  end.

Fixpoint delete (k : string) (m : t) : t :=
  match m with
  | [] => []
  | (k', v') :: r =>
      if String.eqb k k' then r else (k', v') :: delete k r
  end.

Definition values (m : t) : list V := map snd m.

End WithValue.

Arguments get {V} k m.
Arguments has {V} k m.
Arguments set {V} k v m.
Arguments delete {V} k m.
Arguments values {V} m.

End JsMap.

(* ================================================================== *)
(** * seed-vault/storage.ts                                            *)
(* ================================================================== *)

(** Both storage classes keep one record per wallet id, the configuration
    and a lock marker.  File operations are taken to succeed, and the
    directory is listed in the order the files were created. *)
Module Storage.
Import Types.

Inductive Kind := FileSystemStorage | MemoryStorage.

Record State := mkStorage {
  kind : Kind;
  wallets : JsMap.t Wallet;
  config : option SeedVaultConfig;
  locked : bool
}.

Definition create (k : Kind) : State := mkStorage k [] None false.

Definition instanceofFileSystemStorage (s : State) : bool :=
  match kind s with FileSystemStorage => true | MemoryStorage => false end.

Definition initialize (cfg : option SeedVaultConfig) (s : State) : State :=
  match cfg with
  | Some c => mkStorage (kind s) (wallets s) (Some c) (locked s)
  | None => s
  end.

Definition saveWallet (w : Wallet) (s : State) : State :=
  mkStorage (kind s) (JsMap.set (id w) w (wallets s)) (config s) (locked s).

Definition loadWallet (walletId : string) (s : State) : option Wallet :=
  JsMap.get walletId (wallets s).

(** [sort((a, b) => b.lastUsed.getTime() - a.lastUsed.getTime())]:
    most recently used first, ties in their former order. *)
Fixpoint insertByLastUsed (w : Wallet) (l : list Wallet) : list Wallet :=
  match l with
  | [] => [w]
  | x :: r =>
      if lastUsed x <=? lastUsed w then w :: l
      else x :: insertByLastUsed w r
  end.

Definition sortByLastUsed (l : list Wallet) : list Wallet :=
  fold_right insertByLastUsed [] l.

Definition loadAllWallets (s : State) : list Wallet :=
  sortByLastUsed (JsMap.values (wallets s)).

Definition deleteWallet (walletId : string) (s : State) : State :=
  mkStorage (kind s) (JsMap.delete walletId (wallets s)) (config s) (locked s).

Definition clear (s : State) : State := mkStorage (kind s) [] None false.

Definition createLock (s : State) : State :=
  mkStorage (kind s) (wallets s) (config s) true.

Definition removeLock (s : State) : State :=
  mkStorage (kind s) (wallets s) (config s) false.

Definition isLocked (s : State) : bool := locked s.

End Storage.

(* ================================================================== *)
(** * seed-vault/seed-vault-mock.ts                                    *)
(* ================================================================== *)

(** Event listeners are not modelled: [emit] has no effect.  Every method
    runs to its end before anything else does; [now] is the clock during
    the call. *)
Module SeedVaultMock.
Import Types.
Local Open Scope eff_scope.

Record State := mkVault {
  storage : Storage.State;
  isInitialized : bool;
  isLocked : bool;
  masterPassword : option string;
  config : SeedVaultConfig;
  (** the pending auto-lock timer: the time at which it fires *)
  lockTimeout : option Time;
  lastActivity : Time
}.

Definition withStorage (f : Storage.State -> Storage.State) (v : State) :=
  mkVault (f (storage v)) (isInitialized v) (isLocked v) (masterPassword v)
          (config v) (lockTimeout v) (lastActivity v).
Definition setInitialized (b : bool) (v : State) :=
  mkVault (storage v) b (isLocked v) (masterPassword v)
          (config v) (lockTimeout v) (lastActivity v).
Definition setLocked (b : bool) (v : State) :=
  mkVault (storage v) (isInitialized v) b (masterPassword v)
          (config v) (lockTimeout v) (lastActivity v).
Definition setMasterPassword (p : option string) (v : State) :=
  mkVault (storage v) (isInitialized v) (isLocked v) p
          (config v) (lockTimeout v) (lastActivity v).
Definition setConfig (c : SeedVaultConfig) (v : State) :=
  mkVault (storage v) (isInitialized v) (isLocked v) (masterPassword v)
          c (lockTimeout v) (lastActivity v).
Definition setLockTimeout (t : option Time) (v : State) :=
  mkVault (storage v) (isInitialized v) (isLocked v) (masterPassword v)
          (config v) t (lastActivity v).
Definition setLastActivity (t : Time) (v : State) :=
  mkVault (storage v) (isInitialized v) (isLocked v) (masterPassword v)
          (config v) (lockTimeout v) t.

Definition emptyConfig : SeedVaultConfig := mkConfig None None None None.

(** [new SeedVaultMock(config, useMemoryStorage)] *)
Definition constructor (cfg : option SeedVaultConfig)
           (useMemoryStorage : bool) (now : Time) : State :=
  let defaults := mkConfig None None (Some true) (Some (15 * 60 * 1000)) in
  let c := spread defaults (match cfg with Some c => c | None => emptyConfig end) in
  mkVault (Storage.create (if useMemoryStorage then Storage.MemoryStorage
                           else Storage.FileSystemStorage))
          false true None c None now.

(** JavaScript truth of [config.autoLock] and of [config.lockTimeout]. *)
Definition autoLockOn (v : State) : bool :=
  match autoLock (config v) with Some b => b | None => false end.
Definition lockTimeoutSet (v : State) : option N :=
  match Types.lockTimeout (config v) with
  | Some t => if t =? 0 then None else Some t
  | None => None
  end.

Definition ensureInitialized : M State unit :=
  fun v =>
    if negb (isInitialized v)
    then (Throw (createError VAULT_LOCKED "Seed Vault is not initialized"), v)
    else (Ok tt, v).

Definition ensureUnlocked : M State unit :=
  ensureInitialized ;;
  (fun v =>
     if isLocked v
     then (Throw (createError VAULT_LOCKED "Seed Vault is locked"), v)
     else (Ok tt, v)).

Definition clearLockTimeout : M State unit := modify (setLockTimeout None).

Definition setupAutoLock (now : Time) : M State unit :=
  clearLockTimeout ;;
  (fun v =>
     match autoLockOn v, lockTimeoutSet v with
     | true, Some t => (Ok tt, setLockTimeout (Some (now + t)) v)
     | _, _ => (Ok tt, v)
     end).

Definition updateActivity (now : Time) : M State unit :=
  modify (setLastActivity now) ;;
  (fun v =>
     if autoLockOn v && negb (isLocked v)
     then setupAutoLock now v else (Ok tt, v)).

Definition initialize (cfg : option SeedVaultConfig) (now : Time)
  : M State unit :=
  when (match cfg with Some _ => true | None => false end)
       (modify (fun v => setConfig (spread (config v)
                  (match cfg with Some c => c | None => emptyConfig end)) v)) ;;
  modify (fun v => withStorage (Storage.initialize (Some (config v))) v) ;;
  (fun v =>
     if Storage.instanceofFileSystemStorage (storage v)
     then (Ok tt, setLocked (Storage.isLocked (storage v)) v)
     else (Ok tt, v)) ;;
  modify (setInitialized true) ;;
  updateActivity now.

Definition lock : M State unit :=
  ensureInitialized ;;
  (fun v =>
     if isLocked v then (Ok tt, v)
     else
       (modify (setLocked true) ;;
        modify (setMasterPassword None) ;;
        (fun v =>
           if Storage.instanceofFileSystemStorage (storage v)
           then (Ok tt, withStorage Storage.createLock v)
           else (Ok tt, v)) ;;
        clearLockTimeout) v).

Definition unlock (password : string) (now : Time) : M State unit :=
  ensureInitialized ;;
  (fun v =>
     if negb (isLocked v) then (Ok tt, v)
     else if isEmpty password || Nat.ltb (String.length password) 4
     then (Throw (createError INVALID_PASSWORD "Invalid password provided"), v)
     else
       (modify (setLocked false) ;;
        modify (setMasterPassword (Some password)) ;;
        (fun v =>
           if Storage.instanceofFileSystemStorage (storage v)
           then (Ok tt, withStorage Storage.removeLock v)
           else (Ok tt, v)) ;;
        updateActivity now ;;
        setupAutoLock now) v).

Definition getStatus : M State SeedVaultStatus :=
  ensureInitialized ;;
  (fun v =>
     let wallets := Storage.loadAllWallets (storage v) in
     (Ok (mkStatus (isLocked v) (List.length wallets) (lastActivity v) "1.0.0"),
      v)).

(** The auto-lock timer, when its time has come: [await this.lock()]. *)
Definition fireAutoLock (now : Time) (v : State) : State :=
  match lockTimeout v with
  | Some t =>
      if t <=? now then snd (lock (setLockTimeout None v)) else v
  | None => v
  end.

(** [catch (error) { if (error instanceof Error && 'code' in error)
    throw error; throw createError('SIGNING_FAILED', prefix + message) }] *)
Definition rethrow {A} (prefix : string) (e : JsError) : M State A :=
  fun v =>
    match code e with
    | Some _ => (Throw e, v)
    | None => (Throw (createError SIGNING_FAILED (prefix ++ message e)), v)
    end.

Definition notFound (walletId : string) : JsError :=
  createError WALLET_NOT_FOUND ("Wallet " ++ walletId ++ " not found").

(** [const wallet = await this.storage.loadWallet(walletId);
     if (!wallet) throw ...] *)
Definition requireWallet (walletId : string) : M State Wallet :=
  fun v =>
    match Storage.loadWallet walletId (storage v) with
    | Some w => (Ok w, v)
    | None => (Throw (notFound walletId), v)
    end.

Section WithPrimitives.
Context {P : Primitives}.

(** [JSON.parse(CryptoUtils.decrypt(wallet.encryptedPrivateKey,
    this.masterPassword!))] *)
Definition decryptKeyMaterial (w : Wallet) : M State KeyMaterial :=
  fun v =>
    (bind (CryptoUtils.decrypt (encryptedPrivateKey w) (masterPassword v))
          JSON_parse, v).

(** [CryptoUtils.encrypt(JSON.stringify({ mnemonic, secretKey }),
    this.masterPassword!)] *)
Definition encryptKeyMaterial (mn : string) (kp : Keypair) (g : Rng)
  : M State (string * Rng) :=
  fun v =>
    let (r, g') :=
      CryptoUtils.encrypt (JSON_stringify (mkKeyMaterial mn (kp_secretKey kp)))
                          (masterPassword v) g in
    (bind r (fun blob => Ok (blob, g')), v).

Definition generateWallet (prof : WalletProfile) (now : Time) (g : Rng)
  : M State Wallet :=
  ensureUnlocked ;;
  updateActivity now ;;
  tryCatch
    (let (mn, g1) :=
       match mnemonic prof with
       | Some m => if isEmpty m then CryptoUtils.generateMnemonic 128 g
                   else (m, g)
       | None => CryptoUtils.generateMnemonic 128 g
       end in
     (if negb (CryptoUtils.validateMnemonic mn)
      then throw (createError INVALID_MNEMONIC "Generated mnemonic is invalid")
      else ret tt) ;;
     keypair <- lift (CryptoUtils.deriveKeypairFromMnemonic mn (derivationPath prof)) ;;
     let (walletId, g2) := CryptoUtils.generateWalletId g1 in
     enc <- encryptKeyMaterial mn keypair g2 ;;
     let wallet := mkWallet walletId prof (kp_publicKey keypair) (fst enc) now now in
     modify (withStorage (Storage.saveWallet wallet)) ;;
     ret wallet)
    (rethrow "Failed to generate wallet: ").

Definition importWallet (prof : WalletProfile) (mn : string) (now : Time)
           (g : Rng) : M State Wallet :=
  ensureUnlocked ;;
  updateActivity now ;;
  tryCatch
    ((if negb (CryptoUtils.validateMnemonic mn)
      then throw (createError INVALID_MNEMONIC "Invalid mnemonic phrase provided")
      else ret tt) ;;
     keypair <- lift (CryptoUtils.deriveKeypairFromMnemonic mn (derivationPath prof)) ;;
     existingWallets <- gets (fun v => Storage.loadAllWallets (storage v)) ;;
     match find (fun w => String.eqb (publicKey w) (kp_publicKey keypair))
                existingWallets with
     | Some _ =>
         throw (createError WALLET_NOT_FOUND
                  "Wallet with this public key already exists")
     | None =>
         enc <- encryptKeyMaterial mn keypair g ;;
         let wallet :=
           mkWallet (CryptoUtils.generateDeterministicWalletId (kp_publicKey keypair))
                    (mkProfile (name prof) (Some mn) (derivationPath prof)
                               (network prof))
                    (kp_publicKey keypair) (fst enc) now now in
         modify (withStorage (Storage.saveWallet wallet)) ;;
         ret wallet
     end)
    (rethrow "Failed to import wallet: ").

Definition exportWallet (walletId : string) (now : Time)
  : M State WalletExport :=
  ensureUnlocked ;;
  updateActivity now ;;
  wallet <- requireWallet walletId ;;
  tryCatch
    (decryptedData <- decryptKeyMaterial wallet ;;
     ret (mkWalletExport (profile wallet) (km_mnemonic decryptedData)
                         (publicKey wallet) (createdAt wallet)))
    (fun e => throw (createError DECRYPTION_FAILED
                       ("Failed to export wallet: " ++ message e))).

Definition listWallets (now : Time) : M State (list Wallet) :=
  ensureUnlocked ;;
  updateActivity now ;;
  gets (fun v => Storage.loadAllWallets (storage v)).

Definition getWallet (walletId : string) (now : Time)
  : M State (option Wallet) :=
  ensureUnlocked ;;
  updateActivity now ;;
  gets (fun v => Storage.loadWallet walletId (storage v)).

Definition deleteWallet (walletId : string) (now : Time) : M State unit :=
  ensureUnlocked ;;
  updateActivity now ;;
  _ <- requireWallet walletId ;;
  modify (withStorage (Storage.deleteWallet walletId)).

Definition deriveKeypair (walletId path : string) (now : Time)
  : M State DerivedKey :=
  ensureUnlocked ;;
  updateActivity now ;;
  wallet <- requireWallet walletId ;;
  tryCatch
    ((if negb (CryptoUtils.validateSolanaDerivationPath path)
      then throw (createError INVALID_DERIVATION_PATH
                    ("Invalid Solana derivation path: " ++ path))
      else ret tt) ;;
     decryptedData <- decryptKeyMaterial wallet ;;
     keypair <- lift (CryptoUtils.deriveKeypairFromMnemonic
                        (km_mnemonic decryptedData) path) ;;
     ret (mkDerivedKey keypair (kp_publicKey keypair) path))
    (rethrow "Failed to derive keypair: ").

Definition deriveKeypairFromComponents (walletId : string)
           (components : CryptoUtils.DerivationPathComponents) (now : Time)
  : M State DerivedKey :=
  let path := CryptoUtils.formatDerivationPath components in
  deriveKeypair walletId path now.

Definition getPublicKey (walletId : string) (now : Time)
  : M State PublicKey :=
  ensureUnlocked ;;
  updateActivity now ;;
  wallet <- requireWallet walletId ;;
  ret (publicKey wallet).

(** [simulateUserConfirmation]: the promise always resolves to
    [true]. *)
Definition simulateUserConfirmation : M State bool := ret true.

(** [Buffer.from('mock transaction message for simulation')] *)
Definition mockMessage : Bytes :=
  utf8Encode "mock transaction message for simulation".

Definition mockBlockhash : string :=
  "EkSnNWid2cvwEVnVx9aBqawnmiCNiDgp3gUdkDPTKN1N".

Definition setLastUsed (t : Time) (w : Wallet) : Wallet :=
  mkWallet (id w) (profile w) (publicKey w) (encryptedPrivateKey w)
           (createdAt w) t.

Definition signTransaction (walletId : string)
           (transaction : Web3.Transaction) (autoApprove : bool)
           (now : Time) : M State SigningResult :=
  ensureUnlocked ;;
  updateActivity now ;;
  wallet <- requireWallet walletId ;;
  tryCatch
    ((if negb autoApprove
      then
        _ <- lift (Transaction_serialize transaction) ;;
        approved <- simulateUserConfirmation ;;
        if negb approved
        then throw (createError SIGNING_FAILED
                      "Transaction signing rejected by user")
        else ret tt
      else ret tt) ;;
     decryptedData <- decryptKeyMaterial wallet ;;
     keypair <- lift (CryptoUtils.deriveKeypairFromMnemonic
                        (km_mnemonic decryptedData)
                        (derivationPath (profile wallet))) ;;
     (if negb (String.eqb (kp_publicKey keypair) (publicKey wallet))
      then throw (createError SIGNING_FAILED
                    "Derived keypair does not match wallet public key")
      else ret tt) ;;
     match Web3.instructions transaction with
     | None | Some [] =>
         throw (createError INVALID_TRANSACTION
                  "Transaction has no instructions")
     | Some instrs =>
         let signature := nacl_sign_detached mockMessage (kp_secretKey keypair) in
         let mockSignedTransaction :=
           Web3.mkTransaction
             (Some instrs) (Some (kp_publicKey keypair)) (Some mockBlockhash)
             [Web3.mkSignature (kp_publicKey keypair) (Some signature)] in
         let result := mkSigningResult signature mockSignedTransaction now in
         modify (withStorage (Storage.saveWallet (setLastUsed now wallet))) ;;
         ret result
     end)
    (rethrow "Failed to sign transaction: ").

Fixpoint signTransactions (walletId : string)
         (transactions : list Web3.Transaction) (autoApprove : bool)
         (now : Time) : M State (list SigningResult) :=
  match transactions with
  | [] => ret []
  | transaction :: rest =>
      result <- signTransaction walletId transaction autoApprove now ;;
      results <- signTransactions walletId rest autoApprove now ;;
      ret (result :: results)
  end.

Definition signMessage (walletId : string) (msg : Bytes)
           (autoApprove : bool) (now : Time)
  : M State MessageSigningResult :=
  ensureUnlocked ;;
  updateActivity now ;;
  wallet <- requireWallet walletId ;;
  tryCatch
    ((if negb autoApprove
      then
        approved <- simulateUserConfirmation ;;
        if negb approved
        then throw (createError SIGNING_FAILED
                      "Message signing rejected by user")
        else ret tt
      else ret tt) ;;
     decryptedData <- decryptKeyMaterial wallet ;;
     keypair <- lift (CryptoUtils.deriveKeypairFromMnemonic
                        (km_mnemonic decryptedData)
                        (derivationPath (profile wallet))) ;;
     let signature := nacl_sign_detached msg (kp_secretKey keypair) in
     let result :=
       mkMessageSigningResult signature msg (kp_publicKey keypair) now in
     modify (withStorage (Storage.saveWallet (setLastUsed now wallet))) ;;
     ret result)
    (rethrow "Failed to sign message: ").

Fixpoint signMessages (walletId : string) (messages : list Bytes)
         (autoApprove : bool) (now : Time)
  : M State (list MessageSigningResult) :=
  match messages with
  | [] => ret []
  | msg :: rest =>
      result <- signMessage walletId msg autoApprove now ;;
      results <- signMessages walletId rest autoApprove now ;;
      ret (result :: results)
  end.

(** The four helpers of the interface call [CryptoUtils] and nothing
    else: they have no guard and use no field of the vault. *)
Definition validateMnemonic (mnemonic : string) : M State bool :=
  ret (CryptoUtils.validateMnemonic mnemonic).

(** [strength] is [None] when the argument is left out: it is then 128. *)
Definition generateMnemonic (strength : option N) (g : Rng)
  : M State string :=
  ret (fst (CryptoUtils.generateMnemonic
              (match strength with Some s => s | None => 128 end) g)).

Definition parseDerivationPath (path : string)
  : M State CryptoUtils.DerivationPathComponents :=
  lift (CryptoUtils.parseDerivationPath path).

Definition formatDerivationPath
           (components : CryptoUtils.DerivationPathComponents)
  : M State string :=
  ret (CryptoUtils.formatDerivationPath components).

Definition reset : M State unit :=
  ensureInitialized ;;
  modify (withStorage Storage.clear) ;;
  modify (setLocked true) ;;
  modify (setMasterPassword None) ;;
  clearLockTimeout.

End WithPrimitives.

End SeedVaultMock.

(* ================================================================== *)
(** * mwa/transaction-validator.ts                                     *)
(* ================================================================== *)

Module TransactionValidator.
Import Web3.

Inductive TransactionType :=
| transfer
| token_transfer
| program_interaction
| account_creation
| unknown.

Record TransactionMetadata := mkMetadata {
  instructionCount : N;
  accountCount : N;
  estimatedFee : N;
  programIds : list string;
  hasSystemProgram : bool;
  hasTokenProgram : bool;
  transferAmount : option N;
  recipient : option string;
  type : TransactionType
}.

Record TransactionValidationResult := mkValidation {
  isValid : bool;
  errors : list string;
  warnings : list string;
  metadata : TransactionMetadata
}.

Definition SYSTEM_PROGRAM_ID : string := Web3.SYSTEM_PROGRAM_ID.
Definition TOKEN_PROGRAM_ID : string :=
  "TokenkegQfeZyiNwAJbNbGKPFXCWuBvf9Ss623VQ5DA".
Definition ASSOCIATED_TOKEN_PROGRAM_ID : string :=
  "ATokenGPvbdGVxr1b2hvZbsiqW5xWH25efTNsLJA8knL".

(** The TypeError of reading [.length] of [undefined]. *)
Definition undefinedLength : JsError :=
  plainError "Cannot read properties of undefined (reading 'length')".

Definition num (n : nat) : string := numberToString (N.of_nat n).

Local Infix "+++" := List.app (right associativity, at level 60).

(** The inner loop of [validateInstructions], over the account keys of
    instruction [i], from key [j] on. *)
Fixpoint validateKeys (i j : nat) (ks : list AccountMeta) : list string :=
  match ks with
  | [] => []
  | key :: r =>
      (match pubkey key with
       | None => ["Instruction " ++ num i ++ ", key " ++ num j
                    ++ " has no public key"]
       | Some _ => []
       end)
      +++ (match isSigner key with
           | None => ["Instruction " ++ num i ++ ", key " ++ num j
                        ++ " has invalid isSigner flag"]
           | Some _ => []
           end)
      +++ (match isWritable key with
           | None => ["Instruction " ++ num i ++ ", key " ++ num j
                        ++ " has invalid isWritable flag"]
           | Some _ => []
           end)
      +++ validateKeys i (S j) r
  end.

(** The loop of [validateInstructions], from instruction [i] on. *)
Fixpoint validateInstructionsFrom (i : nat)
         (instrs : list TransactionInstruction) : list string :=
  match instrs with
  | [] => []
  | instruction :: r =>
      (match programId instruction with
       | None => ["Instruction " ++ num i ++ " has no program ID"]
       | Some _ =>
           match keys instruction with
           | None => ["Instruction " ++ num i ++ " has no account keys"]
           | Some ks => validateKeys i 0 ks
           end
       end) +++ validateInstructionsFrom (S i) r
  end.

(** [validateInstructions(instructions)]; reading the length of an
    absent array throws. *)
Definition validateInstructions
           (instrs : option (list TransactionInstruction))
  : Result (list string) :=
  match instrs with
  | None => Throw undefinedLength
  | Some l => Ok (validateInstructionsFrom 0 l)
  end.

(** [getBigUint64(0, true)] on eight bytes: little-endian. *)
Fixpoint littleEndian (bs : Bytes) : N :=
  match bs with
  | [] => 0
  | b :: r => Byte.to_N b + 256 * littleEndian r
  end.

(** [extractSystemTransferInfo]; any error inside is swallowed.  The
    amount is kept as the integer read (JavaScript rounds it to a
    double above 2^53). *)
Definition extractSystemTransferInfo (instruction : TransactionInstruction)
  : option (N * string) :=
  match keys instruction, data instruction with
  | Some ks, Some d =>
      if Nat.leb 2 (List.length ks) && Nat.leb 4 (List.length d)
      then
        let recipient :=
          match nth_error ks 1 with
          | Some k => pubkey k
          | None => None
          end in
        let amount :=
          if Nat.leb 12 (List.length d)
          then littleEndian (firstn 8 (skipn 4 d)) else 0 in
        match recipient with
        | Some r =>
            if negb (isEmpty r) && (0 <? amount) then Some (amount, r)
            else None
        | None => None
        end
      else None
  | _, _ => None
  end.

Definition classifyTransactionType (programIds : list string)
           (hasSystemProgram hasTokenProgram hasTransferAmount : bool)
  : TransactionType :=
  if hasTokenProgram then token_transfer
  else if hasSystemProgram && hasTransferAmount
          && Nat.eqb (List.length programIds) 1
  then transfer
  else if hasSystemProgram && negb hasTransferAmount
          && Nat.eqb (List.length programIds) 1
  then account_creation
  else if Nat.ltb 1 (List.length programIds)
          || (negb hasSystemProgram && negb hasTokenProgram)
  then program_interaction
  else unknown.

Definition estimateTransactionFee (instrs : list TransactionInstruction) : N :=
  let baseFee := 5000 in
  let instructionFee := N.of_nat (List.length instrs) * 1000 in
  baseFee + instructionFee.

(** The variables of the loop of [extractTransactionMetadata]. *)
Record Scan := mkScan {
  sc_programIds : list string;
  sc_accountCount : N;
  sc_hasSystemProgram : bool;
  sc_hasTokenProgram : bool;
  sc_transferAmount : option N;
  sc_recipient : option string
}.

(** [Set.prototype.add] on the insertion-ordered set of program ids. *)
Definition setAdd (x : string) (l : list string) : list string :=
  if existsb (String.eqb x) l then l else l +++ [x].

(** One turn of the loop. *)
Definition scanInstruction (instruction : TransactionInstruction) (s : Scan)
  : Result Scan :=
  match programId instruction with
  | None => Ok s
  | Some pid =>
      let ids := setAdd pid (sc_programIds s) in
      let isSystem := String.eqb pid SYSTEM_PROGRAM_ID in
      let info := if isSystem then extractSystemTransferInfo instruction
                  else None in
      let amount := match info with
                    | Some (a, _) => Some a
                    | None => sc_transferAmount s
                    end in
      let recip := match info with
                   | Some (_, r) => Some r
                   | None => sc_recipient s
                   end in
      let isToken := String.eqb pid TOKEN_PROGRAM_ID
                     || String.eqb pid ASSOCIATED_TOKEN_PROGRAM_ID in
      match keys instruction with
      | None => Throw undefinedLength
      | Some ks =>
          Ok (mkScan ids (sc_accountCount s + N.of_nat (List.length ks))
                     (sc_hasSystemProgram s || isSystem)
                     (sc_hasTokenProgram s || isToken) amount recip)
      end
  end.

Fixpoint scanInstructions (instrs : list TransactionInstruction) (s : Scan)
  : Result Scan :=
  match instrs with
  | [] => Ok s
  | instruction :: r =>
      bind (scanInstruction instruction s) (scanInstructions r)
  end.

(** [extractTransactionMetadata]; called once the instructions are known
    to be an array. *)
Definition extractTransactionMetadata (instrs : list TransactionInstruction)
  : Result TransactionMetadata :=
  bind (scanInstructions instrs (mkScan [] 0 false false None None))
       (fun s =>
          let type := classifyTransactionType
                        (sc_programIds s) (sc_hasSystemProgram s)
                        (sc_hasTokenProgram s)
                        (match sc_transferAmount s with
                         | Some _ => true | None => false end) in
          Ok (mkMetadata (N.of_nat (List.length instrs)) (sc_accountCount s)
                         (estimateTransactionFee instrs) (sc_programIds s)
                         (sc_hasSystemProgram s) (sc_hasTokenProgram s)
                         (sc_transferAmount s) (sc_recipient s) type)).

Definition validateByType (m : TransactionMetadata) : list string :=
  match type m with
  | transfer =>
      (match transferAmount m with
       | Some a => if a =? 0 then ["Transfer transaction has invalid amount"]
                   else []
       | None => ["Transfer transaction has invalid amount"]
       end)
      +++ (match recipient m with
           | Some r => if isEmpty r
                       then ["Transfer transaction has no recipient"] else []
           | None => ["Transfer transaction has no recipient"]
           end)
  | token_transfer =>
      if negb (hasTokenProgram m)
      then ["Token transfer transaction missing token program"] else []
  | account_creation =>
      if instructionCount m =? 0
      then ["Account creation transaction has no instructions"] else []
  | program_interaction =>
      match programIds m with
      | [] => ["Program interaction transaction has no program IDs"]
      | _ => []
      end
  | unknown => []
  end.

Definition createEmptyMetadata : TransactionMetadata :=
  mkMetadata 0 0 0 [] false false None None unknown.

(** [validateTransaction(transaction)]; [None] is a [null] argument. *)
Definition validateTransaction (transaction : option Transaction)
  : Result TransactionValidationResult :=
  match transaction with
  | None =>
      Ok (mkValidation false ["Transaction is null or undefined"] []
                       createEmptyMetadata)
  | Some tx =>
      let errors1 :=
        match instructions tx with
        | None | Some [] => ["Transaction has no instructions"]
        | Some _ => []
        end in
      let errors2 :=
        match feePayer tx with
        | None => ["Transaction has no fee payer"]
        | Some _ => []
        end in
      let warnings :=
        match recentBlockhash tx with
        | Some h =>
            if isEmpty h
            then ["Transaction has no recent blockhash (may be set later)"]
            else []
        | None => ["Transaction has no recent blockhash (may be set later)"]
        end in
      bind (validateInstructions (instructions tx)) (fun instructionErrors =>
      bind (extractTransactionMetadata
              (match instructions tx with Some l => l | None => [] end))
           (fun metadata =>
      let typeSpecificErrors := validateByType metadata in
      let errors := errors1 +++ errors2 +++ instructionErrors
                      +++ typeSpecificErrors in
      Ok (mkValidation (match errors with [] => true | _ => false end)
                       errors warnings metadata)))
  end.

Definition requiresUserApproval (m : TransactionMetadata) : bool :=
  if match transferAmount m with
     | Some a => 1000000000 <? a
     | None => false
     end then true
  else if match type m with
          | program_interaction | unknown => true
          | _ => false
          end then true
  else if match type m with token_transfer => true | _ => false end then true
  else false.

End TransactionValidator.

(* ================================================================== *)
(** * mwa/transaction-tracker.ts                                       *)
(* ================================================================== *)

(** The timer that calls [cleanup] every hour is not modelled; [cleanup]
    takes the time of the call. *)
Module TransactionTracker.
Import TransactionValidator.
Local Open Scope eff_scope.

Inductive TransactionStatus :=
| pending
| approved
| rejected
| signing
| signed
| signing_failed
| submitted
| confirmed
| failed
| expired.

Inductive EventType :=
| status_change
| approval_requested
| approval_result
| signing_started
| signing_completed
| error_event.

(** The [data] object of an event. *)
Inductive EventData :=
| Created (status : TransactionStatus)
| StatusChanged (previousStatus newStatus : TransactionStatus)
                (extra : list (string * option string))
| SignatureAdded (signature : string)
| ErrorAdded (error : string)
| Custom (fields : list (string * option string)).

Record TransactionEvent := mkEvent {
  ev_type : EventType;
  ev_timestamp : Time;
  ev_data : EventData;
  ev_message : option string
}.

Record TransactionLogEntry := mkEntry {
  id : string;
  walletId : string;
  dAppIdentifier : string;
  transaction : Web3.Transaction;
  metadata : TransactionMetadata;
  status : TransactionStatus;
  signature : option string;
  error : option string;
  createdAt : Time;
  updatedAt : Time;
  approvedAt : option Time;
  signedAt : option Time;
  submittedAt : option Time;
  confirmedAt : option Time;
  events : list TransactionEvent
}.

Record State := mkTracker {
  transactions : JsMap.t TransactionLogEntry;
  maxEntries : N;
  retentionPeriod : N
}.

Definition constructor : State :=
  mkTracker [] 10000 (7 * 24 * 60 * 60 * 1000).

Definition withTransactions
           (f : JsMap.t TransactionLogEntry -> JsMap.t TransactionLogEntry)
           (t : State) : State :=
  mkTracker (f (transactions t)) (maxEntries t) (retentionPeriod t).

Definition statusName (s : TransactionStatus) : string :=
  match s with
  | pending => "pending"
  | approved => "approved"
  | rejected => "rejected"
  | signing => "signing"
  | signed => "signed"
  | signing_failed => "signing_failed"
  | submitted => "submitted"
  | confirmed => "confirmed"
  | failed => "failed"
  | expired => "expired"
  end.

Definition notFound (transactionId : string) : JsError :=
  plainError ("Transaction " ++ transactionId ++ " not found").

Definition createTransaction (id walletId dAppIdentifier : string)
           (transaction : Web3.Transaction) (metadata : TransactionMetadata)
           (now : Time) : M State TransactionLogEntry :=
  let entry :=
    mkEntry id walletId dAppIdentifier transaction metadata pending
            None None now now None None None None
            [mkEvent status_change now (Created pending)
                     (Some "Transaction created")] in
  modify (withTransactions (JsMap.set id entry)) ;;
  ret entry.

(** The assignments of [updateStatus] to the entry. *)
Definition applyStatus (newStatus : TransactionStatus)
           (extra : list (string * option string)) (now : Time)
           (entry : TransactionLogEntry) : TransactionLogEntry :=
  let previousStatus := status entry in
  mkEntry (id entry) (walletId entry) (dAppIdentifier entry)
          (transaction entry) (metadata entry)
          newStatus
          (signature entry) (error entry) (createdAt entry)
          now
          (match newStatus with approved => Some now | _ => approvedAt entry end)
          (match newStatus with signed => Some now | _ => signedAt entry end)
          (match newStatus with submitted => Some now | _ => submittedAt entry end)
          (match newStatus with confirmed => Some now | _ => confirmedAt entry end)
          (List.app (events entry)
             [mkEvent status_change now
                      (StatusChanged previousStatus newStatus extra)
                      (Some ("Status changed from "
                               ++ statusName previousStatus
                               ++ " to " ++ statusName newStatus))]).

Definition updateStatus (transactionId : string)
           (newStatus : TransactionStatus)
           (extra : list (string * option string)) (now : Time)
  : M State unit :=
  fun t =>
    match JsMap.get transactionId (transactions t) with
    | None => (Throw (notFound transactionId), t)
    | Some entry =>
        (Ok tt,
         withTransactions
           (JsMap.set transactionId (applyStatus newStatus extra now entry)) t)
    end.

Definition addSignature (transactionId sig : string) (now : Time)
  : M State unit :=
  fun t =>
    match JsMap.get transactionId (transactions t) with
    | None => (Throw (notFound transactionId), t)
    | Some e =>
        let e' :=
          mkEntry (id e) (walletId e) (dAppIdentifier e) (transaction e)
                  (metadata e) (status e) (Some sig) (error e) (createdAt e)
                  now (approvedAt e) (signedAt e) (submittedAt e)
                  (confirmedAt e)
                  (List.app (events e)
                     [mkEvent signing_completed now (SignatureAdded sig)
                              (Some "Transaction signed successfully")]) in
        (Ok tt, withTransactions (JsMap.set transactionId e') t)
    end.

Definition addError (transactionId err : string) (now : Time)
  : M State unit :=
  fun t =>
    match JsMap.get transactionId (transactions t) with
    | None => (Throw (notFound transactionId), t)
    | Some e =>
        let e' :=
          mkEntry (id e) (walletId e) (dAppIdentifier e) (transaction e)
                  (metadata e) (status e) (signature e) (Some err)
                  (createdAt e) now (approvedAt e) (signedAt e)
                  (submittedAt e) (confirmedAt e)
                  (List.app (events e)
                     [mkEvent error_event now (ErrorAdded err) (Some err)]) in
        (Ok tt, withTransactions (JsMap.set transactionId e') t)
    end.

Definition addEvent (transactionId : string) (type : EventType)
           (data : list (string * option string)) (msg : option string)
           (now : Time) : M State unit :=
  fun t =>
    match JsMap.get transactionId (transactions t) with
    | None => (Throw (notFound transactionId), t)
    | Some e =>
        let e' :=
          mkEntry (id e) (walletId e) (dAppIdentifier e) (transaction e)
                  (metadata e) (status e) (signature e) (error e)
                  (createdAt e) now (approvedAt e) (signedAt e)
                  (submittedAt e) (confirmedAt e)
                  (List.app (events e) [mkEvent type now (Custom data) msg]) in
        (Ok tt, withTransactions (JsMap.set transactionId e') t)
    end.

Definition getTransaction (transactionId : string) (t : State)
  : option TransactionLogEntry :=
  JsMap.get transactionId (transactions t).

(** The lifecycle graph of the specification: the legal successors of a
    status. *)
Definition legalSuccessor (from to : TransactionStatus) : bool :=
  match from, to with
  | _, expired => true
  | pending, approved | pending, rejected => true
  | approved, signing => true
  | signing, signed | signing, signing_failed => true
  | signed, submitted => true
  | submitted, confirmed | submitted, failed => true
  | _, _ => false
  end.

(** ** Queries *)

Definition statusEqb (a b : TransactionStatus) : bool :=
  match a, b with
  | pending, pending | approved, approved | rejected, rejected
  | signing, signing | signed, signed | signing_failed, signing_failed
  | submitted, submitted | confirmed, confirmed | failed, failed
  | expired, expired => true
  | _, _ => false
  end.

(** [TransactionQueryOptions]; [limit] and [offset] are non-negative
    integers. *)
Record TransactionQueryOptions := mkQuery {
  q_walletId : option string;
  q_dAppIdentifier : option string;
  q_status : option TransactionStatus;
  q_fromDate : option Time;
  q_toDate : option Time;
  q_limit : option N;
  q_offset : option N
}.

(** [if (opt) results = results.filter(keep)] for a text option: the
    empty text is falsy. *)
Definition filterByText (opt : option string)
           (field : TransactionLogEntry -> string)
           (results : list TransactionLogEntry) : list TransactionLogEntry :=
  match opt with
  | Some wanted =>
      if isEmpty wanted then results
      else filter (fun tx => String.eqb (field tx) wanted) results
  | None => results
  end.

(** The same for an option that is an object or a status name, which is
    truthy whenever it is there. *)
Definition filterBy {A} (opt : option A)
           (keep : A -> TransactionLogEntry -> bool)
           (results : list TransactionLogEntry) : list TransactionLogEntry :=
  match opt with
  | Some wanted => filter (keep wanted) results
  | None => results
  end.

(** The filters of [queryTransactions] and its sort, newest first. *)
Definition selectTransactions (options : TransactionQueryOptions)
           (t : State) : list TransactionLogEntry :=
  let results := JsMap.values (transactions t) in
  let results := filterByText (q_walletId options) walletId results in
  let results :=
    filterByText (q_dAppIdentifier options) dAppIdentifier results in
  let results :=
    filterBy (q_status options) (fun s tx => statusEqb (status tx) s)
             results in
  let results :=
    filterBy (q_fromDate options) (fun d tx => d <=? createdAt tx)
             results in
  let results :=
    filterBy (q_toDate options) (fun d tx => createdAt tx <=? d) results in
  stableSort (fun a b => createdAt b <=? createdAt a) results.

(** [if (n) results = slice(results, n)] for a number option: 0 is falsy. *)
Definition sliceBy (opt : option N)
           (slice : nat -> list TransactionLogEntry
                    -> list TransactionLogEntry)
           (results : list TransactionLogEntry) : list TransactionLogEntry :=
  match opt with
  | Some n => if n =? 0 then results else slice (N.to_nat n) results
  | None => results
  end.

Definition queryTransactions (options : TransactionQueryOptions)
           (t : State) : list TransactionLogEntry :=
  let results := selectTransactions options t in
  let results := sliceBy (q_offset options) (@skipn _) results in
  sliceBy (q_limit options) (@firstn _) results.

(** [getRecentTransactions(limit = 50)] *)
Definition getRecentTransactions (limit : option N) (t : State)
  : list TransactionLogEntry :=
  let limit := match limit with Some n => n | None => 50 end in
  queryTransactions
    (mkQuery None None None None None (Some limit) None) t.

(** ** Housekeeping *)

Definition clear (t : State) : State := withTransactions (fun _ => []) t.

(** [ids.forEach(id => this.transactions.delete(id))] *)
Definition deleteAll (ids : list string) (m : JsMap.t TransactionLogEntry)
  : JsMap.t TransactionLogEntry :=
  fold_left (fun m id => JsMap.delete id m) ids m.

(** [cleanup()], with the clock at [now].  The cutoff
    [Date.now() - retentionPeriod] is cut at 0: no entry was created
    before the epoch, so a negative cutoff deletes as little as 0. *)
Definition cleanup (now : Time) (t : State) : State :=
  let cutoff := now - retentionPeriod t in
  let toDelete :=
    map fst (filter (fun kv => createdAt (snd kv) <? cutoff)
                    (transactions t)) in
  let remaining := deleteAll toDelete (transactions t) in
  let size := N.of_nat (List.length remaining) in
  let kept :=
    if maxEntries t <? size
    then
      let sorted :=
        stableSort (fun a b => createdAt (snd a) <=? createdAt (snd b))
                   remaining in
      let excess := N.to_nat (size - maxEntries t) in
      deleteAll (map fst (firstn excess sorted)) remaining
    else remaining in
  mkTracker kept (maxEntries t) (retentionPeriod t).

Definition exportLogs (t : State) : list TransactionLogEntry :=
  JsMap.values (transactions t).

Definition importLogs (logs : list TransactionLogEntry) (t : State)
  : State :=
  withTransactions
    (fun _ => fold_left (fun m log => JsMap.set (id log) log m) logs [])
    t.

End TransactionTracker.

(* ================================================================== *)
(** * mwa/transaction-ui-mock.ts                                       *)
(* ================================================================== *)

Module TransactionUIMock.
Import TransactionValidator.
Local Open Scope eff_scope.

Record TransactionApprovalRequest := mkRequest {
  id : string;
  walletId : string;
  dAppIdentifier : string;
  transaction : Web3.Transaction;
  metadata : TransactionMetadata;
  timestamp : Time;
  autoApprove : option bool
}.

Record TransactionApprovalResult := mkResult {
  approved : bool;
  reason : option string;
  res_timestamp : Time
}.

Record TransactionUIConfig := mkUIConfig {
  autoApproveTransfers : bool;
  autoApproveLimit : N;
  showDetailedInfo : bool;
  confirmationDelay : N
}.

Record State := mkUI {
  config : TransactionUIConfig;
  pendingRequests : JsMap.t TransactionApprovalRequest
}.

Definition constructor : State :=
  mkUI (mkUIConfig false 100000000 true 1000) [].

Definition withPending
           (f : JsMap.t TransactionApprovalRequest
                -> JsMap.t TransactionApprovalRequest) (u : State) : State :=
  mkUI (config u) (f (pendingRequests u)).

(** How a request that is not auto-approved gets its answer: by
    [approveRequest], by [rejectRequest] with a reason, or by the timer
    of [simulateUserInteraction]; the timer draws [Math.random()], and
    [below80] and [below95] tell whether the draw is below 0.8 and
    below 0.95. *)
Inductive Decision :=
| ManuallyApproved
| ManuallyRejected (why : option string)
| TimerFired (below80 below95 : bool).

Definition shouldAutoApprove (cfg : TransactionUIConfig)
           (request : TransactionApprovalRequest) : bool :=
  if match autoApprove request with Some b => b | None => false end
  then true
  else if autoApproveTransfers cfg
          && match type (metadata request) with transfer => true | _ => false end
          && match transferAmount (metadata request) with
             | Some a => negb (a =? 0) && (a <=? autoApproveLimit cfg)
             | None => false
             end
       then true
  else if requiresUserApproval (metadata request) then false
  else false.

(** [Math.random() < 0.8] for a transaction that requires approval,
    [Math.random() < 0.95] otherwise. *)
Definition simulateUserDecision (request : TransactionApprovalRequest)
           (below80 below95 : bool) : bool :=
  if requiresUserApproval (metadata request) then below80 else below95.

(** The result the promise of [simulateUserInteraction] resolves to. *)
Definition simulateUserInteraction (request : TransactionApprovalRequest)
           (d : Decision) (now : Time) : TransactionApprovalResult :=
  match d with
  | ManuallyApproved => mkResult true (Some "Manually approved") now
  | ManuallyRejected why =>
      mkResult false
               (Some (match why with
                      | Some r => if isEmpty r then "Manually rejected" else r
                      | None => "Manually rejected"
                      end)) now
  | TimerFired below80 below95 =>
      let ok := simulateUserDecision request below80 below95 in
      mkResult ok (Some (if ok then "User approved" else "User rejected")) now
  end.

(** [requestApproval(request)]; [now] is the time of the answer. *)
Definition requestApproval (request : TransactionApprovalRequest)
           (d : Decision) (now : Time) : M State TransactionApprovalResult :=
  modify (withPending (JsMap.set (id request) request)) ;;
  cfg <- gets config ;;
  if shouldAutoApprove cfg request
  then
    let result := mkResult true (Some "Auto-approved") now in
    modify (withPending (JsMap.delete (id request))) ;;
    ret result
  else
    let result := simulateUserInteraction request d now in
    modify (withPending (JsMap.delete (id request))) ;;
    ret result.

Definition generateRequestId (now : Time) (random : string) : string :=
  "tx_approval_" ++ numberToString now ++ "_" ++ random.

Definition createApprovalRequest (walletId dAppIdentifier : string)
           (transaction : Web3.Transaction) (autoApprove : option bool)
           (now : Time) (random : string)
  : Result TransactionApprovalRequest :=
  bind (validateTransaction (Some transaction)) (fun validation =>
    if negb (isValid validation)
    then Throw (plainError ("Invalid transaction: "
                              ++ join ", " (errors validation)))
    else Ok (mkRequest (generateRequestId now random) walletId dAppIdentifier
                       transaction (TransactionValidator.metadata validation)
                       now autoApprove)).

End TransactionUIMock.

(* ================================================================== *)
(** * mwa/mwa-service.ts                                               *)
(* ================================================================== *)

(** The session handed to a method is the value of the caller's object at
    the call; the session the service keeps is the one in its table, which
    [authorize] and [updateSessionActivity] change.  Event listeners are
    not modelled, and a call runs to its end before anything else does. *)
Module MWAServiceImpl.
Import TransactionValidator.
Local Open Scope eff_scope.

Inductive ConnectionState := connected | disconnected | reconnecting.

Record MWASession := mkSession {
  sessionId : string;
  dAppIdentifier : string;
  authorizedPublicKey : option PublicKey;
  connectionState : ConnectionState;
  permissions : list string;
  authorizedAt : option Time;
  lastActivity : Time
}.

Record SignResult := mkSignResult {
  signedTransaction : option Web3.Transaction;
  signature : option Bytes;
  error : option string
}.

(** [{ error }] *)
Definition errorResult (msg : string) : SignResult :=
  mkSignResult None None (Some msg).

Record State := mkService {
  sessions : JsMap.t MWASession;
  seedVault : SeedVaultMock.State;
  sessionTimeout : N;
  (** the pending idle timers: the time at which each fires *)
  sessionTimers : JsMap.t Time;
  transactionUI : TransactionUIMock.State;
  transactionTracker : TransactionTracker.State
}.

Definition constructor (vault : SeedVaultMock.State) : State :=
  mkService [] vault (30 * 60 * 1000) [] TransactionUIMock.constructor
            TransactionTracker.constructor.

Definition isConnected (c : ConnectionState) : bool :=
  match c with connected => true | _ => false end.

(** Methods of the sub-objects, run on the service. *)
Definition onVault {A} (m : M SeedVaultMock.State A) : M State A :=
  fun st =>
    let (r, v) := m (seedVault st) in
    (r, mkService (sessions st) v (sessionTimeout st) (sessionTimers st)
                  (transactionUI st) (transactionTracker st)).

Definition onUI {A} (m : M TransactionUIMock.State A) : M State A :=
  fun st =>
    let (r, u) := m (transactionUI st) in
    (r, mkService (sessions st) (seedVault st) (sessionTimeout st)
                  (sessionTimers st) u (transactionTracker st)).

Definition onTracker {A} (m : M TransactionTracker.State A) : M State A :=
  fun st =>
    let (r, t) := m (transactionTracker st) in
    (r, mkService (sessions st) (seedVault st) (sessionTimeout st)
                  (sessionTimers st) (transactionUI st) t).

Definition withSessions (f : JsMap.t MWASession -> JsMap.t MWASession)
           (st : State) : State :=
  mkService (f (sessions st)) (seedVault st) (sessionTimeout st)
            (sessionTimers st) (transactionUI st) (transactionTracker st).

Definition withTimers (f : JsMap.t Time -> JsMap.t Time) (st : State)
  : State :=
  mkService (sessions st) (seedVault st) (sessionTimeout st)
            (f (sessionTimers st)) (transactionUI st) (transactionTracker st).

Definition clearSessionTimeout (sid : string) : M State unit :=
  modify (withTimers (JsMap.delete sid)).

Definition setupSessionTimeout (sid : string) (now : Time) : M State unit :=
  clearSessionTimeout sid ;;
  modify (fun st => withTimers (JsMap.set sid (now + sessionTimeout st)) st).

Definition touch (now : Time) (s : MWASession) : MWASession :=
  mkSession (sessionId s) (dAppIdentifier s) (authorizedPublicKey s)
            (connectionState s) (permissions s) (authorizedAt s) now.

Definition updateSessionActivity (sid : string) (now : Time) : M State unit :=
  fun st =>
    match JsMap.get sid (sessions st) with
    | Some s =>
        (modify (withSessions (JsMap.set sid (touch now s))) ;;
         setupSessionTimeout sid now) st
    | None => (Ok tt, st)
    end.

Definition generateSessionId (now : Time) (random : string) : string :=
  "mwa_" ++ numberToString now ++ "_" ++ random.

(** [connect(dAppIdentifier)]; [random] is the random suffix of the
    session id. *)
Definition connect (dAppId : string) (now : Time) (random : string)
  : M State MWASession :=
  if isEmpty dAppId || Nat.eqb (String.length (trim dAppId)) 0
  then throw (plainError "Invalid dApp identifier provided")
  else
    let sid := generateSessionId now random in
    let session := mkSession sid (trim dAppId) None connected [] None now in
    modify (withSessions (JsMap.set sid session)) ;;
    setupSessionTimeout sid now ;;
    ret session.

(** [AuthorizeRequest] and [AuthorizeResult] of interfaces/mwa-service.ts *)
Record AuthorizeRequest := mkAuthorizeRequest {
  cluster : option string;
  features : option (list string)
}.

Record AuthorizeResult := mkAuthorizeResult {
  ar_publicKey : PublicKey;
  ar_accountLabel : option string;
  ar_walletUriBase : option string
}.

(** The assignments of [authorize] to the session of the table. *)
Definition authorizeSession (key : PublicKey) (request : AuthorizeRequest)
           (now : Time) (s : MWASession) : MWASession :=
  mkSession (sessionId s) (dAppIdentifier s) (Some key) (connectionState s)
            (match features request with Some f => f | None => [] end)
            (Some now) (lastActivity s).

(** [authorize(session, request)]: the session of the table is bound to
    the first wallet the vault lists. *)
Definition authorize (session : MWASession) (request : AuthorizeRequest)
           (now : Time) : M State AuthorizeResult :=
  fun st =>
    if negb (JsMap.has (sessionId session) (sessions st))
    then (Throw (plainError "Invalid session: session not found"), st)
    else if negb (isConnected (connectionState session))
    then (Throw (plainError "Invalid session: not connected"), st)
    else
      (updateSessionActivity (sessionId session) now ;;
       wallets <- onVault (SeedVaultMock.listWallets now) ;;
       match wallets with
       | [] => throw (plainError "No wallets available for authorization")
       | selectedWallet :: _ =>
           modify (fun st =>
                     match JsMap.get (sessionId session) (sessions st) with
                     | Some stored =>
                         withSessions
                           (JsMap.set (sessionId session)
                              (authorizeSession
                                 (Types.publicKey selectedWallet)
                                 request now stored))
                           st
                     | None => st
                     end) ;;
           ret (mkAuthorizeResult
                  (Types.publicKey selectedWallet)
                  (Some (Types.name (Types.profile selectedWallet)))
                  (Some "solana-phone-simulator://"))
       end) st.

(** [disconnect(session)].  The object taken out of the table is marked
    ['disconnected'] first: who holds that object reads [markDisconnected]
    of it afterwards. *)
Definition markDisconnected (s : MWASession) : MWASession :=
  mkSession (sessionId s) (dAppIdentifier s) (authorizedPublicKey s)
            disconnected (permissions s) (authorizedAt s) (lastActivity s).

Definition disconnect (session : MWASession) : M State unit :=
  fun st =>
    if negb (JsMap.has (sessionId session) (sessions st)) then (Ok tt, st)
    else
      (clearSessionTimeout (sessionId session) ;;
       modify (withSessions (JsMap.delete (sessionId session)))) st.

Definition getSession (sid : string) (st : State) : option MWASession :=
  JsMap.get sid (sessions st).



(** What the surroundings supply while item [i] of a batch is handled:
    the clock when the item is taken up, the random suffixes of the two
    identifiers, the answer to the approval request and the clock once
    the answer is there. *)
Record ItemEnv := mkItemEnv {
  startedAt : Time;
  idRandom : string;
  requestRandom : string;
  decision : TransactionUIMock.Decision;
  decidedAt : Time
}.

Record Env := mkEnv {
  now : Time;
  item : nat -> ItemEnv
}.

Definition transactionIdOf (i : nat) (e : ItemEnv) : string :=
  "tx_" ++ numberToString (startedAt e) ++ "_" ++ numberToString (N.of_nat i)
        ++ "_" ++ idRandom e.

Section WithPrimitives.
Context {P : Primitives}.

(** The [catch] block of one item, after the validation is there. *)
Definition recordSigningFailure (transactionId : string)
           (wallet : Types.Wallet) (session : MWASession)
           (transaction : Web3.Transaction)
           (validation : TransactionValidationResult)
           (err : JsError) (t : Time) : M State SignResult :=
  (if isValid validation
   then
     tryCatch
       (onTracker (TransactionTracker.updateStatus transactionId
                     TransactionTracker.signing_failed [] t) ;;
        onTracker (TransactionTracker.addError transactionId (message err) t))
       (fun _ =>
          _ <- onTracker (TransactionTracker.createTransaction transactionId
                           (Types.id wallet) (dAppIdentifier session)
                           transaction (metadata validation) t) ;;
          onTracker (TransactionTracker.updateStatus transactionId
                       TransactionTracker.signing_failed [] t) ;;
          onTracker (TransactionTracker.addError transactionId (message err) t))
   else ret tt) ;;
  ret (errorResult ("Failed to sign transaction: " ++ message err)).

(** The body of the loop of [signTransactions] for item [i]: its
    [try] and its [catch].  A throw of this function is a throw of
    the [catch] block. *)
Definition processItem (wallet : Types.Wallet) (session : MWASession)
           (i : nat) (transaction : Web3.Transaction) (e : ItemEnv)
  : M State SignResult :=
  let transactionId := transactionIdOf i e in
  match validateTransaction (Some transaction) with
  | Throw err =>
      (* [validation] is still null in the catch block *)
      validation <- lift (validateTransaction (Some transaction)) ;;
      recordSigningFailure transactionId wallet session transaction
                           validation err (startedAt e)
  | Ok validation =>
      tryCatch
        (if negb (isValid validation)
         then ret (errorResult ("Transaction validation failed: "
                                  ++ join ", " (errors validation)))
         else
           _ <- onTracker (TransactionTracker.createTransaction transactionId
                             (Types.id wallet) (dAppIdentifier session)
                             transaction (metadata validation) (startedAt e)) ;;
           approvalRequest <-
             lift (TransactionUIMock.createApprovalRequest
                     (Types.id wallet) (dAppIdentifier session) transaction
                     (Some false) (startedAt e) (requestRandom e)) ;;
           onTracker (TransactionTracker.updateStatus transactionId
                        TransactionTracker.pending [] (startedAt e)) ;;
           approvalResult <-
             onUI (TransactionUIMock.requestApproval approvalRequest
                     (decision e) (decidedAt e)) ;;
           if negb (TransactionUIMock.approved approvalResult)
           then
             onTracker (TransactionTracker.updateStatus transactionId
                          TransactionTracker.rejected
                          [("reason", TransactionUIMock.reason approvalResult)]
                          (decidedAt e)) ;;
             ret (errorResult
                    ("Transaction rejected: "
                       ++ match TransactionUIMock.reason approvalResult with
                          | Some r => if isEmpty r then "User denied" else r
                          | None => "User denied"
                          end))
           else
             onTracker (TransactionTracker.updateStatus transactionId
                          TransactionTracker.approved [] (decidedAt e)) ;;
             onTracker (TransactionTracker.updateStatus transactionId
                          TransactionTracker.signing [] (decidedAt e)) ;;
             signingResult <-
               onVault (SeedVaultMock.signTransaction (Types.id wallet)
                          transaction true (decidedAt e)) ;;
             onTracker (TransactionTracker.updateStatus transactionId
                          TransactionTracker.signed [] (decidedAt e)) ;;
             onTracker (TransactionTracker.addSignature transactionId
                          (Hex.toHex (Types.sr_signature signingResult))
                          (decidedAt e)) ;;
             ret (mkSignResult
                    (Some (Types.sr_signedTransaction signingResult))
                    (Some (Types.sr_signature signingResult)) None))
        (fun err =>
           recordSigningFailure transactionId wallet session transaction
                                validation err (decidedAt e))
  end.

(** The loop, from item [i] on. *)
Fixpoint processFrom (wallet : Types.Wallet) (session : MWASession)
         (env : Env) (i : nat) (transactions : list Web3.Transaction)
  : M State (list SignResult) :=
  match transactions with
  | [] => ret []
  | transaction :: rest =>
      result <- processItem wallet session i transaction (item env i) ;;
      results <- processFrom wallet session env (S i) rest ;;
      ret (result :: results)
  end.

Definition signTransactions (session : MWASession)
           (transactions : list Web3.Transaction) (env : Env)
  : M State (list SignResult) :=
  fun st =>
    if negb (JsMap.has (sessionId session) (sessions st))
    then (Throw (plainError "Invalid session: session not found"), st)
    else if negb (isConnected (connectionState session))
    then (Throw (plainError "Invalid session: not connected"), st)
    else
      match authorizedPublicKey session with
      | None => (Throw (plainError "Session not authorized"), st)
      | Some authorized =>
          (updateSessionActivity (sessionId session) (now env) ;;
           match transactions with
           | [] => throw (plainError "No transactions provided")
           | _ =>
               tryCatch
                 (wallets <- onVault (SeedVaultMock.listWallets (now env)) ;;
                  match find (fun w => String.eqb (Types.publicKey w) authorized)
                             wallets with
                  | None => throw (plainError "Authorized wallet not found")
                  | Some authorizedWallet =>
                      processFrom authorizedWallet session env 0 transactions
                  end)
                 (fun err =>
                    let errorMessage :=
                      "Failed to sign transactions: " ++ message err in
                    ret (map (fun _ => errorResult errorMessage) transactions))
           end) st
      end.

(** The body of the loop of [signMessages] for one message, with the
    clock at [t]. *)
Definition processMessage (wallet : Types.Wallet) (msg : Bytes) (t : Time)
  : M State SignResult :=
  tryCatch
    (signingResult <-
       onVault (SeedVaultMock.signMessage (Types.id wallet) msg true t) ;;
     ret (mkSignResult None (Some (Types.ms_signature signingResult)) None))
    (fun err =>
       ret (errorResult ("Failed to sign message: " ++ message err))).

(** The loop, from message [i] on; message [i] is signed when item [i]
    is taken up. *)
Fixpoint processMessagesFrom (wallet : Types.Wallet) (env : Env) (i : nat)
         (messages : list Bytes) : M State (list SignResult) :=
  match messages with
  | [] => ret []
  | msg :: rest =>
      result <- processMessage wallet msg (startedAt (item env i)) ;;
      results <- processMessagesFrom wallet env (S i) rest ;;
      ret (result :: results)
  end.

Definition signMessages (session : MWASession) (messages : list Bytes)
           (env : Env) : M State (list SignResult) :=
  fun st =>
    if negb (JsMap.has (sessionId session) (sessions st))
    then (Throw (plainError "Invalid session: session not found"), st)
    else if negb (isConnected (connectionState session))
    then (Throw (plainError "Invalid session: not connected"), st)
    else
      match authorizedPublicKey session with
      | None => (Throw (plainError "Session not authorized"), st)
      | Some authorized =>
          (updateSessionActivity (sessionId session) (now env) ;;
           match messages with
           | [] => throw (plainError "No messages provided")
           | _ =>
               tryCatch
                 (wallets <- onVault (SeedVaultMock.listWallets (now env)) ;;
                  match find (fun w => String.eqb (Types.publicKey w) authorized)
                             wallets with
                  | None => throw (plainError "Authorized wallet not found")
                  | Some authorizedWallet =>
                      processMessagesFrom authorizedWallet env 0 messages
                  end)
                 (fun err =>
                    let errorMessage :=
                      "Failed to sign messages: " ++ message err in
                    ret (map (fun _ => errorResult errorMessage) messages))
           end) st
      end.

End WithPrimitives.

End MWAServiceImpl.

(* ================================================================== *)
(** * What is assumed of the libraries                                 *)
(* ================================================================== *)

(** The facts about Node's crypto and Buffer that the round trip of
    [encrypt] and [decrypt] rests on. *)
Class PrimitiveLaws (P : Primitives) : Prop := {
  (** [randomBytes(n)] returns [n] bytes *)
  randomBytes_length :
    forall n g, List.length (fst (randomBytes n g)) = n;
  (** [pbkdf2Sync] returns a key of the length asked for *)
  pbkdf2Sync_length :
    forall pw salt it len,
      N.of_nat (List.length (pbkdf2Sync pw salt it len)) = len;
  (** AES-256-CBC with a 32-byte key and a 16-byte vector encrypts any
      data, and deciphering with the same key and vector gives the data
      back *)
  aes256cbc_roundtrip :
    forall key iv plain,
      List.length key = 32%nat -> List.length iv = 16%nat ->
      exists u f u' f',
        aes256cbc_cipher key iv plain = Ok (u, f)
        /\ aes256cbc_decipher key iv (u ++ f)%list = Ok (u', f')
        /\ (u' ++ f')%list = plain;
  (** base64 text decodes to the bytes it encodes *)
  base64_roundtrip :
    forall bs, base64Decode (base64Encode bs) = bs
}.

(** The facts about [JSON] and the utf8 codec that reading back stored
    key material rests on: [JSON.parse] gives back what
    [JSON.stringify] was given, and the text [JSON.stringify] makes
    (which holds no unpaired surrogate) survives the utf8 codec. *)
Class KeyMaterialLaws (P : Primitives) : Prop := {
  JSON_roundtrip :
    forall km, JSON_parse (JSON_stringify km) = Ok km;
  JSON_utf8 :
    forall km,
      utf8Decode (utf8Encode (JSON_stringify km)) = JSON_stringify km
}.

(* ================================================================== *)
(** * Notions used to state the properties                             *)
(* ================================================================== *)

Module Spec.

(** A call threw the error [VAULT_LOCKED]. *)
Definition throwsVaultLocked {A} (r : Result A) : Prop :=
  exists msg, r = Throw (createError VAULT_LOCKED msg).

(** The keypair a signing call derives again for a wallet: from the
    mnemonic it decrypts with the master password, along the path of the
    wallet's profile. *)
Definition signingKey {P : Primitives} (v : SeedVaultMock.State)
           (w : Types.Wallet) : Result Keypair :=
  bind (bind (CryptoUtils.decrypt (Types.encryptedPrivateKey w)
                                  (SeedVaultMock.masterPassword v))
             JSON_parse)
       (fun km => CryptoUtils.deriveKeypairFromMnemonic
                    (km_mnemonic km)
                    (Types.derivationPath (Types.profile w))).

(** The error a signing method throws for an error [e] caught in its
    [try] block. *)
Definition rethrown (prefix : string) (e : JsError) : JsError :=
  match code e with
  | Some _ => e
  | None => createError SIGNING_FAILED (prefix ++ message e)
  end.

(** The number of stored wallets with a given public key. *)
Definition walletsWithKey (pk : PublicKey) (s : Storage.State) : nat :=
  List.length (filter (fun w => String.eqb (Types.publicKey w) pk)
                      (JsMap.values (Storage.wallets s))).

(** What the declared type of a transaction guarantees and
    [validateTransaction] relies on: [instructions] is an array, and an
    instruction that has a program id has its array of keys. *)
Definition keysPresent (ins : Web3.TransactionInstruction) : bool :=
  match Web3.programId ins, Web3.keys ins with
  | Some _, None => false
  | _, _ => true
  end.

Definition wellTyped (tx : Web3.Transaction) : bool :=
  match Web3.instructions tx with
  | Some l => forallb keysPresent l
  | None => false
  end.

(** The answer [requestApproval] gives to a request. *)
Definition answerOf (cfg : TransactionUIMock.TransactionUIConfig)
           (request : TransactionUIMock.TransactionApprovalRequest)
           (d : TransactionUIMock.Decision) (t : Time)
  : TransactionUIMock.TransactionApprovalResult :=
  if TransactionUIMock.shouldAutoApprove cfg request
  then TransactionUIMock.mkResult true (Some "Auto-approved") t
  else TransactionUIMock.simulateUserInteraction request d t.

(** The status the tracker holds for an identifier. *)
Definition statusOf (transactionId : string) (st : MWAServiceImpl.State)
  : option TransactionTracker.TransactionStatus :=
  option_map TransactionTracker.status
             (TransactionTracker.getTransaction transactionId
                (MWAServiceImpl.transactionTracker st)).

Section Batch.
Context {P : Primitives}.
Variable wallet : Types.Wallet.
Variable session : MWAServiceImpl.MWASession.
Variable env : MWAServiceImpl.Env.

Import MWAServiceImpl TransactionValidator.

(** The request built for item [i]. *)
Definition requestOf (i : nat) (tx : Web3.Transaction)
           (v : TransactionValidationResult)
  : TransactionUIMock.TransactionApprovalRequest :=
  TransactionUIMock.mkRequest
    (TransactionUIMock.generateRequestId (startedAt (item env i))
                                         (requestRandom (item env i)))
    (Types.id wallet) (dAppIdentifier session) tx (metadata v)
    (startedAt (item env i)) (Some false).

(** What the specification says of one item of a batch: the result
    recorded for it, by case, and the state it leaves. *)
Inductive Item (i : nat) (tx : Web3.Transaction) (st : State)
  : SignResult -> State -> Prop :=
| Item_invalid v :
    validateTransaction (Some tx) = Ok v ->
    isValid v = false ->
    Item i tx st
         (errorResult ("Transaction validation failed: "
                         ++ join ", " (errors v)))
         st
| Item_rejected v st' :
    validateTransaction (Some tx) = Ok v ->
    isValid v = true ->
    TransactionUIMock.approved
      (answerOf (TransactionUIMock.config (transactionUI st))
                (requestOf i tx v) (decision (item env i))
                (decidedAt (item env i))) = false ->
    seedVault st' = seedVault st ->
    statusOf (transactionIdOf i (item env i)) st'
      = Some TransactionTracker.rejected ->
    Item i tx st
         (errorResult
            ("Transaction rejected: "
               ++ match TransactionUIMock.reason
                          (answerOf (TransactionUIMock.config (transactionUI st))
                                    (requestOf i tx v) (decision (item env i))
                                    (decidedAt (item env i))) with
                  | Some r => if isEmpty r then "User denied" else r
                  | None => "User denied"
                  end))
         st'
| Item_signed v sr vault' st' :
    validateTransaction (Some tx) = Ok v ->
    isValid v = true ->
    TransactionUIMock.approved
      (answerOf (TransactionUIMock.config (transactionUI st))
                (requestOf i tx v) (decision (item env i))
                (decidedAt (item env i))) = true ->
    SeedVaultMock.signTransaction (Types.id wallet) tx true
                                  (decidedAt (item env i)) (seedVault st)
      = (Ok sr, vault') ->
    seedVault st' = vault' ->
    statusOf (transactionIdOf i (item env i)) st'
      = Some TransactionTracker.signed ->
    Item i tx st
         (mkSignResult (Some (Types.sr_signedTransaction sr))
                       (Some (Types.sr_signature sr)) None)
         st'
| Item_failed v err vault' st' :
    validateTransaction (Some tx) = Ok v ->
    isValid v = true ->
    TransactionUIMock.approved
      (answerOf (TransactionUIMock.config (transactionUI st))
                (requestOf i tx v) (decision (item env i))
                (decidedAt (item env i))) = true ->
    SeedVaultMock.signTransaction (Types.id wallet) tx true
                                  (decidedAt (item env i)) (seedVault st)
      = (Throw err, vault') ->
    seedVault st' = vault' ->
    statusOf (transactionIdOf i (item env i)) st'
      = Some TransactionTracker.signing_failed ->
    Item i tx st
         (errorResult ("Failed to sign transaction: " ++ message err))
         st'.

(** A batch handled item by item, in order, from index [i]: every
    item gets its result, whatever became of the items before it. *)
Inductive Batch : nat -> list Web3.Transaction -> State
                  -> list SignResult -> State -> Prop :=
| Batch_nil i st : Batch i [] st [] st
| Batch_cons i tx rest st r st1 rs st2 :
    Item i tx st r st1 ->
    Batch (S i) rest st1 rs st2 ->
    Batch i (tx :: rest) st (r :: rs) st2.

End Batch.

End Spec.

(* ================================================================== *)
(** * A small instance of the libraries, and sample data               *)
(* ================================================================== *)

(** Stand-ins that can be computed with: they keep the shape of the real
    functions (equal inputs give equal outputs, decryption under another
    password fails) and nothing of their strength. *)
Module Toy.

(** The text before and after the first [c]. *)
Fixpoint splitAt (c : ascii) (s : string) : option (string * string) :=
  match s with
  | EmptyString => None
  | String a r =>
      if Ascii.eqb a c then Some (EmptyString, r)
      else match splitAt c r with
           | Some (x, y) => Some (String a x, y)
           | None => None
           end
  end.

Fixpoint startsWith (p l : Bytes) : option Bytes :=
  match p, l with
  | [], _ => Some l
  | a :: p', b :: l' => if Byte.eqb a b then startsWith p' l' else None
  | _ :: _, [] => None
  end.

(** A key of exactly [n] bytes made from a text. *)
Definition stretch (n : nat) (s : string) : Bytes :=
  firstn n (list_byte_of_string s ++ repeat x00 n)%list.

#[export] Instance primitives : Primitives := {|
  Rng := nat;
  randomBytes := fun n g => (repeat x00 n, S g);
  bip39_validateMnemonic := fun m => String.eqb (substring 0 7 m) "abandon";
  bip39_generateMnemonic := fun _ g => ("abandon ability", S g);
  bip39_mnemonicToSeedSync := fun m _ => list_byte_of_string m;
  hd_derivePath := fun path seed => Ok (list_byte_of_string (path ++ seed));
  Keypair_fromSeed := fun seed => Ok (mkKeypair (Hex.toHex seed) seed);
  pbkdf2Sync := fun pw _ _ len => stretch (N.to_nat len) pw;
  aes256cbc_cipher := fun key _ plain => Ok ((key ++ plain)%list, []);
  aes256cbc_decipher := fun key _ ct =>
    match startsWith key ct with
    | Some plain => Ok (plain, [])
    | None => Throw (plainError "bad decrypt")
    end;
  utf8Encode := list_byte_of_string;
  utf8Decode := string_of_list_byte;
  base64Encode := string_of_list_byte;
  base64Decode := list_byte_of_string;
  sha256 := fun bs => bs;
  nacl_sign_detached := fun msg sk => (sk ++ msg)%list;
  JSON_stringify := fun km =>
    Hex.toHex (km_secretKey km) ++ ":" ++ km_mnemonic km;
  JSON_parse := fun s =>
    match splitAt ":" s with
    | Some (sk, mn) => Ok (mkKeyMaterial mn (Hex.fromHex sk))
    | None => Throw (plainError "Unexpected token")
    end;
  Transaction_serialize := fun tx =>
    match Web3.feePayer tx with
    | Some _ => Ok []
    | None => Throw (plainError "Transaction fee payer required")
    end
|}.

Definition testProfile : Types.WalletProfile :=
  Types.mkProfile "Test Wallet" None "m/44'/501'/0'/0'/0'" Types.devnet.

Definition testMnemonic : string := "abandon about".

(** [new SeedVaultMock({}, true)], [initialize()] *)
Definition lockedVault : SeedVaultMock.State :=
  snd (SeedVaultMock.initialize None 1
         (SeedVaultMock.constructor (Some SeedVaultMock.emptyConfig) true 0)).

(** [unlock('test-password')] *)
Definition unlockedVault : SeedVaultMock.State :=
  snd (SeedVaultMock.unlock "test-password" 2 lockedVault).

(** [importWallet(testProfile, testMnemonic)] *)
Definition vaultWithWallet : SeedVaultMock.State :=
  snd (SeedVaultMock.importWallet testProfile testMnemonic 3 0%nat unlockedVault).

Definition testWallet : option Types.Wallet :=
  match fst (SeedVaultMock.importWallet testProfile testMnemonic 3 0%nat
                                        unlockedVault) with
  | Ok w => Some w
  | Throw _ => None
  end.

Definition testWalletId : string :=
  match testWallet with Some w => Types.id w | None => EmptyString end.

Definition key1 : PublicKey := "11111111111111111111111111111112".
Definition key2 : PublicKey := "11111111111111111111111111111113".

(** [SystemProgram.transfer({ fromPubkey, toPubkey, lamports })]: the
    instruction index 2 and the amount, little-endian. *)
Definition transferInstruction (from to : PublicKey) (lamports : Bytes)
  : Web3.TransactionInstruction :=
  Web3.mkInstruction
    (Some Web3.SYSTEM_PROGRAM_ID)
    (Some [Web3.mkAccountMeta (Some from) (Some true) (Some true);
           Web3.mkAccountMeta (Some to) (Some false) (Some true)])
    (Some ([x02; x00; x00; x00] ++ lamports)%list).

(** A transfer of 1,000,000 lamports. *)
Definition transferTx : Web3.Transaction :=
  Web3.mkTransaction
    (Some [transferInstruction key1 key2
             [x40; x42; x0f; x00; x00; x00; x00; x00]])
    (Some key1) (Some SeedVaultMock.mockBlockhash) [].

(** A transfer of 2,000,000 lamports to another account. *)
Definition otherTransferTx : Web3.Transaction :=
  Web3.mkTransaction
    (Some [transferInstruction key1 key1
             [x80; x84; x1e; x00; x00; x00; x00; x00]])
    (Some key1) None [].

(** [new Transaction()] *)
Definition emptyTx : Web3.Transaction :=
  Web3.mkTransaction (Some []) None None [].

(** The vault with its wallet, locked again. *)
Definition relockedVault : SeedVaultMock.State :=
  snd (SeedVaultMock.lock vaultWithWallet).

(** An object that is no [TransactionInstruction] by its declared type:
    it has a program id and no [keys]. *)
Definition untypedTx : Web3.Transaction :=
  Web3.mkTransaction
    (Some [Web3.mkInstruction (Some Web3.SYSTEM_PROGRAM_ID) None (Some [])])
    (Some key1) None [].

(** A wallet record whose stored public key is not the one its
    mnemonic derives. *)
Definition corruptedVault : SeedVaultMock.State :=
  match testWallet with
  | Some w =>
      SeedVaultMock.withStorage
        (Storage.saveWallet
           (Types.mkWallet (Types.id w) (Types.profile w) key2
                           (Types.encryptedPrivateKey w)
                           (Types.createdAt w) (Types.lastUsed w)))
        vaultWithWallet
  | None => vaultWithWallet
  end.

Definition message : Bytes := list_byte_of_string "Hello, Solana!".

(** [connect('dapp.test')], then [authorize(session, {})], on a service
    over the vault that holds the wallet. *)
Definition service : MWAServiceImpl.State :=
  let st0 := MWAServiceImpl.constructor vaultWithWallet in
  match MWAServiceImpl.connect "dapp.test" 5 "abc" st0 with
  | (Ok s, st1) =>
      snd (MWAServiceImpl.authorize
             s (MWAServiceImpl.mkAuthorizeRequest None None) 5 st1)
  | (Throw _, st1) => st1
  end.

(** The session the service keeps after that. *)
Definition session : MWAServiceImpl.MWASession :=
  match MWAServiceImpl.getSession "mwa_5_abc" service with
  | Some s => s
  | None =>
      MWAServiceImpl.mkSession EmptyString EmptyString None
                               MWAServiceImpl.disconnected [] None 0
  end.

(** A tracker whose entry [tx-123] has been marked signed. *)
Definition tracker : TransactionTracker.State :=
  snd (TransactionTracker.updateStatus "tx-123" TransactionTracker.signed [] 2
         (snd (TransactionTracker.createTransaction
                 "tx-123" "wallet-456" "test-dapp" transferTx
                 TransactionValidator.createEmptyMetadata 1
                 TransactionTracker.constructor))).

Definition env : MWAServiceImpl.Env :=
  MWAServiceImpl.mkEnv 6
    (fun i => MWAServiceImpl.mkItemEnv
                (7 + N.of_nat i) "k3j9x2m1q" "p0o9i8u7y"
                TransactionUIMock.ManuallyApproved (8 + N.of_nat i)).

(** *** A codec that loses a character

    Node's utf8 codec is not one to one: a surrogate without its
    partner is written as the three bytes EF BF BD of U+FFFD, and these
    are read back as U+FFFD.  The characters of a [string] are the code
    units below 256, none of which is a surrogate, so two of them take
    the parts: D8 that of the lone surrogate U+D800, FD that of U+FFFD.
    Every other character is written as one byte, as in [primitives]. *)





End Toy.

(* ================================================================== *)
(** * Properties                                                       *)
(* ================================================================== *)

(** ** Derivation paths *)

Module PathFacts.
Import CryptoUtils.

Lemma append_empty_r (s : string) : s ++ EmptyString = s.
Proof. induction s as [|c s IH]; simpl; [reflexivity | now rewrite IH]. Qed.

Lemma stripPrefix_app (p s : string) : stripPrefix p (p ++ s) = Some s.
Proof.
  induction p as [|c p IH]; simpl; [reflexivity|].
  now rewrite Ascii.eqb_refl.
Qed.

Lemma spanDigits_uint (d : Decimal.uint) (s : string) :
  spanDigits (NilEmpty.string_of_uint d ++ s)
  = (NilEmpty.string_of_uint d ++ fst (spanDigits s), snd (spanDigits s)).
Proof.
  induction d; cbn [NilEmpty.string_of_uint append];
    [ now destruct (spanDigits s)
    | cbn [spanDigits]; change (isDigit _) with true; cbv iota;
      rewrite IHd; reflexivity .. ].
Qed.

Lemma spanDigits_decimal (n : N) (c : ascii) (r : string) :
  isDigit c = false ->
  spanDigits (decimal n ++ String c r) = (decimal n, String c r).
Proof.
  intros Hc. unfold decimal. rewrite spanDigits_uint.
  cbn [spanDigits]. rewrite Hc. cbn [fst snd].
  now rewrite append_empty_r.
Qed.

Lemma spanDigits_decimal_end (n : N) :
  spanDigits (decimal n) = (decimal n, EmptyString).
Proof.
  rewrite <- (append_empty_r (decimal n)) at 1.
  unfold decimal. rewrite spanDigits_uint. cbn.
  now rewrite append_empty_r.
Qed.

Lemma decimal_nonempty (n : N) : isEmpty (decimal n) = false.
Proof.
  unfold decimal.
  assert (H : N.to_uint n <> Decimal.Nil).
  { destruct n; cbn; [discriminate | apply DecimalPos.Unsigned.to_uint_nonnil]. }
  destruct (N.to_uint n); try reflexivity. now elim H.
Qed.

Lemma parseInt10_decimal (n : N) : parseInt10 (decimal n) = n.
Proof.
  unfold parseInt10. rewrite spanDigits_decimal_end. cbn [fst].
  unfold decimal. rewrite NilEmpty.usu.
  apply DecimalN.Unsigned.of_to.
Qed.

(** A group followed by a literal that starts with no digit. *)
Lemma matchTokens_group (n : N) (c : ascii) (l : string)
      (pat : list Token) (s : string) :
  isDigit c = false ->
  matchTokens (Digits :: Lit (String c l) :: pat)
              (decimal n ++ String c l ++ s)
  = match matchTokens pat s with
    | Some gs => Some (decimal n :: gs)
    | None => None
    end.
Proof.
  intros Hc. cbn [matchTokens].
  change (String c l ++ s) with (String c (l ++ s)).
  rewrite (spanDigits_decimal n c (l ++ s) Hc).
  rewrite decimal_nonempty.
  change (String c (l ++ s)) with (String c l ++ s).
  now rewrite stripPrefix_app.
Qed.

Lemma matchTokens_lit (l : string) (pat : list Token) (s : string) :
  matchTokens (Lit l :: pat) (l ++ s) = matchTokens pat s.
Proof. cbn [matchTokens]. now rewrite stripPrefix_app. Qed.

Lemma numberToString_small (n : N) :
  n < 10 ^ 21 -> numberToString n = decimal n.
Proof.
  intros H. unfold numberToString.
  now rewrite (proj2 (N.ltb_lt _ _) H).
Qed.

Lemma matchTokens_format (p c a g i : N) :
  matchTokens hardenedRegex
    ("m/" ++ decimal p ++ "'/" ++ decimal c ++ "'/" ++ decimal a ++ "'/"
          ++ decimal g ++ "'/" ++ decimal i ++ "'")
  = Some [decimal p; decimal c; decimal a; decimal g; decimal i].
Proof.
  unfold hardenedRegex.
  rewrite matchTokens_lit.
  change (decimal i ++ "'") with (decimal i ++ "'" ++ EmptyString).
  rewrite !matchTokens_group by reflexivity.
  reflexivity.
Qed.

(** C8, as amended.  For every components value whose five fields are
    non-negative integers below 10^21, the ones JavaScript prints as
    plain decimal digits, [parseDerivationPath (formatDerivationPath c)]
    returns [c]. *)
Theorem parse_format_roundtrip (c : DerivationPathComponents) :
  purpose c < 10 ^ 21 -> coinType c < 10 ^ 21 -> account c < 10 ^ 21 ->
  change c < 10 ^ 21 -> addressIndex c < 10 ^ 21 ->
  parseDerivationPath (formatDerivationPath c) = Ok c.
Proof.
  destruct c as [p c a g i]; cbn [purpose coinType account change addressIndex].
  intros Hp Hc Ha Hg Hi.
  unfold parseDerivationPath, formatDerivationPath.
  cbn [purpose coinType account change addressIndex].
  rewrite !numberToString_small by assumption.
  rewrite matchTokens_format.
  unfold componentsOfMatch. cbn [nth].
  now rewrite !parseInt10_decimal.
Qed.

Lemma parse_format_roundtrip_witness :
  parseDerivationPath
    (formatDerivationPath (mkComponents 44 501 1 0 5))
  = Ok (mkComponents 44 501 1 0 5).
Proof.
  apply (parse_format_roundtrip (mkComponents 44 501 1 0 5));
    reflexivity.
Defined.

(** C8, as stated, fails: a field of 10^21 is printed [1e+21], which no
    pattern of [parseDerivationPath] accepts. *)
Lemma parse_format_exponent :
  formatDerivationPath (mkComponents (10 ^ 21) 501 0 0 0)
  = "m/1e+21'/501'/0'/0'/0'"
  /\ parseDerivationPath
       (formatDerivationPath (mkComponents (10 ^ 21) 501 0 0 0))
     = Throw (createError INVALID_DERIVATION_PATH
                "Invalid derivation path format: m/1e+21'/501'/0'/0'/0'")
  /\ parseDerivationPath
       (formatDerivationPath (mkComponents (10 ^ 21) 501 0 0 0))
     <> Ok (mkComponents (10 ^ 21) 501 0 0 0).
Proof.
  split; [vm_compute; reflexivity|].
  split; [vm_compute; reflexivity|].
  vm_compute. discriminate.
Qed.

End PathFacts.

(** ** Maps *)

Module JsMapFacts.

Lemma get_set_same {V} (k : string) (v : V) (m : JsMap.t V) :
  JsMap.get k (JsMap.set k v m) = Some v.
Proof.
  induction m as [|[k' v'] m IH]; cbn.
  - now rewrite String.eqb_refl.
  - destruct (String.eqb k k') eqn:E; cbn; rewrite ?String.eqb_refl, ?E; auto.
Qed.

Lemma get_set_other {V} (k k' : string) (v : V) (m : JsMap.t V) :
  k' <> k -> JsMap.get k' (JsMap.set k v m) = JsMap.get k' m.
Proof.
  intros Hne.
  assert (Hkk : String.eqb k' k = false) by now apply String.eqb_neq.
  induction m as [|[k0 v0] m IH]; cbn.
  - now rewrite Hkk.
  - destruct (String.eqb k k0) eqn:E; cbn.
    + apply String.eqb_eq in E; subst k0. now rewrite Hkk.
    + now rewrite IH.
Qed.

Lemma has_set_same {V} (k : string) (v : V) (m : JsMap.t V) :
  JsMap.has k (JsMap.set k v m) = true.
Proof. unfold JsMap.has. now rewrite get_set_same. Qed.

End JsMapFacts.

(** ** The tracker *)

Module TrackerFacts.
Import TransactionTracker.

Lemma status_applyStatus s extra now e :
  status (applyStatus s extra now e) = s.
Proof. reflexivity. Qed.

Lemma updateStatus_known id s extra now t e :
  getTransaction id t = Some e ->
  updateStatus id s extra now t
  = (Ok tt, withTransactions (JsMap.set id (applyStatus s extra now e)) t).
Proof.
  unfold getTransaction, updateStatus. now intros ->.
Qed.

Lemma updateStatus_unknown id s extra now t :
  getTransaction id t = None ->
  updateStatus id s extra now t = (Throw (notFound id), t).
Proof.
  unfold getTransaction, updateStatus. now intros ->.
Qed.

(** C6, as amended.  [updateStatus] on an entry of the tracker sets the
    status that is asked for, whatever the status was: no lifecycle
    check is made.  The entry gets one more event, which records the
    former and the new status; the other entries are left as they
    were. *)
Theorem updateStatus_sets_any_status id s extra now t e :
  getTransaction id t = Some e ->
  exists t',
    updateStatus id s extra now t = (Ok tt, t')
    /\ getTransaction id t' = Some (applyStatus s extra now e)
    /\ status (applyStatus s extra now e) = s
    /\ events (applyStatus s extra now e)
       = (events e ++
            [mkEvent status_change now (StatusChanged (status e) s extra)
                     (Some ("Status changed from " ++ statusName (status e)
                              ++ " to " ++ statusName s)%string)])%list
    /\ forall id', id' <> id -> getTransaction id' t' = getTransaction id' t.
Proof.
  intros He. eexists. split; [apply updateStatus_known; exact He|].
  unfold getTransaction, withTransactions; cbn [transactions].
  split; [apply JsMapFacts.get_set_same|].
  split; [reflexivity|]. split; [reflexivity|].
  intros id' Hne. now apply JsMapFacts.get_set_other.
Qed.

Lemma updateStatus_sets_any_status_witness :
  exists t',
    updateStatus "tx-123" pending [] 5 Toy.tracker = (Ok tt, t')
    /\ option_map status (getTransaction "tx-123" t') = Some pending.
Proof.
  destruct (@updateStatus_sets_any_status
              "tx-123" pending [] 5 Toy.tracker
              (applyStatus signed [] 2
                 (mkEntry "tx-123" "wallet-456" "test-dapp" Toy.transferTx
                    TransactionValidator.createEmptyMetadata pending
                    None None 1 1 None None None None
                    [mkEvent status_change 1 (Created pending)
                             (Some "Transaction created"%string)]))
              eq_refl)
    as (t' & Hrun & Hget & _).
  exists t'. split; [exact Hrun|]. rewrite Hget. reflexivity.
Defined.

(** C6, as stated, fails: an entry that is [signed] is moved back to
    [pending], which is no legal successor of [signed]. *)
Lemma updateStatus_moves_backwards :
  option_map status (getTransaction "tx-123" Toy.tracker) = Some signed
  /\ fst (updateStatus "tx-123" pending [] 5 Toy.tracker) = Ok tt
  /\ option_map status
       (getTransaction "tx-123"
          (snd (updateStatus "tx-123" pending [] 5 Toy.tracker)))
     = Some pending
  /\ legalSuccessor signed pending = false.
Proof. repeat split. Qed.

End TrackerFacts.

(** ** The Seed Vault *)

Module VaultFacts.
Import Types SeedVaultMock.
Local Open Scope eff_scope.

Definition lockedError : JsError :=
  createError VAULT_LOCKED "Seed Vault is locked".

Lemma ensureUnlocked_locked v :
  isInitialized v = true -> isLocked v = true ->
  ensureUnlocked v = (Throw lockedError, v).
Proof.
  intros Hi Hl. unfold ensureUnlocked, ensureInitialized, bindM.
  rewrite Hi. cbn. now rewrite Hl.
Qed.

Lemma ensureUnlocked_unlocked v :
  isInitialized v = true -> isLocked v = false ->
  ensureUnlocked v = (Ok tt, v).
Proof.
  intros Hi Hl. unfold ensureUnlocked, ensureInitialized, bindM.
  rewrite Hi. cbn. now rewrite Hl.
Qed.

(** A method that starts with [ensureUnlocked] stops there on a locked
    vault. *)
Lemma locked_prefix {A} (k : unit -> M State A) v :
  isInitialized v = true -> isLocked v = true ->
  bindM ensureUnlocked k v = (Throw lockedError, v).
Proof.
  intros Hi Hl. unfold bindM at 1.
  now rewrite ensureUnlocked_locked.
Qed.

(** The vault once [updateActivity] has run. *)
Lemma updateActivity_ok now v :
  fst (updateActivity now v) = Ok tt.
Proof.
  unfold updateActivity, setupAutoLock, clearLockTimeout, modify, bindM.
  cbn. destruct (autoLockOn _ && negb _); cbn; [|reflexivity].
  destruct (autoLockOn _); [|reflexivity].
  now destruct (lockTimeoutSet _).
Qed.

Lemma updateActivity_frame now v :
  storage (snd (updateActivity now v)) = storage v
  /\ isInitialized (snd (updateActivity now v)) = isInitialized v
  /\ isLocked (snd (updateActivity now v)) = isLocked v
  /\ masterPassword (snd (updateActivity now v)) = masterPassword v
  /\ config (snd (updateActivity now v)) = config v.
Proof.
  unfold updateActivity, setupAutoLock, clearLockTimeout, modify, bindM.
  cbn. destruct (autoLockOn _ && negb _); cbn; [|now repeat split].
  destruct (autoLockOn _); [|now repeat split].
  destruct (lockTimeoutSet _); now repeat split.
Qed.

(** A method that starts with [ensureUnlocked] and [updateActivity]
    goes on, on an unlocked vault, from the vault with its activity
    updated. *)
Lemma unlocked_prefix {A} (k : M State A) now v :
  isInitialized v = true -> isLocked v = false ->
  (ensureUnlocked ;; updateActivity now ;; k) v
  = k (snd (updateActivity now v)).
Proof.
  intros Hi Hl. unfold bindM at 1.
  rewrite ensureUnlocked_unlocked by assumption.
  unfold bindM at 1.
  pose proof (updateActivity_ok now v) as Hok.
  destruct (updateActivity now v) as [r v']. cbn in Hok. now subst r.
Qed.

Lemma requireWallet_found walletId w v :
  Storage.loadWallet walletId (storage v) = Some w ->
  requireWallet walletId v = (Ok w, v).
Proof. unfold requireWallet. now intros ->. Qed.

Lemma requireWallet_missing walletId v :
  Storage.loadWallet walletId (storage v) = None ->
  requireWallet walletId v = (Throw (notFound walletId), v).
Proof. unfold requireWallet. now intros ->. Qed.

Section WithPrimitives.
Context {P : Primitives}.

(** C1, as amended.  On an initialized vault that is locked,
    generateWallet, importWallet, exportWallet, listWallets,
    getWallet, deleteWallet, deriveKeypair,
    deriveKeypairFromComponents, getPublicKey, signTransaction and
    signMessage each throw VAULT_LOCKED and leave the vault as it
    was; lock returns without any effect, and reset returns, having
    cleared the storage, with the vault still locked. *)
Theorem locked_vault_operations v :
  isInitialized v = true -> isLocked v = true ->
  (forall prof now g,
      generateWallet prof now g v = (Throw lockedError, v))
  /\ (forall prof mn now g,
         importWallet prof mn now g v = (Throw lockedError, v))
  /\ (forall wid now, exportWallet wid now v = (Throw lockedError, v))
  /\ (forall now, listWallets now v = (Throw lockedError, v))
  /\ (forall wid now, getWallet wid now v = (Throw lockedError, v))
  /\ (forall wid now, deleteWallet wid now v = (Throw lockedError, v))
  /\ (forall wid path now,
         deriveKeypair wid path now v = (Throw lockedError, v))
  /\ (forall wid c now,
         deriveKeypairFromComponents wid c now v = (Throw lockedError, v))
  /\ (forall wid now, getPublicKey wid now v = (Throw lockedError, v))
  /\ (forall wid tx auto now,
         signTransaction wid tx auto now v = (Throw lockedError, v))
  /\ (forall wid msg auto now,
         signMessage wid msg auto now v = (Throw lockedError, v))
  /\ lock v = (Ok tt, v)
  /\ reset v
     = (Ok tt,
        setLockTimeout None
          (setMasterPassword None
             (setLocked true (withStorage Storage.clear v)))).
Proof.
  intros Hi Hl.
  repeat match goal with
         | |- _ /\ _ => split
         | |- forall _, _ => intro
         end;
    try (now apply locked_prefix).
  - unfold lock, bindM, ensureInitialized. rewrite Hi. cbn. now rewrite Hl.
  - unfold reset, bindM, ensureInitialized, modify, clearLockTimeout.
    rewrite Hi. reflexivity.
Qed.

End WithPrimitives.

Lemma locked_vault_operations_witness :
  isInitialized Toy.lockedVault = true
  /\ isLocked Toy.lockedVault = true
  /\ listWallets 9 Toy.lockedVault = (Throw lockedError, Toy.lockedVault)
  /\ signMessage (P := Toy.primitives) "w" Toy.message true 9 Toy.lockedVault
     = (Throw lockedError, Toy.lockedVault)
  /\ lock Toy.lockedVault = (Ok tt, Toy.lockedVault).
Proof.
  pose proof (locked_vault_operations (P := Toy.primitives)
                Toy.lockedVault eq_refl eq_refl) as H.
  repeat split; apply H.
Defined.

(** C1, as stated, fails: on an initialized, locked vault, [lock] and
    [reset] return without throwing. *)
Lemma lock_and_reset_do_not_throw :
  isInitialized Toy.lockedVault = true
  /\ isLocked Toy.lockedVault = true
  /\ fst (lock Toy.lockedVault) = Ok tt
  /\ fst (reset Toy.lockedVault) = Ok tt
  /\ ~ Spec.throwsVaultLocked (fst (lock Toy.lockedVault))
  /\ ~ Spec.throwsVaultLocked (fst (reset Toy.lockedVault)).
Proof.
  repeat split; intros [msg H]; discriminate H.
Qed.

End VaultFacts.

(** ** Signing *)

Module SigningFacts.
Import Types SeedVaultMock VaultFacts.
Local Open Scope eff_scope.

Section WithPrimitives.
Context {P : Primitives}.

(** [signTransaction] with [autoApprove = true], on an unlocked vault
    that holds the wallet. *)
Lemma signTransaction_auto wid tx now v w :
  isInitialized v = true -> isLocked v = false ->
  Storage.loadWallet wid (storage v) = Some w ->
  signTransaction wid tx true now v
  = match Spec.signingKey v w with
    | Throw e =>
        (Throw (Spec.rethrown "Failed to sign transaction: " e),
         snd (updateActivity now v))
    | Ok kp =>
        if negb (String.eqb (kp_publicKey kp) (publicKey w))
        then (Throw (createError SIGNING_FAILED
                       "Derived keypair does not match wallet public key"),
              snd (updateActivity now v))
        else
          match Web3.instructions tx with
          | None | Some [] =>
              (Throw (createError INVALID_TRANSACTION
                        "Transaction has no instructions"),
               snd (updateActivity now v))
          | Some instrs =>
              let signature :=
                nacl_sign_detached mockMessage (kp_secretKey kp) in
              (Ok (mkSigningResult signature
                     (Web3.mkTransaction
                        (Some instrs) (Some (kp_publicKey kp))
                        (Some mockBlockhash)
                        [Web3.mkSignature (kp_publicKey kp) (Some signature)])
                     now),
               withStorage (Storage.saveWallet (setLastUsed now w))
                           (snd (updateActivity now v)))
          end
      end.
Proof.
  intros Hi Hl Hw. unfold signTransaction.
  rewrite unlocked_prefix by assumption.
  destruct (updateActivity_frame now v) as (Hs & _ & _ & Hp & _).
  unfold bindM at 1. rewrite (@requireWallet_found wid w) by now rewrite Hs.
  unfold Spec.signingKey, Spec.rethrown, tryCatch, bindM, lift, ret, throw,
    decryptKeyMaterial, rethrow, modify.
  cbn [negb]. rewrite Hp.
  destruct (CryptoUtils.decrypt _ _) as [plain|e]; cbn [bind];
    [|now destruct (code e)].
  destruct (JSON_parse plain) as [km|e]; cbn [bind];
    [|now destruct (code e)].
  destruct (CryptoUtils.deriveKeypairFromMnemonic _ _) as [kp|e];
    [|now destruct (code e)].
  destruct (String.eqb _ _); cbn [negb]; [|reflexivity].
  destruct (Web3.instructions tx) as [[|i l]|]; reflexivity.
Qed.

(** [signMessage] with [autoApprove = true], on an unlocked vault that
    holds the wallet. *)
Lemma signMessage_auto wid msg now v w :
  isInitialized v = true -> isLocked v = false ->
  Storage.loadWallet wid (storage v) = Some w ->
  signMessage wid msg true now v
  = match Spec.signingKey v w with
    | Throw e =>
        (Throw (Spec.rethrown "Failed to sign message: " e),
         snd (updateActivity now v))
    | Ok kp =>
        (Ok (mkMessageSigningResult
               (nacl_sign_detached msg (kp_secretKey kp)) msg
               (kp_publicKey kp) now),
         withStorage (Storage.saveWallet (setLastUsed now w))
                     (snd (updateActivity now v)))
    end.
Proof.
  intros Hi Hl Hw. unfold signMessage.
  rewrite unlocked_prefix by assumption.
  destruct (updateActivity_frame now v) as (Hs & _ & _ & Hp & _).
  unfold bindM at 1. rewrite (@requireWallet_found wid w) by now rewrite Hs.
  unfold Spec.signingKey, Spec.rethrown, tryCatch, bindM, lift, ret, throw,
    decryptKeyMaterial, rethrow, modify.
  cbn [negb]. rewrite Hp.
  destruct (CryptoUtils.decrypt _ _) as [plain|e]; cbn [bind];
    [|now destruct (code e)].
  destruct (JSON_parse plain) as [km|e]; cbn [bind];
    [|now destruct (code e)].
  destruct (CryptoUtils.deriveKeypairFromMnemonic _ _) as [kp|e];
    [reflexivity|now destruct (code e)].
Qed.

Lemma signTransaction_uninitialized wid tx auto now v :
  isInitialized v = false ->
  signTransaction wid tx auto now v
  = (Throw (createError VAULT_LOCKED "Seed Vault is not initialized"), v).
Proof.
  intros Hi.
  unfold signTransaction, ensureUnlocked, ensureInitialized, bindM.
  now rewrite Hi.
Qed.

Lemma signTransaction_missing wid tx auto now v :
  isInitialized v = true -> isLocked v = false ->
  Storage.loadWallet wid (storage v) = None ->
  signTransaction wid tx auto now v
  = (Throw (notFound wid), snd (updateActivity now v)).
Proof.
  intros Hi Hl Hw.
  unfold signTransaction. rewrite unlocked_prefix by assumption.
  destruct (updateActivity_frame now v) as (Hs & _).
  unfold bindM at 1.
  rewrite requireWallet_missing by now rewrite Hs.
  reflexivity.
Qed.

(** C9.  Two runs of [signTransaction] with [autoApprove = true], on the
    same vault and wallet, with any two transactions that have at least
    one instruction: both fail with the same error, or both return the
    same signature, which is the signature of the constant mock message
    under the wallet's key, and a signed transaction whose
    [recentBlockhash] is the constant of the source. *)
Theorem signature_ignores_transaction wid tx1 tx2 t1 t2 v :
  (exists i l, Web3.instructions tx1 = Some (i :: l)) ->
  (exists i l, Web3.instructions tx2 = Some (i :: l)) ->
  match fst (signTransaction wid tx1 true t1 v),
        fst (signTransaction wid tx2 true t2 v) with
  | Ok r1, Ok r2 =>
      sr_signature r1 = sr_signature r2
      /\ (exists kp,
             sr_signature r1
             = nacl_sign_detached
                 (utf8Encode "mock transaction message for simulation")
                 (kp_secretKey kp))
      /\ Web3.recentBlockhash (sr_signedTransaction r1)
         = Some "EkSnNWid2cvwEVnVx9aBqawnmiCNiDgp3gUdkDPTKN1N"
      /\ Web3.recentBlockhash (sr_signedTransaction r2)
         = Some "EkSnNWid2cvwEVnVx9aBqawnmiCNiDgp3gUdkDPTKN1N"
  | Throw e1, Throw e2 => e1 = e2
  | _, _ => False
  end.
Proof.
  intros (i1 & l1 & H1) (i2 & l2 & H2).
  destruct (isInitialized v) eqn:Hi;
    [|now rewrite !signTransaction_uninitialized].
  destruct (isLocked v) eqn:Hl.
  { unfold signTransaction. now rewrite !locked_prefix. }
  destruct (Storage.loadWallet wid (storage v)) as [w|] eqn:Hw;
    [|now rewrite !signTransaction_missing].
  rewrite !(@signTransaction_auto wid _ _ v w) by assumption.
  destruct (Spec.signingKey v w) as [kp|e]; [|reflexivity].
  destruct (negb _); [reflexivity|].
  rewrite H1, H2. cbn.
  repeat split. now exists kp.
Qed.

(** [signMessage], approved at once or after the simulated confirmation,
    on an unlocked vault that holds the wallet. *)
Lemma signMessage_any wid msg auto now v w :
  isInitialized v = true -> isLocked v = false ->
  Storage.loadWallet wid (storage v) = Some w ->
  signMessage wid msg auto now v = signMessage wid msg true now v.
Proof.
  intros Hi Hl Hw. unfold signMessage.
  rewrite !unlocked_prefix by assumption.
  now destruct auto.
Qed.

(** C5: what the code does where the claim fails.  When the keypair
    derived again differs from the stored public key, [signTransaction]
    fails and returns no signature, but [signMessage] makes no such
    check: it returns a signature made with the derived key. *)
Theorem signMessage_skips_key_check wid msg tx auto now v w kp :
  isInitialized v = true -> isLocked v = false ->
  Storage.loadWallet wid (storage v) = Some w ->
  Spec.signingKey v w = Ok kp ->
  kp_publicKey kp <> publicKey w ->
  fst (signMessage wid msg auto now v)
  = Ok (mkMessageSigningResult (nacl_sign_detached msg (kp_secretKey kp))
                               msg (kp_publicKey kp) now)
  /\ fst (signTransaction wid tx true now v)
     = Throw (createError SIGNING_FAILED
                "Derived keypair does not match wallet public key")
  /\ exists e, fst (signTransaction wid tx auto now v) = Throw e.
Proof.
  intros Hi Hl Hw Hk Hne.
  assert (Hneq : String.eqb (kp_publicKey kp) (publicKey w) = false)
    by now apply String.eqb_neq.
  assert (Hauto : fst (signTransaction wid tx true now v)
                  = Throw (createError SIGNING_FAILED
                             "Derived keypair does not match wallet public key")).
  { rewrite (@signTransaction_auto wid tx now v w) by assumption.
    now rewrite Hk, Hneq. }
  split.
  { rewrite (@signMessage_any wid msg auto now v w) by assumption.
    rewrite (@signMessage_auto wid msg now v w) by assumption.
    now rewrite Hk. }
  split; [exact Hauto|].
  destruct auto; [eexists; exact Hauto|].
  unfold signTransaction. rewrite unlocked_prefix by assumption.
  destruct (updateActivity_frame now v) as (Hs & _ & _ & Hp & _).
  unfold bindM at 1. rewrite (@requireWallet_found wid w) by now rewrite Hs.
  unfold Spec.signingKey in Hk.
  unfold tryCatch, bindM, lift, ret, throw, decryptKeyMaterial, rethrow,
    modify, simulateUserConfirmation.
  cbn [negb].
  destruct (Transaction_serialize tx) as [bytes|e].
  - unfold ret. cbn [negb]. rewrite Hp.
    destruct (CryptoUtils.decrypt _ _) as [plain|e]; [|discriminate Hk].
    cbn [bind] in *.
    destruct (JSON_parse plain) as [km|e]; [|discriminate Hk].
    cbn [bind] in *. rewrite Hk, Hneq. cbn. eexists; reflexivity.
  - destruct (code e); eexists; reflexivity.
Qed.

End WithPrimitives.

Lemma signature_ignores_transaction_witness :
  (exists i l, Web3.instructions Toy.transferTx = Some (i :: l))
  /\ (exists i l, Web3.instructions Toy.otherTransferTx = Some (i :: l))
  /\ match fst (signTransaction (P := Toy.primitives) Toy.testWalletId
                               Toy.transferTx true 9 Toy.vaultWithWallet),
            fst (signTransaction (P := Toy.primitives) Toy.testWalletId
                               Toy.otherTransferTx true 10 Toy.vaultWithWallet) with
     | Ok r1, Ok r2 => sr_signature r1 = sr_signature r2
     | _, _ => False
     end.
Proof.
  assert (H1 : exists i l, Web3.instructions Toy.transferTx = Some (i :: l))
    by (do 2 eexists; reflexivity).
  assert (H2 : exists i l, Web3.instructions Toy.otherTransferTx = Some (i :: l))
    by (do 2 eexists; reflexivity).
  split; [exact H1|]. split; [exact H2|].
  pose proof (@signature_ignores_transaction Toy.primitives Toy.testWalletId
                Toy.transferTx Toy.otherTransferTx 9 10 Toy.vaultWithWallet
                H1 H2) as H.
  destruct (fst (signTransaction Toy.testWalletId Toy.transferTx true 9
                                 Toy.vaultWithWallet)) as [r1|e1] eqn:E1;
    [|vm_compute in E1; discriminate E1].
  destruct (fst (signTransaction Toy.testWalletId Toy.otherTransferTx true 10
                                 Toy.vaultWithWallet)) as [r2|e2];
    [apply H | exact H].
Defined.

Lemma signMessage_skips_key_check_witness :
  fst (signMessage (P := Toy.primitives) Toy.testWalletId Toy.message true 9
                   Toy.corruptedVault)
  = Ok (mkMessageSigningResult
          (@nacl_sign_detached Toy.primitives
             Toy.message
             (list_byte_of_string
                "m/44'/501'/0'/0'/0'6162616e646f6e2061626f7574"))
          Toy.message
          (Hex.toHex (list_byte_of_string
                        "m/44'/501'/0'/0'/0'6162616e646f6e2061626f7574"))
          9)
  /\ fst (signTransaction (P := Toy.primitives) Toy.testWalletId
                          Toy.transferTx true 9 Toy.corruptedVault)
     = Throw (createError SIGNING_FAILED
                "Derived keypair does not match wallet public key").
Proof.
  destruct (@signMessage_skips_key_check
              Toy.primitives Toy.testWalletId Toy.message Toy.transferTx true 9
              Toy.corruptedVault
              (mkWallet "3664326633343334"
                 (mkProfile "Test Wallet" (Some "abandon about")
                            "m/44'/501'/0'/0'/0'" devnet)
                 Toy.key2
                 (encryptedPrivateKey
                    (match Toy.testWallet with
                     | Some w => w
                     | None => mkWallet EmptyString Toy.testProfile EmptyString
                                        EmptyString 0 0
                     end))
                 3 3)
              (mkKeypair
                 (Hex.toHex (list_byte_of_string
                               "m/44'/501'/0'/0'/0'6162616e646f6e2061626f7574"))
                 (list_byte_of_string
                    "m/44'/501'/0'/0'/0'6162616e646f6e2061626f7574"))
              eq_refl eq_refl)
    as (Hm & Ht & _).
  - vm_compute. reflexivity.
  - vm_compute. reflexivity.
  - vm_compute. discriminate.
  - split; [exact Hm | exact Ht].
Defined.

End SigningFacts.

(** ** Unlocking *)

Module UnlockFacts.
Import Types SeedVaultMock VaultFacts.
Local Open Scope eff_scope.

Lemma setupAutoLock_ok now v : fst (setupAutoLock now v) = Ok tt.
Proof.
  unfold setupAutoLock, clearLockTimeout, modify, bindM. cbn.
  destruct (autoLockOn _); [|reflexivity].
  now destruct (lockTimeoutSet _).
Qed.

Lemma setupAutoLock_frame now v :
  storage (snd (setupAutoLock now v)) = storage v
  /\ isInitialized (snd (setupAutoLock now v)) = isInitialized v
  /\ isLocked (snd (setupAutoLock now v)) = isLocked v
  /\ masterPassword (snd (setupAutoLock now v)) = masterPassword v.
Proof.
  unfold setupAutoLock, clearLockTimeout, modify, bindM. cbn.
  destruct (autoLockOn _); [|now repeat split].
  destruct (lockTimeoutSet _); now repeat split.
Qed.

(** The vault [unlock] leaves when it accepts the password. *)
Definition unlocked (pw : string) (now : Time) (v : State) : State :=
  let v1 := setMasterPassword (Some pw) (setLocked false v) in
  let v2 := if Storage.instanceofFileSystemStorage (storage v1)
            then withStorage Storage.removeLock v1 else v1 in
  snd (setupAutoLock now (snd (updateActivity now v2))).

Lemma unlock_accepts pw now v :
  isInitialized v = true -> isLocked v = true ->
  (isEmpty pw || Nat.ltb (String.length pw) 4) = false ->
  unlock pw now v = (Ok tt, unlocked pw now v).
Proof.
  intros Hi Hl Hpw. unfold unlock, bindM at 1, ensureInitialized.
  rewrite Hi. cbn [negb]. rewrite Hl. cbn [negb]. rewrite Hpw.
  unfold unlocked, bindM, modify.
  set (v1 := setMasterPassword (Some pw) (setLocked false v)).
  set (v2 := if Storage.instanceofFileSystemStorage (storage v1)
             then withStorage Storage.removeLock v1 else v1).
  assert (E : (if Storage.instanceofFileSystemStorage (storage v1)
               then (Ok tt, withStorage Storage.removeLock v1)
               else (Ok tt, v1)) = (Ok tt, v2))
    by (unfold v2; now destruct (Storage.instanceofFileSystemStorage _)).
  rewrite E.
  pose proof (updateActivity_ok now v2) as H1.
  destruct (updateActivity now v2) as [r1 v3]. cbn in H1. subst r1.
  cbn [snd].
  pose proof (setupAutoLock_ok now v3) as H2.
  destruct (setupAutoLock now v3) as [r2 v4]. cbn in H2. now subst r2.
Qed.

Lemma unlocked_frame pw now v :
  isInitialized (unlocked pw now v) = isInitialized v
  /\ isLocked (unlocked pw now v) = false
  /\ masterPassword (unlocked pw now v) = Some pw
  /\ Storage.wallets (storage (unlocked pw now v))
     = Storage.wallets (storage v).
Proof.
  unfold unlocked.
  set (v1 := setMasterPassword (Some pw) (setLocked false v)).
  set (v2 := if Storage.instanceofFileSystemStorage (storage v1)
             then withStorage Storage.removeLock v1 else v1).
  destruct (setupAutoLock_frame now (snd (updateActivity now v2)))
    as (Hs & Hi & Hl & Hp).
  destruct (updateActivity_frame now v2) as (Hs' & Hi' & Hl' & Hp' & _).
  rewrite Hs, Hi, Hl, Hp, Hs', Hi', Hl', Hp'.
  unfold v2. destruct (Storage.instanceofFileSystemStorage _);
    now repeat split.
Qed.

Lemma short_password pw :
  (isEmpty pw || Nat.ltb (String.length pw) 4) = true
  <-> (String.length pw < 4)%nat.
Proof.
  split.
  - intros H. apply orb_true_iff in H. destruct H as [H|H].
    + destruct pw; [cbn; lia | discriminate H].
    + now apply PeanoNat.Nat.ltb_lt.
  - intros H. apply orb_true_iff. right. now apply PeanoNat.Nat.ltb_lt.
Qed.

Section WithPrimitives.
Context {P : Primitives}.

(** [exportWallet] on an unlocked vault whose password does not
    decrypt the wallet. *)
Lemma exportWallet_undecryptable wid now v w e :
  isInitialized v = true -> isLocked v = false ->
  Storage.loadWallet wid (storage v) = Some w ->
  bind (CryptoUtils.decrypt (encryptedPrivateKey w) (masterPassword v))
       JSON_parse = Throw e ->
  fst (exportWallet wid now v)
  = Throw (createError DECRYPTION_FAILED
             ("Failed to export wallet: " ++ message e)).
Proof.
  intros Hi Hl Hw He. unfold exportWallet.
  rewrite unlocked_prefix by assumption.
  destruct (updateActivity_frame now v) as (Hs & _ & _ & Hp & _).
  unfold bindM at 1. rewrite (@requireWallet_found wid w) by now rewrite Hs.
  unfold tryCatch, bindM, decryptKeyMaterial, throw.
  now rewrite Hp, He.
Qed.

(** C10.  On an initialized, locked vault, [unlock] throws
    INVALID_PASSWORD exactly when the password has fewer than four
    characters (the empty one included), leaving the vault locked;
    any longer password unlocks the vault and becomes the master
    password, whatever wallets are stored: nothing stored is looked
    at.  If that password does not decrypt a stored wallet, it is
    [exportWallet] that fails, with DECRYPTION_FAILED. *)
Theorem unlock_checks_length_only v pw now :
  isInitialized v = true -> isLocked v = true ->
  ((String.length pw < 4)%nat ->
   unlock pw now v
   = (Throw (createError INVALID_PASSWORD "Invalid password provided"), v))
  /\ ((4 <= String.length pw)%nat ->
      exists v',
        unlock pw now v = (Ok tt, v')
        /\ isLocked v' = false
        /\ masterPassword v' = Some pw
        /\ Storage.wallets (storage v') = Storage.wallets (storage v)
        /\ forall wid w t e,
             Storage.loadWallet wid (storage v) = Some w ->
             bind (CryptoUtils.decrypt (encryptedPrivateKey w) (Some pw))
                  JSON_parse = Throw e ->
             fst (exportWallet wid t v')
             = Throw (createError DECRYPTION_FAILED
                        ("Failed to export wallet: " ++ message e))).
Proof.
  intros Hi Hl. split.
  - intros Hlen. apply short_password in Hlen.
    unfold unlock, bindM at 1, ensureInitialized.
    rewrite Hi. cbn [negb]. rewrite Hl. cbn [negb]. now rewrite Hlen.
  - intros Hlen.
    assert (Hpw : (isEmpty pw || Nat.ltb (String.length pw) 4) = false).
    { destruct (isEmpty pw || Nat.ltb (String.length pw) 4) eqn:E;
        [|reflexivity].
      apply short_password in E. lia. }
    exists (unlocked pw now v).
    destruct (unlocked_frame pw now v) as (Hi' & Hl' & Hp' & Hw').
    split; [now apply unlock_accepts|].
    repeat split; try assumption.
    intros wid w t e Hw He.
    apply exportWallet_undecryptable with (w := w).
    + now rewrite Hi'.
    + exact Hl'.
    + unfold Storage.loadWallet in *. now rewrite Hw'.
    + now rewrite Hp'.
Qed.

End WithPrimitives.

Lemma unlock_checks_length_only_witness :
  isInitialized Toy.relockedVault = true
  /\ isLocked Toy.relockedVault = true
  /\ unlock "abc" 9 Toy.relockedVault
     = (Throw (createError INVALID_PASSWORD "Invalid password provided"),
        Toy.relockedVault)
  /\ exists v',
       unlock "other-pass" 9 Toy.relockedVault = (Ok tt, v')
       /\ fst (exportWallet (P := Toy.primitives) Toy.testWalletId 10 v')
          = Throw (createError DECRYPTION_FAILED
                     "Failed to export wallet: Decryption failed: bad decrypt").
Proof.
  destruct (@unlock_checks_length_only Toy.primitives Toy.relockedVault
              "abc" 9 eq_refl eq_refl) as (Hshort & _).
  destruct (@unlock_checks_length_only Toy.primitives Toy.relockedVault
              "other-pass" 9 eq_refl eq_refl) as (_ & Hlong).
  split; [reflexivity|]. split; [reflexivity|].
  split; [apply Hshort; cbn; lia|].
  destruct Hlong as (v' & Hrun & _ & _ & _ & Hexport); [cbn; lia|].
  exists v'. split; [exact Hrun|].
  destruct Toy.testWallet as [w|] eqn:Ew; [|discriminate Ew].
  apply (Hexport Toy.testWalletId w 10
           (createError DECRYPTION_FAILED "Decryption failed: bad decrypt")).
  - vm_compute in Ew. injection Ew as <-. vm_compute. reflexivity.
  - vm_compute in Ew. injection Ew as <-. vm_compute. reflexivity.
Defined.

End UnlockFacts.

(** ** Importing wallets *)

Module ImportFacts.
Import Types SeedVaultMock VaultFacts.
Local Open Scope eff_scope.

Definition duplicateError : JsError :=
  createError WALLET_NOT_FOUND "Wallet with this public key already exists".

Lemma In_insertByLastUsed x w l :
  In x (Storage.insertByLastUsed w l) <-> x = w \/ In x l.
Proof.
  induction l as [|y l IH]; cbn.
  - intuition.
  - destruct (lastUsed y <=? lastUsed w); cbn; [intuition|].
    rewrite IH. intuition.
Qed.

Lemma In_sortByLastUsed x l :
  In x (Storage.sortByLastUsed l) <-> In x l.
Proof.
  induction l as [|y l IH]; cbn; [reflexivity|].
  rewrite In_insertByLastUsed, IH. intuition.
Qed.

Lemma In_values_set {V} k (w : V) m :
  In w (JsMap.values (JsMap.set k w m)).
Proof.
  induction m as [|[k' v'] m IH]; cbn; [now left|].
  destruct (String.eqb k k'); cbn; [now left | now right].
Qed.

Lemma filter_values_set {V} (f : V -> bool) k w m :
  (forall x, In x (JsMap.values m) -> f x = false) ->
  f w = true ->
  filter f (JsMap.values (JsMap.set k w m)) = [w].
Proof.
  intros Hm Hw. induction m as [|[k' v'] m IH]; cbn.
  - now rewrite Hw.
  - assert (Hv : f v' = false) by (apply Hm; now left).
    assert (Hrest : forall x, In x (JsMap.values m) -> f x = false)
      by (intros x Hx; apply Hm; now right).
    destruct (String.eqb k k'); cbn.
    + rewrite Hw. f_equal.
      clear IH Hm Hv. induction m as [|[k0 v0] m IH]; cbn; [reflexivity|].
      rewrite (Hrest v0) by now left.
      apply IH. intros x Hx. apply Hrest. now right.
    + rewrite Hv. now apply IH.
Qed.

Section WithPrimitives.
Context {P : Primitives}.

(** The wallet [importWallet] builds. *)
Definition imported (prof : WalletProfile) (mn : string) (kp : Keypair)
           (blob : string) (now : Time) : Wallet :=
  mkWallet (CryptoUtils.generateDeterministicWalletId (kp_publicKey kp))
           (mkProfile (name prof) (Some mn) (derivationPath prof)
                      (network prof))
           (kp_publicKey kp) blob now now.

(** [importWallet] on an unlocked vault. *)
Lemma importWallet_unlocked prof mn now g v :
  isInitialized v = true -> isLocked v = false ->
  importWallet prof mn now g v
  = if negb (CryptoUtils.validateMnemonic mn)
    then (Throw (createError INVALID_MNEMONIC
                   "Invalid mnemonic phrase provided"),
          snd (updateActivity now v))
    else
      match CryptoUtils.deriveKeypairFromMnemonic mn (derivationPath prof) with
      | Throw e =>
          (Throw (Spec.rethrown "Failed to import wallet: " e),
           snd (updateActivity now v))
      | Ok kp =>
          match find (fun w => String.eqb (publicKey w) (kp_publicKey kp))
                     (Storage.loadAllWallets (storage v)) with
          | Some _ => (Throw duplicateError, snd (updateActivity now v))
          | None =>
              match fst (CryptoUtils.encrypt
                           (JSON_stringify
                              (mkKeyMaterial mn (kp_secretKey kp)))
                           (masterPassword v) g) with
              | Throw e =>
                  (Throw (Spec.rethrown "Failed to import wallet: " e),
                   snd (updateActivity now v))
              | Ok blob =>
                  (Ok (imported prof mn kp blob now),
                   withStorage
                     (Storage.saveWallet (imported prof mn kp blob now))
                     (snd (updateActivity now v)))
              end
          end
      end.
Proof.
  intros Hi Hl. unfold importWallet.
  rewrite unlocked_prefix by assumption.
  destruct (updateActivity_frame now v) as (Hs & _ & _ & Hp & _).
  unfold Spec.rethrown, tryCatch, bindM, lift, ret, throw, gets, modify,
    rethrow, encryptKeyMaterial, imported.
  destruct (negb (CryptoUtils.validateMnemonic mn)); [reflexivity|].
  destruct (CryptoUtils.deriveKeypairFromMnemonic _ _) as [kp|e];
    [|now destruct (code e)].
  rewrite Hs.
  destruct (find _ _); [reflexivity|].
  rewrite Hp.
  destruct (CryptoUtils.encrypt _ _ _) as [[blob|e] g']; cbn;
    [reflexivity | now destruct (code e)].
Qed.

Lemma importWallet_not_unlocked prof mn now g v :
  isInitialized v = false \/ isLocked v = true ->
  exists e, importWallet prof mn now g v = (Throw e, v).
Proof.
  intros H. destruct (isInitialized v) eqn:Hi.
  - destruct H as [H|H]; [discriminate H|].
    eexists. unfold importWallet. now apply locked_prefix.
  - eexists. unfold importWallet, ensureUnlocked, ensureInitialized, bindM.
    now rewrite Hi.
Qed.

(** What a successful [importWallet] has done. *)
Lemma importWallet_ok_inv prof mn now g v w v' :
  importWallet prof mn now g v = (Ok w, v') ->
  isInitialized v = true /\ isLocked v = false
  /\ exists kp blob,
      CryptoUtils.validateMnemonic mn = true
      /\ CryptoUtils.deriveKeypairFromMnemonic mn (derivationPath prof)
         = Ok kp
      /\ find (fun w => String.eqb (publicKey w) (kp_publicKey kp))
              (Storage.loadAllWallets (storage v)) = None
      /\ w = imported prof mn kp blob now
      /\ v' = withStorage (Storage.saveWallet w) (snd (updateActivity now v)).
Proof.
  intros H.
  destruct (isInitialized v) eqn:Hi.
  2:{ destruct (@importWallet_not_unlocked prof mn now g v) as (e & He);
        [now left | rewrite He in H; discriminate H]. }
  destruct (isLocked v) eqn:Hl.
  1:{ destruct (@importWallet_not_unlocked prof mn now g v) as (e & He);
        [now right | rewrite He in H; discriminate H]. }
  rewrite importWallet_unlocked in H by assumption.
  split; [reflexivity|]. split; [reflexivity|].
  destruct (CryptoUtils.validateMnemonic mn); cbn [negb] in H;
    [|discriminate H].
  destruct (CryptoUtils.deriveKeypairFromMnemonic _ _) as [kp|e];
    [|discriminate H].
  destruct (find _ _) eqn:Hf; [discriminate H|].
  destruct (fst (CryptoUtils.encrypt _ _ _)) as [blob|e];
    [|discriminate H].
  injection H as <- <-.
  exists kp, blob. repeat split. exact Hf.
Qed.

(** [importWallet] of a valid mnemonic whose derived key is the public
    key of a stored wallet: the throw of the duplicate check, after
    [updateActivity]. *)
Lemma importWallet_known_key prof mn now g v kp w :
  isInitialized v = true -> isLocked v = false ->
  CryptoUtils.validateMnemonic mn = true ->
  CryptoUtils.deriveKeypairFromMnemonic mn (derivationPath prof) = Ok kp ->
  In w (JsMap.values (Storage.wallets (storage v))) ->
  publicKey w = kp_publicKey kp ->
  importWallet prof mn now g v
  = (Throw duplicateError, snd (updateActivity now v)).
Proof.
  intros Hi Hl Hv Hk Hin Hpk.
  rewrite importWallet_unlocked by assumption.
  rewrite Hv, Hk. cbn [negb].
  destruct (find _ _) eqn:Hf; [reflexivity|].
  exfalso.
  assert (Hs : In w (Storage.loadAllWallets (storage v)))
    by now apply In_sortByLastUsed.
  pose proof (find_none _ _ Hf w Hs) as Hfalse. cbn in Hfalse.
  rewrite Hpk, String.eqb_refl in Hfalse. discriminate Hfalse.
Qed.

(** C3: what the code does where the claim fails.  On an unlocked
    vault, importing a valid mnemonic whose derived public key is
    the public key of a stored wallet fails and leaves the storage as
    it was; the error thrown carries the code WALLET_NOT_FOUND with
    the message [Wallet with this public key already exists]. *)
Theorem importWallet_duplicate prof mn now g v kp w :
  isInitialized v = true -> isLocked v = false ->
  CryptoUtils.validateMnemonic mn = true ->
  CryptoUtils.deriveKeypairFromMnemonic mn (derivationPath prof) = Ok kp ->
  In w (JsMap.values (Storage.wallets (storage v))) ->
  publicKey w = kp_publicKey kp ->
  exists v',
    importWallet prof mn now g v
    = (Throw (createError WALLET_NOT_FOUND
                "Wallet with this public key already exists"), v')
    /\ storage v' = storage v.
Proof.
  intros Hi Hl Hv Hk Hin Hpk.
  exists (snd (updateActivity now v)).
  split; [|apply updateActivity_frame].
  now apply (@importWallet_known_key prof mn now g v kp w).
Qed.

(** C4, as amended.  When [importWallet] returns a wallet, its id is
    computed from the public key alone, so that an import of the same
    mnemonic with the same profile that succeeds on any vault (after
    a reset, say) returns the same id and public key; a second import
    on the vault that now holds the wallet is rejected as a
    duplicate and changes nothing in the storage, which holds exactly
    one wallet with that public key. *)
Theorem reimport_is_rejected prof mn t1 g1 v w1 v1 :
  importWallet prof mn t1 g1 v = (Ok w1, v1) ->
  id w1 = CryptoUtils.generateDeterministicWalletId (publicKey w1)
  /\ (forall v0 t0 g0 w0 v0',
         importWallet prof mn t0 g0 v0 = (Ok w0, v0') ->
         id w0 = id w1 /\ publicKey w0 = publicKey w1)
  /\ (forall t2 g2,
         exists v2,
           importWallet prof mn t2 g2 v1 = (Throw duplicateError, v2)
           /\ storage v2 = storage v1)
  /\ Spec.walletsWithKey (publicKey w1) (storage v1) = 1%nat.
Proof.
  intros H.
  destruct (importWallet_ok_inv _ _ _ _ _ H)
    as (Hi & Hl & kp & blob & Hv & Hk & Hf & Hw & Hv1).
  split; [now subst w1|].
  split.
  { intros v0 t0 g0 w0 v0' H0.
    destruct (importWallet_ok_inv _ _ _ _ _ H0)
      as (_ & _ & kp0 & blob0 & _ & Hk0 & _ & Hw0 & _).
    rewrite Hk in Hk0. injection Hk0 as <-. now subst w0 w1. }
  destruct (updateActivity_frame t1 v) as (Hs & Hi1 & Hl1 & _).
  assert (Hpk : publicKey w1 = kp_publicKey kp) by now subst w1.
  split.
  { intros t2 g2.
    exists (snd (updateActivity t2 v1)).
    split; [|apply updateActivity_frame].
    apply (@importWallet_known_key prof mn t2 g2 v1 kp w1);
      try assumption.
    - subst v1. unfold withStorage. cbn [isInitialized]. now rewrite Hi1.
    - subst v1. unfold withStorage. cbn [isLocked]. now rewrite Hl1.
    - subst v1. unfold withStorage, Storage.saveWallet.
      cbn [storage Storage.wallets]. apply In_values_set. }
  unfold Spec.walletsWithKey. subst v1.
  unfold withStorage, Storage.saveWallet. cbn [storage Storage.wallets].
  rewrite filter_values_set; [reflexivity| |apply String.eqb_refl].
  intros x Hx. rewrite Hs in Hx.
  assert (Hx' : In x (Storage.loadAllWallets (storage v)))
    by now apply In_sortByLastUsed.
  pose proof (find_none _ _ Hf x Hx') as Hfalse. cbn in Hfalse.
  now rewrite Hpk.
Qed.

End WithPrimitives.

Lemma importWallet_duplicate_witness :
  exists v',
    importWallet (P := Toy.primitives) Toy.testProfile Toy.testMnemonic 4
                 1%nat Toy.vaultWithWallet
    = (Throw (createError WALLET_NOT_FOUND
                "Wallet with this public key already exists"), v')
    /\ storage v' = storage Toy.vaultWithWallet.
Proof.
  destruct Toy.testWallet as [w|] eqn:Ew; [|discriminate Ew].
  apply (@importWallet_duplicate
           Toy.primitives Toy.testProfile Toy.testMnemonic 4 1%nat
           Toy.vaultWithWallet
           (mkKeypair (publicKey w)
                      (list_byte_of_string
                         "m/44'/501'/0'/0'/0'6162616e646f6e2061626f7574"))
           w).
  - reflexivity.
  - reflexivity.
  - reflexivity.
  - vm_compute in Ew. injection Ew as <-. vm_compute. reflexivity.
  - vm_compute in Ew. injection Ew as <-. vm_compute. now left.
  - reflexivity.
Defined.

Lemma reimport_is_rejected_witness :
  exists w1,
    importWallet (P := Toy.primitives) Toy.testProfile Toy.testMnemonic 3
                 0%nat Toy.unlockedVault = (Ok w1, Toy.vaultWithWallet)
    /\ (exists v2,
           importWallet (P := Toy.primitives) Toy.testProfile
                        Toy.testMnemonic 4 1%nat Toy.vaultWithWallet
           = (Throw duplicateError, v2))
    /\ Spec.walletsWithKey (publicKey w1) (storage Toy.vaultWithWallet)
       = 1%nat.
Proof.
  destruct (importWallet (P := Toy.primitives) Toy.testProfile
              Toy.testMnemonic 3 0%nat Toy.unlockedVault)
    as [[w1|e] v1] eqn:E; [|vm_compute in E; discriminate E].
  assert (Hv1 : v1 = Toy.vaultWithWallet)
    by (unfold Toy.vaultWithWallet; now rewrite E).
  subst v1.
  destruct (@reimport_is_rejected Toy.primitives _ _ _ _ _ _ _ E)
    as (_ & _ & Hdup & Hone).
  exists w1. split; [reflexivity|]. split; [|exact Hone].
  destruct (Hdup 4 1%nat) as (v2 & Hrun & _). now exists v2.
Defined.

(** C4, as stated, fails: the second import of the same mnemonic with
    the same profile returns no wallet; it throws. *)
Lemma second_import_throws :
  (exists w1,
      importWallet (P := Toy.primitives) Toy.testProfile Toy.testMnemonic 3
                   0%nat Toy.unlockedVault = (Ok w1, Toy.vaultWithWallet))
  /\ fst (importWallet (P := Toy.primitives) Toy.testProfile
                       Toy.testMnemonic 4 1%nat Toy.vaultWithWallet)
     = Throw (createError WALLET_NOT_FOUND
                "Wallet with this public key already exists")
  /\ ~ (exists w2 : Wallet,
           fst (importWallet (P := Toy.primitives) Toy.testProfile
                             Toy.testMnemonic 4 1%nat Toy.vaultWithWallet)
           = Ok w2).
Proof.
  split; [eexists; vm_compute; reflexivity|].
  split; [vm_compute; reflexivity|].
  intros [w2 H]. vm_compute in H. discriminate H.
Qed.

End ImportFacts.

(** ** Encryption *)

Module CryptoFacts.
Import CryptoUtils.

Lemma fromHex_ofByte (b : byte) (s : string) :
  Hex.fromHex (Hex.ofByte b ++ s) = b :: Hex.fromHex s.
Proof. destruct b; reflexivity. Qed.

Lemma append_assoc (a b c : string) : (a ++ b) ++ c = a ++ b ++ c.
Proof. induction a as [|x a IH]; cbn; [reflexivity | now rewrite IH]. Qed.

Lemma fromHex_toHex_app (bs : Bytes) (s : string) :
  Hex.fromHex (Hex.toHex bs ++ s) = (bs ++ Hex.fromHex s)%list.
Proof.
  induction bs as [|b bs IH]; cbn [Hex.toHex]; [reflexivity|].
  rewrite append_assoc, fromHex_ofByte, IH. reflexivity.
Qed.

(** The text [update] and [final] give in hexadecimal is read back as
    the bytes of both. *)
Lemma fromHex_toHex_pair (u f : Bytes) :
  Hex.fromHex (Hex.toHex u ++ Hex.toHex f) = (u ++ f)%list.
Proof.
  rewrite fromHex_toHex_app.
  rewrite <- (PathFacts.append_empty_r (Hex.toHex f)).
  rewrite fromHex_toHex_app. cbn. now rewrite app_nil_r.
Qed.

Lemma firstn_exact {A} (a b : list A) n :
  List.length a = n -> firstn n (a ++ b) = a.
Proof.
  intros <-. induction a as [|x a IH]; cbn; [reflexivity | now rewrite IH].
Qed.

Lemma skipn_exact {A} (a b : list A) n :
  List.length a = n -> skipn n (a ++ b) = b.
Proof.
  intros <-. induction a as [|x a IH]; cbn; [reflexivity | exact IH].
Qed.

Section WithPrimitives.
Context {P : Primitives} {L : PrimitiveLaws P}.

Lemma deriveEncryptionKey_length pw salt :
  List.length (deriveEncryptionKey pw salt) = 32%nat.
Proof.
  unfold deriveEncryptionKey.
  pose proof (pbkdf2Sync_length pw salt KEY_DERIVATION_ITERATIONS 32) as H.
  apply (f_equal N.to_nat) in H. now rewrite Nnat.Nat2N.id in H.
Qed.

(** [decrypt] on what [encrypt] makes of a salt, a vector and the two
    outputs of the cipher. *)
Lemma decrypt_blob pw salt iv u f u' f' :
  List.length salt = SALT_LENGTH -> List.length iv = IV_LENGTH ->
  aes256cbc_decipher (deriveEncryptionKey pw salt) iv (u ++ f)%list
  = Ok (u', f') ->
  decrypt (base64Encode
             (salt ++ iv ++ Hex.fromHex (Hex.toHex u ++ Hex.toHex f))%list)
          (Some pw)
  = Ok (utf8Decode (u' ++ f')%list).
Proof.
  intros Hs Hv Hd. unfold decrypt.
  rewrite base64_roundtrip, fromHex_toHex_pair.
  rewrite (firstn_exact salt _ Hs).
  rewrite (skipn_exact salt _ Hs).
  rewrite (firstn_exact iv _ Hv).
  replace (salt ++ iv ++ u ++ f)%list with ((salt ++ iv) ++ u ++ f)%list
    by now rewrite <- app_assoc.
  rewrite skipn_exact by now rewrite length_app, Hs, Hv.
  now rewrite Hd.
Qed.


End WithPrimitives.

Lemma startsWith_app (p l : Bytes) :
  Toy.startsWith p (p ++ l)%list = Some l.
Proof.
  induction p as [|b p IH]; cbn; [reflexivity|].
  now rewrite (byte_dec_lb (eq_refl b)).
Qed.

(** The stand-ins satisfy what is assumed of the libraries. *)
Lemma toy_laws : PrimitiveLaws Toy.primitives.
Proof.
  constructor.
  - intros n g. cbn. apply repeat_length.
  - intros pw salt it len. cbn. unfold Toy.stretch.
    rewrite firstn_length_le; [apply Nnat.N2Nat.id|].
    rewrite length_app, repeat_length. lia.
  - intros key iv plain _ _. cbn.
    exists (key ++ plain)%list, [], plain, [].
    split; [reflexivity|]. rewrite !app_nil_r.
    now rewrite startsWith_app.
  - intros bs. cbn. apply list_byte_of_string_of_list_byte.
Qed.




End CryptoFacts.

(** ** The protocol service *)

Module MWAFacts.
Import MWAServiceImpl TransactionValidator.
Local Open Scope eff_scope.
Local Unset Implicit Arguments.

Lemma bindM_Ok {S A B} (m : M S A) (k : A -> M S B) s a s' :
  m s = (Ok a, s') -> bindM m k s = k a s'.
Proof. unfold bindM. now intros ->. Qed.

Lemma bindM_Throw {S A B} (m : M S A) (k : A -> M S B) s e s' :
  m s = (Throw e, s') -> bindM m k s = (Throw e, s').
Proof. unfold bindM. now intros ->. Qed.

Lemma tryCatch_Ok {S A} (m : M S A) h s a s' :
  m s = (Ok a, s') -> tryCatch m h s = (Ok a, s').
Proof. unfold tryCatch. now intros ->. Qed.

Lemma tryCatch_Throw {S A} (m : M S A) h s e s' :
  m s = (Throw e, s') -> tryCatch m h s = h e s'.
Proof. unfold tryCatch. now intros ->. Qed.

(** *** Validation returns on a well-typed transaction *)

Lemma scanInstructions_returns l :
  forallb Spec.keysPresent l = true ->
  forall s, exists s', scanInstructions l s = Ok s'.
Proof.
  induction l as [|ins l IH]; intros Hl s; cbn.
  - now exists s.
  - cbn in Hl. apply andb_true_iff in Hl. destruct Hl as [Hins Hl].
    unfold scanInstruction. unfold Spec.keysPresent in Hins.
    destruct (Web3.programId ins) as [pid|]; cbn [bind]; [|now apply IH].
    destruct (Web3.keys ins) as [ks|]; [|discriminate Hins].
    cbn [bind]. now apply IH.
Qed.

Lemma wellTyped_validates tx :
  Spec.wellTyped tx = true ->
  exists v, validateTransaction (Some tx) = Ok v.
Proof.
  unfold Spec.wellTyped, validateTransaction.
  destruct (Web3.instructions tx) as [l|]; [|discriminate].
  intros Hl. cbn [validateInstructions bind].
  unfold extractTransactionMetadata.
  destruct (scanInstructions_returns l Hl (mkScan [] 0 false false None None))
    as [s' Hs'].
  rewrite Hs'. cbn [bind]. eexists. reflexivity.
Qed.

(** *** Validation throws on any other transaction *)

Lemma scanInstructions_throws l :
  forallb Spec.keysPresent l = false ->
  forall s, scanInstructions l s = Throw undefinedLength.
Proof.
  induction l as [|ins l IH]; intros Hl s; [discriminate Hl|].
  cbn [forallb] in Hl. cbn [scanInstructions]. unfold scanInstruction.
  unfold Spec.keysPresent in Hl at 1.
  destruct (Web3.programId ins) as [pid|]; cbn [bind].
  - destruct (Web3.keys ins) as [ks|]; [|reflexivity].
    cbn [bind]. now apply IH.
  - now apply IH.
Qed.

Lemma untyped_throws tx :
  Spec.wellTyped tx = false ->
  validateTransaction (Some tx) = Throw undefinedLength.
Proof.
  unfold Spec.wellTyped, validateTransaction.
  destruct (Web3.instructions tx) as [l|]; [|reflexivity].
  intros Hl. cbn [validateInstructions bind].
  unfold extractTransactionMetadata.
  now rewrite (scanInstructions_throws l Hl).
Qed.

(** *** The tracker, the approval screen and the vault, one step each *)

(** The tracker holds an entry for the identifier, with this status. *)
Definition Tracked (transactionId : string)
           (s : TransactionTracker.TransactionStatus) (st : State) : Prop :=
  Spec.statusOf transactionId st = Some s.

(** The vault and the approval screen are those of [st]. *)
Definition SameParts (st st' : State) : Prop :=
  seedVault st' = seedVault st /\ transactionUI st' = transactionUI st.

Lemma createTransaction_step id wid dapp tx md t st :
  exists entry st',
    onTracker (TransactionTracker.createTransaction id wid dapp tx md t) st
    = (Ok entry, st')
    /\ Tracked id TransactionTracker.pending st' /\ SameParts st st'.
Proof.
  do 2 eexists. split; [reflexivity|]. split; [|now split].
  unfold Tracked, Spec.statusOf, TransactionTracker.getTransaction. cbn.
  now rewrite JsMapFacts.get_set_same.
Qed.

Lemma updateStatus_step id s0 s extra t st :
  Tracked id s0 st ->
  exists st',
    onTracker (TransactionTracker.updateStatus id s extra t) st = (Ok tt, st')
    /\ Tracked id s st' /\ SameParts st st'.
Proof.
  unfold Tracked, Spec.statusOf. intros H.
  destruct (TransactionTracker.getTransaction id (transactionTracker st))
    as [e|] eqn:He; [|discriminate H].
  unfold onTracker.
  rewrite (@TrackerFacts.updateStatus_known id s extra t _ e He).
  eexists. split; [reflexivity|]. split; [|now split].
  unfold TransactionTracker.getTransaction. cbn.
  now rewrite JsMapFacts.get_set_same.
Qed.

Lemma addSignature_step id s sig t st :
  Tracked id s st ->
  exists st',
    onTracker (TransactionTracker.addSignature id sig t) st = (Ok tt, st')
    /\ Tracked id s st' /\ SameParts st st'.
Proof.
  unfold Tracked, Spec.statusOf. intros H.
  destruct (TransactionTracker.getTransaction id (transactionTracker st))
    as [e|] eqn:He; [|discriminate H].
  unfold onTracker, TransactionTracker.addSignature.
  unfold TransactionTracker.getTransaction in He. rewrite He.
  eexists. split; [reflexivity|]. split; [|now split].
  unfold TransactionTracker.getTransaction. cbn.
  rewrite JsMapFacts.get_set_same. cbn. cbn in H. exact H.
Qed.

Lemma addError_step id s err t st :
  Tracked id s st ->
  exists st',
    onTracker (TransactionTracker.addError id err t) st = (Ok tt, st')
    /\ Tracked id s st' /\ SameParts st st'.
Proof.
  unfold Tracked, Spec.statusOf. intros H.
  destruct (TransactionTracker.getTransaction id (transactionTracker st))
    as [e|] eqn:He; [|discriminate H].
  unfold onTracker, TransactionTracker.addError.
  unfold TransactionTracker.getTransaction in He. rewrite He.
  eexists. split; [reflexivity|]. split; [|now split].
  unfold TransactionTracker.getTransaction. cbn.
  rewrite JsMapFacts.get_set_same. cbn. cbn in H. exact H.
Qed.

Lemma requestApproval_step request d t st :
  exists st',
    onUI (TransactionUIMock.requestApproval request d t) st
    = (Ok (Spec.answerOf (TransactionUIMock.config (transactionUI st))
                         request d t), st')
    /\ seedVault st' = seedVault st
    /\ transactionTracker st' = transactionTracker st
    /\ TransactionUIMock.config (transactionUI st')
       = TransactionUIMock.config (transactionUI st).
Proof.
  unfold onUI, TransactionUIMock.requestApproval, Spec.answerOf,
    bindM, modify, gets, ret.
  cbn.
  destruct (TransactionUIMock.shouldAutoApprove _ _); cbn;
    eexists; repeat split.
Qed.

Lemma Tracked_transport id s st st' :
  transactionTracker st' = transactionTracker st ->
  Tracked id s st -> Tracked id s st'.
Proof. unfold Tracked, Spec.statusOf. now intros ->. Qed.

Lemma bindM_lift_Ok {S A B} (a : A) (k : A -> M S B) s :
  bindM (lift (Ok a)) k s = k a s.
Proof. reflexivity. Qed.

Lemma SameParts_trans st1 st2 st3 :
  SameParts st1 st2 -> SameParts st2 st3 -> SameParts st1 st3.
Proof. intros [H1 H2] [H3 H4]. split; congruence. Qed.

Section WithPrimitives.
Context {P : Primitives}.

Lemma onVault_step {A} (m : M SeedVaultMock.State A) st r v' :
  m (seedVault st) = (r, v') ->
  exists st',
    onVault m st = (r, st')
    /\ seedVault st' = v'
    /\ transactionTracker st' = transactionTracker st
    /\ transactionUI st' = transactionUI st.
Proof.
  intros H. unfold onVault. rewrite H. eexists. now repeat split.
Qed.

Lemma createApprovalRequest_valid wallet session env i tx v :
  validateTransaction (Some tx) = Ok v -> isValid v = true ->
  TransactionUIMock.createApprovalRequest
    (Types.id wallet) (dAppIdentifier session) tx (Some false)
    (startedAt (item env i)) (requestRandom (item env i))
  = Ok (Spec.requestOf wallet session env i tx v).
Proof.
  intros Hv Hvalid. unfold TransactionUIMock.createApprovalRequest.
  rewrite Hv. cbn [bind]. now rewrite Hvalid.
Qed.

(** The [catch] block, entered with the entry of the item in the
    tracker. *)
Lemma recordSigningFailure_tracked id wallet session tx v err t s st :
  isValid v = true -> Tracked id s st ->
  exists st',
    recordSigningFailure id wallet session tx v err t st
    = (Ok (errorResult ("Failed to sign transaction: " ++ message err)), st')
    /\ Tracked id TransactionTracker.signing_failed st'
    /\ SameParts st st'.
Proof.
  intros Hvalid T. unfold recordSigningFailure. rewrite Hvalid.
  destruct (updateStatus_step _ _ TransactionTracker.signing_failed [] t _ T)
    as (st1 & H1 & T1 & S1).
  destruct (addError_step _ _ (message err) t _ T1) as (st2 & H2 & T2 & S2).
  exists st2. split; [|split; [exact T2 | now apply SameParts_trans with st1]].
  unfold bindM at 1.
  rewrite (tryCatch_Ok _ _ _ tt st2); [reflexivity|].
  rewrite (bindM_Ok _ _ _ _ _ H1). exact H2.
Qed.

(** One item of a batch: the loop body returns, and does to the item
    what the specification says. *)
Lemma processItem_spec wallet session env i tx st :
  Spec.wellTyped tx = true ->
  exists r st',
    processItem wallet session i tx (item env i) st = (Ok r, st')
    /\ Spec.Item wallet session env i tx st r st'.
Proof.
  intros Hwt. destruct (wellTyped_validates tx Hwt) as [v Hv].
  unfold processItem. rewrite Hv.
  destruct (isValid v) eqn:Hvalid; cbn [negb].
  2:{ do 2 eexists. split; [reflexivity|]. now apply Spec.Item_invalid. }
  set (id := transactionIdOf i (item env i)).
  destruct (createTransaction_step id (Types.id wallet)
              (dAppIdentifier session) tx (metadata v)
              (startedAt (item env i)) st)
    as (entry & st1 & H1 & T1 & S1).
  destruct (updateStatus_step _ _ TransactionTracker.pending []
              (startedAt (item env i)) _ T1)
    as (st2 & H2 & T2 & S2).
  destruct (requestApproval_step (Spec.requestOf wallet session env i tx v)
              (decision (item env i)) (decidedAt (item env i)) st2)
    as (st3 & H3 & V3 & K3 & C3).
  assert (S02 : SameParts st st2) by now apply SameParts_trans with st1.
  assert (Hcfg : TransactionUIMock.config (transactionUI st2)
                 = TransactionUIMock.config (transactionUI st))
    by (destruct S02 as [_ ->]; reflexivity).
  rewrite Hcfg in H3.
  assert (T3 : Tracked id TransactionTracker.pending st3)
    by now apply (Tracked_transport _ _ _ _ K3).
  assert (V03 : seedVault st3 = seedVault st)
    by (rewrite V3; apply S02).
  unfold tryCatch.
  rewrite (bindM_Ok _ _ _ _ _ H1).
  rewrite (createApprovalRequest_valid wallet session env i tx v Hv Hvalid).
  rewrite bindM_lift_Ok.
  rewrite (bindM_Ok _ _ _ _ _ H2).
  rewrite (bindM_Ok _ _ _ _ _ H3).
  destruct (TransactionUIMock.approved
              (Spec.answerOf (TransactionUIMock.config (transactionUI st))
                 (Spec.requestOf wallet session env i tx v)
                 (decision (item env i)) (decidedAt (item env i))))
    eqn:Happ; cbn [negb].
  - (* approved *)
    destruct (updateStatus_step _ _ TransactionTracker.approved []
                (decidedAt (item env i)) _ T3)
      as (st4 & H4 & T4 & S4).
    destruct (updateStatus_step _ _ TransactionTracker.signing []
                (decidedAt (item env i)) _ T4)
      as (st5 & H5 & T5 & S5).
    assert (V05 : seedVault st5 = seedVault st).
    { destruct S4 as [E4 _]. destruct S5 as [E5 _]. now rewrite E5, E4. }
    rewrite (bindM_Ok _ _ _ _ _ H4), (bindM_Ok _ _ _ _ _ H5).
    destruct (SeedVaultMock.signTransaction (Types.id wallet) tx true
                (decidedAt (item env i)) (seedVault st5))
      as [[sr|err] vault'] eqn:Hsign.
    + destruct (onVault_step _ _ _ _ Hsign) as (st6 & H6 & V6 & K6 & U6).
      assert (T6 : Tracked id TransactionTracker.signing st6)
        by now apply (Tracked_transport _ _ _ _ K6).
      destruct (updateStatus_step _ _ TransactionTracker.signed []
                  (decidedAt (item env i)) _ T6)
        as (st7 & H7 & T7 & S7).
      destruct (addSignature_step _ _ (Hex.toHex (Types.sr_signature sr))
                  (decidedAt (item env i)) _ T7)
        as (st8 & H8 & T8 & S8).
      rewrite (bindM_Ok _ _ _ _ _ H6), (bindM_Ok _ _ _ _ _ H7),
        (bindM_Ok _ _ _ _ _ H8).
      do 2 eexists. split; [reflexivity|].
      apply Spec.Item_signed with (v := v) (vault' := vault');
        try assumption.
      * now rewrite <- V05.
      * destruct S8 as [-> _]. destruct S7 as [-> _]. exact V6.
    + destruct (onVault_step _ _ _ _ Hsign) as (st6 & H6 & V6 & K6 & U6).
      assert (T6 : Tracked id TransactionTracker.signing st6)
        by now apply (Tracked_transport _ _ _ _ K6).
      rewrite (bindM_Throw _ _ _ _ _ H6).
      destruct (recordSigningFailure_tracked id wallet session tx v err
                  (decidedAt (item env i)) _ _ Hvalid T6)
        as (st7 & H7 & T7 & S7).
      rewrite H7.
      do 2 eexists. split; [reflexivity|].
      apply Spec.Item_failed with (v := v) (vault' := vault');
        try assumption.
      * now rewrite <- V05.
      * destruct S7 as [-> _]. exact V6.
  - (* rejected *)
    destruct (updateStatus_step _ _ TransactionTracker.rejected
                [("reason", TransactionUIMock.reason
                              (Spec.answerOf
                                 (TransactionUIMock.config (transactionUI st))
                                 (Spec.requestOf wallet session env i tx v)
                                 (decision (item env i))
                                 (decidedAt (item env i))))]
                (decidedAt (item env i)) _ T3)
      as (st4 & H4 & T4 & S4).
    rewrite (bindM_Ok _ _ _ _ _ H4).
    do 2 eexists. split; [reflexivity|].
    apply Spec.Item_rejected with (v := v); try assumption.
    destruct S4 as [-> _]. exact V03.
Qed.

End WithPrimitives.

Section Batches.
Context {P : Primitives}.

Lemma processFrom_spec wallet session env txs :
  forallb Spec.wellTyped txs = true ->
  forall i st,
  exists rs st',
    processFrom wallet session env i txs st = (Ok rs, st')
    /\ Spec.Batch wallet session env i txs st rs st'.
Proof.
  induction txs as [|tx txs IH]; intros Hwt i st.
  - exists [], st. split; [reflexivity | constructor].
  - cbn in Hwt. apply andb_true_iff in Hwt. destruct Hwt as [Htx Hrest].
    destruct (processItem_spec wallet session env i tx st Htx)
      as (r & st1 & Hrun & Hitem).
    destruct (IH Hrest (S i) st1) as (rs & st2 & Hruns & Hbatch).
    exists (r :: rs), st2. split; [|now apply Spec.Batch_cons with st1].
    cbn [processFrom].
    rewrite (bindM_Ok _ _ _ _ _ Hrun), (bindM_Ok _ _ _ _ _ Hruns).
    reflexivity.
Qed.

Lemma Batch_length wallet session env i txs st rs st' :
  Spec.Batch wallet session env i txs st rs st' ->
  List.length rs = List.length txs.
Proof. induction 1; cbn; congruence. Qed.

Lemma updateSessionActivity_ok sid t st :
  fst (updateSessionActivity sid t st) = Ok tt.
Proof.
  unfold updateSessionActivity.
  now destruct (JsMap.get sid (sessions st)).
Qed.

(** While every validation returns: for a session that the service
    knows, that is connected and authorized, and for a non-empty batch
    of transactions of the declared type (an instruction with a program
    id has its array of keys), [signTransactions] returns, and returns
    one result per transaction, in the order of the batch.  When the
    authorized wallet is there, the batch is handled item by item in
    that order whatever the items before did: an invalid transaction, a
    rejection and an error of the vault each leave an error entry for
    that item and the loop goes on.  When the wallets cannot be listed
    or the authorized wallet is gone, every item gets the same error
    entry. *)
Lemma signTransactions_batch session txs env st authorized :
  JsMap.has (sessionId session) (sessions st) = true ->
  connectionState session = connected ->
  authorizedPublicKey session = Some authorized ->
  txs <> [] ->
  forallb Spec.wellTyped txs = true ->
  exists results st',
    signTransactions session txs env st = (Ok results, st')
    /\ List.length results = List.length txs
    /\ match onVault (SeedVaultMock.listWallets (now env))
                     (snd (updateSessionActivity (sessionId session)
                                                 (now env) st)) with
       | (Ok wallets, st0) =>
           match find (fun w => String.eqb (Types.publicKey w) authorized)
                      wallets with
           | Some wallet =>
               Spec.Batch wallet session env 0 txs st0 results st'
           | None =>
               results
               = map (fun _ =>
                        errorResult
                          ("Failed to sign transactions: "
                             ++ "Authorized wallet not found"))
                     txs
           end
       | (Throw err, _) =>
           results
           = map (fun _ =>
                    errorResult
                      ("Failed to sign transactions: " ++ message err))
                 txs
       end.
Proof.
  intros Hhas Hconn Hauth Hne Hwt.
  unfold signTransactions. rewrite Hhas, Hconn, Hauth. cbn [negb isConnected].
  pose proof (updateSessionActivity_ok (sessionId session) (now env) st)
    as Hup.
  destruct (updateSessionActivity (sessionId session) (now env) st)
    as [r sta] eqn:Eup.
  cbn [fst] in Hup. subst r. cbn [snd].
  rewrite (bindM_Ok _ _ _ _ _ Eup).
  destruct txs as [|tx txs']; [now elim Hne|].
  set (txs := tx :: txs') in *.
  unfold tryCatch.
  destruct (onVault (SeedVaultMock.listWallets (now env)) sta)
    as [[wallets|err] st0] eqn:Elist.
  - rewrite (bindM_Ok _ _ _ _ _ Elist).
    destruct (find _ wallets) as [wallet|].
    + destruct (processFrom_spec wallet session env txs Hwt 0%nat st0)
        as (rs & st' & Hrun & Hbatch).
      rewrite Hrun. exists rs, st'.
      split; [reflexivity|]. split; [|exact Hbatch].
      now apply Batch_length in Hbatch.
    + unfold throw, ret. do 2 eexists.
      split; [reflexivity|]. split; [apply length_map | reflexivity].
  - rewrite (bindM_Throw _ _ _ _ _ Elist).
    unfold ret. do 2 eexists.
    split; [reflexivity|]. split; [apply length_map | reflexivity].
Qed.

(** The other direction: the four cases in which the call throws. *)
Lemma signTransactions_throws session txs env st :
  (JsMap.has (sessionId session) (sessions st) = false ->
   fst (signTransactions session txs env st)
   = Throw (plainError "Invalid session: session not found"))
  /\ (JsMap.has (sessionId session) (sessions st) = true ->
      connectionState session <> connected ->
      fst (signTransactions session txs env st)
      = Throw (plainError "Invalid session: not connected"))
  /\ (JsMap.has (sessionId session) (sessions st) = true ->
      connectionState session = connected ->
      authorizedPublicKey session = None ->
      fst (signTransactions session txs env st)
      = Throw (plainError "Session not authorized"))
  /\ (JsMap.has (sessionId session) (sessions st) = true ->
      connectionState session = connected ->
      authorizedPublicKey session <> None ->
      txs = [] ->
      fst (signTransactions session txs env st)
      = Throw (plainError "No transactions provided")).
Proof.
  unfold signTransactions. repeat split.
  - now intros ->.
  - intros -> Hc. cbn [negb].
    destruct (connectionState session); [now elim Hc | reflexivity ..].
  - now intros -> -> ->.
  - intros -> -> Ha ->. cbn [negb isConnected].
    destruct (authorizedPublicKey session) as [a|]; [|now elim Ha].
    pose proof (updateSessionActivity_ok (sessionId session) (now env) st)
      as Hup.
    destruct (updateSessionActivity (sessionId session) (now env) st)
      as [r sta] eqn:Eup.
    cbn [fst] in Hup. subst r.
    now rewrite (bindM_Ok _ _ _ _ _ Eup).
Qed.

(** An item on which the validation throws: the [catch] block of the
    item calls the validation again, and the loop is left by that
    throw. *)
Lemma processItem_throws wallet session i tx e st err :
  validateTransaction (Some tx) = Throw err ->
  processItem wallet session i tx e st = (Throw err, st).
Proof. intros H. unfold processItem. now rewrite H. Qed.

Lemma processFrom_stops wallet session env tx rest err before :
  validateTransaction (Some tx) = Throw err ->
  forallb Spec.wellTyped before = true ->
  forall i st,
  exists handled st1,
    Spec.Batch wallet session env i before st handled st1
    /\ processFrom wallet session env i (before ++ tx :: rest) st
       = (Throw err, st1).
Proof.
  intros Hv. induction before as [|tx0 before IH]; intros Hwt i st.
  - exists [], st. split; [constructor|].
    cbn [app processFrom].
    now rewrite (bindM_Throw _ _ _ _ _
                   (processItem_throws wallet session i tx (item env i)
                                       st err Hv)).
  - cbn [forallb] in Hwt. apply andb_true_iff in Hwt.
    destruct Hwt as [Htx0 Hbefore].
    destruct (processItem_spec wallet session env i tx0 st Htx0)
      as (r & st1 & Hrun & Hitem).
    destruct (IH Hbefore (S i) st1) as (rs & st2 & Hbatch & Hstop).
    exists (r :: rs), st2. split; [now apply Spec.Batch_cons with st1|].
    cbn [app processFrom].
    now rewrite (bindM_Ok _ _ _ _ _ Hrun), (bindM_Throw _ _ _ _ _ Hstop).
Qed.

(** C2: what the code does where the claim fails.  The claim holds
    while every validation returns, and fails where
    [validateTransaction] itself throws.  For a session that the
    service knows, that is connected and authorized, with the authorized
    wallet listed by the vault, take a batch in which the transactions
    [before] are of the declared type and the next one, [tx], is not:
    its [instructions] are absent, or one of its instructions has a
    program id and no [keys].  Then [validateTransaction] throws on
    [tx]; the transactions [before] have been handled one by one, as
    the claim says (signed, rejected or refused, and logged as such);
    and yet [signTransactions] returns, for every transaction of the
    batch, those before [tx] and those after it included, the one error
    entry made from that throw.  The failure of the one item is not
    recorded for that item alone, the results of the items handled
    before it are lost and the items after it are never taken up. *)
Theorem validation_throw_fails_batch
        session before tx rest env st authorized wallets st0 wallet :
  JsMap.has (sessionId session) (sessions st) = true ->
  connectionState session = connected ->
  authorizedPublicKey session = Some authorized ->
  onVault (SeedVaultMock.listWallets (now env))
          (snd (updateSessionActivity (sessionId session) (now env) st))
  = (Ok wallets, st0) ->
  find (fun w => String.eqb (Types.publicKey w) authorized) wallets
  = Some wallet ->
  forallb Spec.wellTyped before = true ->
  Spec.wellTyped tx = false ->
  validateTransaction (Some tx) = Throw undefinedLength
  /\ exists handled st1,
       Spec.Batch wallet session env 0 before st0 handled st1
       /\ signTransactions session (before ++ tx :: rest) env st
          = (Ok (map (fun _ =>
                        errorResult
                          ("Failed to sign transactions: "
                             ++ message undefinedLength))
                     (before ++ tx :: rest)),
             st1).
Proof.
  intros Hhas Hconn Hauth Elist Hfind Hwt Htx.
  pose proof (untyped_throws tx Htx) as Hv.
  split; [exact Hv|].
  destruct (processFrom_stops wallet session env tx rest undefinedLength
              before Hv Hwt 0%nat st0)
    as (handled & st1 & Hbatch & Hstop).
  exists handled, st1. split; [exact Hbatch|].
  unfold signTransactions. rewrite Hhas, Hconn, Hauth. cbn [negb isConnected].
  pose proof (updateSessionActivity_ok (sessionId session) (now env) st)
    as Hup.
  destruct (updateSessionActivity (sessionId session) (now env) st)
    as [r sta] eqn:Eup.
  cbn [fst] in Hup. subst r. cbn [snd] in Elist.
  rewrite (bindM_Ok _ _ _ _ _ Eup).
  set (txs := (before ++ tx :: rest)%list) in *.
  assert (Hne : txs <> []) by (subst txs; now destruct before).
  destruct txs as [|tx1 txs'] eqn:Etxs; [now elim Hne|].
  rewrite <- Etxs in *.
  unfold tryCatch.
  rewrite (bindM_Ok _ _ _ _ _ Elist), Hfind, Hstop.
  reflexivity.
Qed.

End Batches.

Lemma signTransactions_batch_witness :
  JsMap.has (sessionId Toy.session) (sessions Toy.service) = true
  /\ connectionState Toy.session = connected
  /\ forallb Spec.wellTyped [Toy.emptyTx; Toy.transferTx] = true
  /\ exists results st',
       signTransactions (P := Toy.primitives) Toy.session
                        [Toy.emptyTx; Toy.transferTx] Toy.env Toy.service
       = (Ok results, st')
       /\ List.length results = 2%nat.
Proof.
  split; [reflexivity|]. split; [reflexivity|]. split; [reflexivity|].
  destruct (@signTransactions_batch
              Toy.primitives Toy.session [Toy.emptyTx; Toy.transferTx]
              Toy.env Toy.service
              (match authorizedPublicKey Toy.session with
               | Some key => key
               | None => EmptyString
               end))
    as (results & st' & Hrun & Hlen & _).
  - reflexivity.
  - reflexivity.
  - reflexivity.
  - discriminate.
  - reflexivity.
  - exists results, st'. split; [exact Hrun | exact Hlen].
Defined.

Lemma validation_throw_fails_batch_witness :
  fst (signTransactions (P := Toy.primitives) Toy.session
                        [Toy.transferTx; Toy.untypedTx; Toy.transferTx]
                        Toy.env Toy.service)
  = Ok [errorResult ("Failed to sign transactions: "
                       ++ message undefinedLength);
        errorResult ("Failed to sign transactions: "
                       ++ message undefinedLength);
        errorResult ("Failed to sign transactions: "
                       ++ message undefinedLength)]
  /\ Spec.statusOf
       (transactionIdOf 0 (item Toy.env 0))
       (snd (signTransactions (P := Toy.primitives) Toy.session
                              [Toy.transferTx; Toy.untypedTx; Toy.transferTx]
                              Toy.env Toy.service))
     = Some TransactionTracker.signed.
Proof.
  split; [|reflexivity].
  destruct (@validation_throw_fails_batch
              Toy.primitives Toy.session [Toy.transferTx] Toy.untypedTx
              [Toy.transferTx] Toy.env Toy.service
              (match authorizedPublicKey Toy.session with
               | Some key => key
               | None => EmptyString
               end)
              (match Toy.testWallet with Some w => [w] | None => [] end)
              (snd (onVault
                      (SeedVaultMock.listWallets (now Toy.env))
                      (snd (updateSessionActivity (sessionId Toy.session)
                                                  (now Toy.env) Toy.service))))
              (match Toy.testWallet with
               | Some w => w
               | None =>
                   Types.mkWallet EmptyString Toy.testProfile EmptyString
                                  EmptyString 0 0
               end))
    as (_ & handled & st1 & _ & Hrun).
  - reflexivity.
  - reflexivity.
  - reflexivity.
  - reflexivity.
  - reflexivity.
  - reflexivity.
  - reflexivity.
  - cbn [app] in Hrun. now rewrite Hrun.
Defined.

(** The batch of the specification: an invalid transaction, then a valid
    one.  The first result is an error entry, the second carries a
    signature. *)
Example invalid_then_valid :
  match fst (signTransactions (P := Toy.primitives) Toy.session
                              [Toy.emptyTx; Toy.transferTx] Toy.env
                              Toy.service) with
  | Ok [r1; r2] =>
      error r1
      = Some ("Transaction validation failed: "
                ++ "Transaction has no instructions, "
                ++ "Transaction has no fee payer, "
                ++ "Program interaction transaction has no program IDs")
      /\ signature r1 = None
      /\ error r2 = None
      /\ signature r2 <> None
  | _ => False
  end.
Proof. vm_compute. repeat split. discriminate. Qed.

(** Outside the declared type: for an instruction object that has a
    program id and no [keys], [validateTransaction] itself throws, the
    [catch] block of the item throws again, and the whole batch gets
    the one error, the valid transaction included. *)
Example untyped_instruction :
  Spec.wellTyped Toy.untypedTx = false
  /\ validateTransaction (Some Toy.untypedTx) = Throw undefinedLength
  /\ fst (signTransactions (P := Toy.primitives) Toy.session
                           [Toy.untypedTx; Toy.transferTx] Toy.env
                           Toy.service)
     = Ok [errorResult ("Failed to sign transactions: "
                          ++ message undefinedLength);
           errorResult ("Failed to sign transactions: "
                          ++ message undefinedLength)].
Proof. repeat split. Qed.

(** The same with a transaction object that has no [instructions] at
    all, after a transfer that is signed. *)
Example absent_instructions :
  validateTransaction
    (Some (Web3.mkTransaction None (Some Toy.key1) None []))
  = Throw undefinedLength
  /\ fst (signTransactions (P := Toy.primitives) Toy.session
                           [Toy.transferTx;
                            Web3.mkTransaction None (Some Toy.key1) None []]
                           Toy.env Toy.service)
     = Ok [errorResult ("Failed to sign transactions: "
                          ++ message undefinedLength);
           errorResult ("Failed to sign transactions: "
                          ++ message undefinedLength)].
Proof. split; reflexivity. Qed.

End MWAFacts.


(** ** Derivation paths: the other format, and validation *)

Module DerivationFacts.
Import CryptoUtils PathFacts.

(** A group whose text is followed by a character that is no digit and
    is not the first character of the literal that the pattern wants. *)
Lemma matchTokens_group_mismatch (n : N) (c q : ascii) (l : string)
      (pat : list Token) (s : string) :
  isDigit c = false -> Ascii.eqb q c = false ->
  matchTokens (Digits :: Lit (String q l) :: pat) (decimal n ++ String c s)
  = None.
Proof.
  intros Hc Hq. cbn [matchTokens].
  rewrite (spanDigits_decimal n c s Hc), decimal_nonempty.
  cbn [stripPrefix]. now rewrite Hq.
Qed.

Lemma matchTokens_last_group (n : N) :
  matchTokens [Digits] (decimal n) = Some [decimal n].
Proof.
  cbn [matchTokens].
  now rewrite spanDigits_decimal_end, decimal_nonempty.
Qed.

(** The text of a path whose last two levels are not hardened. *)
Definition mixedPath (p c a g i : N) : string :=
  "m/" ++ decimal p ++ "'/" ++ decimal c ++ "'/" ++ decimal a ++ "'/"
       ++ decimal g ++ "/" ++ decimal i.

(** The text of a path with five hardened levels. *)
Definition hardenedPath (p c a g i : N) : string :=
  "m/" ++ decimal p ++ "'/" ++ decimal c ++ "'/" ++ decimal a ++ "'/"
       ++ decimal g ++ "'/" ++ decimal i ++ "'".

Lemma matchTokens_hardened (p c a g i : N) :
  matchTokens hardenedRegex (hardenedPath p c a g i)
  = Some [decimal p; decimal c; decimal a; decimal g; decimal i].
Proof. apply matchTokens_format. Qed.

Lemma matchTokens_hardened_mixed (p c a g i : N) :
  matchTokens hardenedRegex (mixedPath p c a g i) = None.
Proof.
  unfold hardenedRegex, mixedPath.
  rewrite matchTokens_lit.
  rewrite !matchTokens_group by reflexivity.
  change ("/" ++ decimal i) with (String "/" (decimal i)).
  now rewrite matchTokens_group_mismatch.
Qed.

Lemma matchTokens_mixed (p c a g i : N) :
  matchTokens mixedRegex (mixedPath p c a g i)
  = Some [decimal p; decimal c; decimal a; decimal g; decimal i].
Proof.
  unfold mixedRegex, mixedPath.
  rewrite matchTokens_lit.
  rewrite !matchTokens_group by reflexivity.
  now rewrite matchTokens_last_group.
Qed.

Lemma componentsOfMatch_decimal (p c a g i : N) :
  componentsOfMatch [decimal p; decimal c; decimal a; decimal g; decimal i]
  = mkComponents p c a g i.
Proof.
  unfold componentsOfMatch. cbn [nth].
  now rewrite !parseInt10_decimal.
Qed.

(** [Number.MAX_SAFE_INTEGER], 2^53 - 1: up to it [parseInt] returns
    the number that is written. *)
Definition MAX_SAFE_INTEGER : N := 9007199254740991.

(** X1.  [parseDerivationPath] reads a path whose last two levels are
    not hardened, and reads it to the same components as the path with
    all five levels hardened: the two texts are told apart by nothing in
    the result.  The five numbers are safe integers, at most 2^53 - 1,
    which [parseInt] returns as they are written. *)
Theorem parse_mixed_as_hardened (p c a g i : N) :
  p <= MAX_SAFE_INTEGER -> c <= MAX_SAFE_INTEGER ->
  a <= MAX_SAFE_INTEGER -> g <= MAX_SAFE_INTEGER ->
  i <= MAX_SAFE_INTEGER ->
  parseDerivationPath (mixedPath p c a g i) = Ok (mkComponents p c a g i)
  /\ parseDerivationPath (hardenedPath p c a g i)
     = Ok (mkComponents p c a g i)
  /\ mixedPath p c a g i <> hardenedPath p c a g i.
Proof.
  intros _ _ _ _ _.
  unfold parseDerivationPath.
  rewrite matchTokens_hardened_mixed, matchTokens_mixed, matchTokens_hardened.
  rewrite componentsOfMatch_decimal.
  repeat split.
  intros H.
  assert (E : matchTokens hardenedRegex (mixedPath p c a g i)
              = matchTokens hardenedRegex (hardenedPath p c a g i))
    by now rewrite H.
  rewrite matchTokens_hardened_mixed, matchTokens_hardened in E.
  discriminate E.
Qed.

Lemma parse_mixed_as_hardened_witness :
  parseDerivationPath "m/44'/501'/7'/0/3" = Ok (mkComponents 44 501 7 0 3)
  /\ parseDerivationPath "m/44'/501'/7'/0'/3'"
     = Ok (mkComponents 44 501 7 0 3).
Proof.
  destruct (@parse_mixed_as_hardened 44 501 7 0 3)
    as (Hmixed & Hhardened & _);
    try (unfold MAX_SAFE_INTEGER; lia).
  split; [exact Hmixed | exact Hhardened].
Defined.

(** *** Numbers printed with an exponent *)

Lemma stripTrailingZeros_uint (d : Decimal.uint) :
  stripTrailingZeros (NilEmpty.string_of_uint d) = EmptyString ->
  N.of_uint d = 0.
Proof.
  induction d; cbn [NilEmpty.string_of_uint stripTrailingZeros]; intros H;
    try reflexivity;
    try (destruct (stripTrailingZeros (NilEmpty.string_of_uint d));
         discriminate H).
  destruct (stripTrailingZeros (NilEmpty.string_of_uint d)) eqn:E;
    [|discriminate H].
  apply IHd. reflexivity.
Qed.

Lemma stripTrailingZeros_decimal (n : N) :
  0 < n -> stripTrailingZeros (decimal n) <> EmptyString.
Proof.
  intros Hn H. apply stripTrailingZeros_uint in H.
  rewrite DecimalN.Unsigned.of_to in H. lia.
Qed.

(** From 10^21 on, the text starts with one character followed by a
    point or by the letter e. *)
Lemma exponential_shape (n : N) :
  0 < n ->
  exists d x r,
    exponential n = String d (String x r)
    /\ isDigit x = false
    /\ Ascii.eqb "'" x = false /\ Ascii.eqb "/" x = false.
Proof.
  intros Hn. unfold exponential.
  pose proof (stripTrailingZeros_decimal Hn) as Hz.
  destruct (stripTrailingZeros (decimal n)) as [|d [|y r]];
    [now elim Hz | |]; do 3 eexists; cbn [append]; repeat split.
Qed.

Lemma numberToString_large (n : N) :
  10 ^ 21 <= n -> numberToString n = exponential n.
Proof.
  intros H. unfold numberToString.
  now rewrite (proj2 (N.ltb_ge _ _) H).
Qed.

(** No group followed by a quote or a slash matches such a text. *)
Lemma matchTokens_exponent (n : N) (q : ascii) (l : string)
      (pat : list Token) (s : string) :
  10 ^ 21 <= n -> q = "'"%char \/ q = "/"%char ->
  matchTokens (Digits :: Lit (String q l) :: pat) (numberToString n ++ s)
  = None.
Proof.
  intros Hn Hq. rewrite (numberToString_large Hn).
  destruct (@exponential_shape n) as (d & x & r & -> & Hx & Hquote & Hslash);
    [lia|].
  cbn [matchTokens append spanDigits].
  rewrite Hx.
  destruct (isDigit d); cbn [isEmpty]; [|reflexivity].
  cbn [stripPrefix].
  destruct Hq as [-> | ->]; [now rewrite Hquote | now rewrite Hslash].
Qed.

Definition printsAsDigits (c : DerivationPathComponents) : bool :=
  (purpose c <? 10 ^ 21) && (coinType c <? 10 ^ 21)
  && (account c <? 10 ^ 21) && (change c <? 10 ^ 21)
  && (addressIndex c <? 10 ^ 21).

Lemma small_or_large (n : N) :
  (n <? 10 ^ 21) = true /\ numberToString n = decimal n
  \/ (n <? 10 ^ 21) = false /\ 10 ^ 21 <= n.
Proof.
  destruct (n <? 10 ^ 21) eqn:E.
  - left. split; [reflexivity|].
    apply numberToString_small. now apply N.ltb_lt.
  - right. split; [reflexivity|]. now apply N.ltb_ge.
Qed.

Lemma matchTokens_hardened_format (c : DerivationPathComponents) :
  matchTokens hardenedRegex (formatDerivationPath c)
  = if printsAsDigits c
    then Some [decimal (purpose c); decimal (coinType c);
               decimal (account c); decimal (change c);
               decimal (addressIndex c)]
    else None.
Proof.
  destruct c as [p c a g i].
  unfold printsAsDigits, formatDerivationPath, hardenedRegex.
  cbn [purpose coinType account change addressIndex].
  rewrite matchTokens_lit.
  destruct (small_or_large p) as [[-> ->] | [-> Hp]];
    [|now rewrite matchTokens_exponent by auto].
  rewrite matchTokens_group by reflexivity.
  destruct (small_or_large c) as [[-> ->] | [-> Hc]];
    [|now rewrite matchTokens_exponent by auto].
  rewrite matchTokens_group by reflexivity.
  destruct (small_or_large a) as [[-> ->] | [-> Ha]];
    [|now rewrite matchTokens_exponent by auto].
  rewrite matchTokens_group by reflexivity.
  destruct (small_or_large g) as [[-> ->] | [-> Hg]];
    [|now rewrite matchTokens_exponent by auto].
  rewrite matchTokens_group by reflexivity.
  change (numberToString i ++ "'")
    with (numberToString i ++ "'" ++ EmptyString).
  destruct (small_or_large i) as [[-> ->] | [-> Hi]];
    [|now rewrite matchTokens_exponent by auto].
  now rewrite matchTokens_group by reflexivity.
Qed.

Lemma matchTokens_mixed_format (c : DerivationPathComponents) :
  matchTokens mixedRegex (formatDerivationPath c) = None.
Proof.
  destruct c as [p c a g i].
  unfold formatDerivationPath, mixedRegex.
  cbn [purpose coinType account change addressIndex].
  rewrite matchTokens_lit.
  destruct (small_or_large p) as [[_ ->] | [_ Hp]];
    [|now rewrite matchTokens_exponent by auto].
  rewrite matchTokens_group by reflexivity.
  destruct (small_or_large c) as [[_ ->] | [_ Hc]];
    [|now rewrite matchTokens_exponent by auto].
  rewrite matchTokens_group by reflexivity.
  destruct (small_or_large a) as [[_ ->] | [_ Ha]];
    [|now rewrite matchTokens_exponent by auto].
  rewrite matchTokens_group by reflexivity.
  destruct (small_or_large g) as [[_ ->] | [_ Hg]];
    [|now rewrite matchTokens_exponent by auto].
  change ("'/" ++ numberToString i ++ "'")
    with (String "'" ("/" ++ numberToString i ++ "'")).
  now rewrite matchTokens_group_mismatch.
Qed.

Lemma parse_format_cases (c : DerivationPathComponents) :
  parseDerivationPath (formatDerivationPath c)
  = if printsAsDigits c
    then Ok c
    else Throw (createError INVALID_DERIVATION_PATH
                  ("Invalid derivation path format: "
                     ++ formatDerivationPath c)).
Proof.
  unfold parseDerivationPath.
  rewrite matchTokens_hardened_format, matchTokens_mixed_format.
  destruct (printsAsDigits c); [|reflexivity].
  rewrite componentsOfMatch_decimal. now destruct c.
Qed.

(** X2.  [parseDerivationPath (formatDerivationPath c)] returns [c]
    exactly when all five fields are below 10^21; in every other case
    it throws INVALID_DERIVATION_PATH: the round trip fails for the
    fields that are printed with an exponent, and for no other. *)
Theorem parse_format_exactly (c : DerivationPathComponents) :
  (parseDerivationPath (formatDerivationPath c) = Ok c
   <-> printsAsDigits c = true)
  /\ (printsAsDigits c = false ->
      parseDerivationPath (formatDerivationPath c)
      = Throw (createError INVALID_DERIVATION_PATH
                 ("Invalid derivation path format: "
                    ++ formatDerivationPath c))).
Proof.
  rewrite parse_format_cases.
  destruct (printsAsDigits c); split; try split; try reflexivity;
    discriminate.
Qed.

Definition MAX_INDEX : N := 2147483647.

(** The conditions of [validateSolanaDerivationPath] on components. *)
Definition solanaComponents (c : DerivationPathComponents) : bool :=
  (purpose c =? 44) && (coinType c =? 501)
  && (account c <=? MAX_INDEX) && (change c <=? MAX_INDEX)
  && (addressIndex c <=? MAX_INDEX).

Lemma solanaComponents_small (c : DerivationPathComponents) :
  solanaComponents c = true -> printsAsDigits c = true.
Proof.
  unfold solanaComponents, printsAsDigits, MAX_INDEX.
  rewrite !andb_true_iff, !N.eqb_eq, !N.leb_le, !N.ltb_lt.
  intros ((((-> & ->) & Ha) & Hg) & Hi).
  assert (2147483647 < 10 ^ 21) by reflexivity.
  repeat split; try reflexivity; lia.
Qed.

Lemma validate_components (c : DerivationPathComponents) :
  (if negb (purpose c =? 44) then false
   else if negb (coinType c =? 501) then false
   else if 2147483647 <? account c then false
   else if 2147483647 <? change c then false
   else if 2147483647 <? addressIndex c then false
   else true)
  = solanaComponents c.
Proof.
  unfold solanaComponents, MAX_INDEX.
  rewrite !N.ltb_antisym.
  destruct (purpose c =? 44), (coinType c =? 501),
    (account c <=? 2147483647), (change c <=? 2147483647),
    (addressIndex c <=? 2147483647); reflexivity.
Qed.

(** X3.  [validateSolanaDerivationPath] accepts the text
    [formatDerivationPath] makes of components exactly when the purpose
    is 44, the coin type is 501 and the account, the change and the
    address index are at most 2^31 - 1. *)
Theorem validate_format (c : DerivationPathComponents) :
  validateSolanaDerivationPath (formatDerivationPath c) = solanaComponents c.
Proof.
  unfold validateSolanaDerivationPath.
  rewrite parse_format_cases.
  destruct (printsAsDigits c) eqn:E.
  - apply validate_components.
  - destruct (solanaComponents c) eqn:S; [|reflexivity].
    apply solanaComponents_small in S. congruence.
Qed.

Lemma generateSolanaDerivationPath_format (acc chg idx : N) :
  generateSolanaDerivationPath acc chg idx
  = formatDerivationPath (mkComponents 44 501 acc chg idx).
Proof. reflexivity. Qed.

(** X4.  The path [generateSolanaDerivationPath] makes of an account, a
    change and an address index is accepted by
    [validateSolanaDerivationPath] exactly when the three numbers are at
    most 2^31 - 1, and [parseDerivationPath] then reads it back as
    purpose 44, coin type 501 and the three numbers. *)
Theorem generated_path_validates (acc chg idx : N) :
  validateSolanaDerivationPath (generateSolanaDerivationPath acc chg idx)
  = (acc <=? MAX_INDEX) && (chg <=? MAX_INDEX) && (idx <=? MAX_INDEX)
  /\ (validateSolanaDerivationPath
        (generateSolanaDerivationPath acc chg idx) = true ->
      parseDerivationPath (generateSolanaDerivationPath acc chg idx)
      = Ok (mkComponents 44 501 acc chg idx)).
Proof.
  rewrite generateSolanaDerivationPath_format.
  unfold validateSolanaDerivationPath.
  rewrite parse_format_cases.
  destruct (printsAsDigits (mkComponents 44 501 acc chg idx)) eqn:E.
  - split; [|reflexivity].
    rewrite validate_components. reflexivity.
  - split; [|discriminate].
    destruct ((acc <=? MAX_INDEX) && (chg <=? MAX_INDEX)
              && (idx <=? MAX_INDEX)) eqn:S; [|reflexivity].
    assert (S' : solanaComponents (mkComponents 44 501 acc chg idx) = true)
      by exact S.
    apply solanaComponents_small in S'. congruence.
Qed.

End DerivationFacts.


(** ** Sorting *)

Module SortFacts.

Section WithOrder.
Context {A : Type}.
Variable before : A -> A -> bool.

Lemma insertSorted_perm (x : A) (l : list A) :
  Permutation (insertSorted before x l) (x :: l).
Proof.
  induction l as [|y l IH]; cbn; [reflexivity|].
  destruct (before x y); [reflexivity|].
  rewrite IH. apply perm_swap.
Qed.

Lemma stableSort_perm (l : list A) : Permutation (stableSort before l) l.
Proof.
  induction l as [|x l IH]; cbn; [reflexivity|].
  fold (stableSort before l).
  rewrite insertSorted_perm. now constructor.
Qed.

Lemma In_stableSort (x : A) (l : list A) :
  In x (stableSort before l) <-> In x l.
Proof.
  split; apply Permutation_in;
    [apply stableSort_perm | symmetry; apply stableSort_perm].
Qed.

Lemma length_stableSort (l : list A) :
  List.length (stableSort before l) = List.length l.
Proof. apply Permutation_length, stableSort_perm. Qed.

Hypothesis before_total :
  forall a b, before a b = false -> before b a = true.
Hypothesis before_trans :
  forall a b c, before a b = true -> before b c = true -> before a c = true.

Definition Ordered : list A -> Prop :=
  StronglySorted (fun a b => before a b = true).

Lemma insertSorted_ordered (x : A) (l : list A) :
  Ordered l -> Ordered (insertSorted before x l).
Proof.
  unfold Ordered. induction 1 as [|y l Hl IH Hy]; cbn.
  - repeat constructor.
  - destruct (before x y) eqn:E.
    + constructor; [now constructor|].
      constructor; [exact E|].
      rewrite Forall_forall in *. intros z Hz.
      apply before_trans with y; [exact E | now apply Hy].
    + constructor; [exact IH|].
      rewrite Forall_forall in *. intros z Hz.
      apply (Permutation_in _ (insertSorted_perm x l)) in Hz.
      destruct Hz as [<- | Hz]; [now apply before_total | now apply Hy].
Qed.

Lemma stableSort_ordered (l : list A) : Ordered (stableSort before l).
Proof.
  induction l as [|x l IH]; cbn; [constructor|].
  now apply insertSorted_ordered.
Qed.

End WithOrder.

Lemma StronglySorted_weaken {A} (R R' : A -> A -> Prop) (l : list A) :
  (forall a b, R a b -> R' a b) ->
  StronglySorted R l -> StronglySorted R' l.
Proof.
  intros HR. induction 1 as [|x l Hl IH Hx]; constructor; [exact IH|].
  rewrite Forall_forall in *. intros y Hy. apply HR. now apply Hx.
Qed.

(** Orders by a numeric key, as the comparators of the sources are. *)
Section ByKey.
Context {A : Type}.
Variable key : A -> N.

Lemma descending_ordered (l : list A) :
  StronglySorted (fun a b => key b <= key a)
                 (stableSort (fun a b => key b <=? key a) l).
Proof.
  apply StronglySorted_weaken
    with (R := fun a b => (key b <=? key a) = true).
  - intros a b E. now apply N.leb_le.
  - apply stableSort_ordered.
    + intros a b E. apply N.leb_gt in E. apply N.leb_le. lia.
    + intros a b c E1 E2. apply N.leb_le in E1, E2. apply N.leb_le. lia.
Qed.

Lemma ascending_ordered (l : list A) :
  StronglySorted (fun a b => key a <= key b)
                 (stableSort (fun a b => key a <=? key b) l).
Proof.
  apply StronglySorted_weaken
    with (R := fun a b => (key a <=? key b) = true).
  - intros a b E. now apply N.leb_le.
  - apply stableSort_ordered.
    + intros a b E. apply N.leb_gt in E. apply N.leb_le. lia.
    + intros a b c E1 E2. apply N.leb_le in E1, E2. apply N.leb_le. lia.
Qed.

End ByKey.

End SortFacts.

(** ** Maps with distinct keys *)

Module MapFacts.

Section WithValue.
Context {V : Type}.
Implicit Types (m : JsMap.t V) (k : string) (v : V).

Definition keys m : list string := map fst m.

(** A [Map] holds a key once. *)
Definition wellFormed m : Prop := NoDup (keys m).

Lemma get_None_keys k m : JsMap.get k m = None <-> ~ In k (keys m).
Proof.
  unfold keys. induction m as [|[k' v'] m IH]; cbn; [tauto|].
  destruct (String.eqb k k') eqn:E.
  - apply String.eqb_eq in E. subst. split; [discriminate | tauto].
  - apply String.eqb_neq in E. rewrite IH. split; [|tauto].
    intros H [H'|H']; [congruence | tauto].
Qed.

Lemma get_Some_In k v m : JsMap.get k m = Some v -> In (k, v) m.
Proof.
  unfold keys. induction m as [|[k' v'] m IH]; cbn; [discriminate|].
  destruct (String.eqb k k') eqn:E.
  - apply String.eqb_eq in E. subst. intros [= ->]. now left.
  - intros H. right. now apply IH.
Qed.

Lemma In_get k v m : wellFormed m -> In (k, v) m -> JsMap.get k m = Some v.
Proof.
  unfold wellFormed, keys.
  induction m as [|[k' v'] m IH]; cbn; [tauto|].
  intros Hnd [H|H]; inversion Hnd as [|? ? Hk Hm]; subst.
  - injection H as -> ->. now rewrite String.eqb_refl.
  - destruct (String.eqb k k') eqn:E; [|now apply IH].
    apply String.eqb_eq in E. subst. elim Hk.
    change k' with (fst (k', v)). now apply in_map.
Qed.

Lemma keys_set_present k v m :
  In k (keys m) -> keys (JsMap.set k v m) = keys m.
Proof.
  unfold keys. induction m as [|[k' v'] m IH]; cbn; [tauto|].
  destruct (String.eqb k k') eqn:E.
  - apply String.eqb_eq in E. now subst.
  - apply String.eqb_neq in E. intros [H|H]; [congruence|].
    cbn. now rewrite IH.
Qed.

Lemma set_absent k v m :
  ~ In k (keys m) -> JsMap.set k v m = (m ++ [(k, v)])%list.
Proof.
  unfold keys. induction m as [|[k' v'] m IH]; cbn; [reflexivity|].
  intros H. destruct (String.eqb k k') eqn:E.
  - apply String.eqb_eq in E. subst. tauto.
  - rewrite IH; [reflexivity | tauto].
Qed.

Lemma wellFormed_set k v m : wellFormed m -> wellFormed (JsMap.set k v m).
Proof.
  unfold wellFormed. intros H.
  destruct (in_dec string_dec k (keys m)) as [Hin|Hout].
  - now rewrite keys_set_present.
  - rewrite set_absent by assumption. unfold keys.
    rewrite map_app. cbn.
    apply NoDup_app; [exact H | repeat constructor; tauto |].
    intros x Hx [<- | []]. exact (Hout Hx).
Qed.

Lemma keys_delete k m :
  wellFormed m -> keys (JsMap.delete k m) = List.remove string_dec k (keys m).
Proof.
  unfold wellFormed, keys.
  induction m as [|[k' v'] m IH]; cbn; [reflexivity|].
  intros Hnd. inversion Hnd as [|? ? Hk Hm]; subst.
  destruct (String.eqb k k') eqn:E.
  - apply String.eqb_eq in E. subst.
    destruct (string_dec k' k'); [|congruence].
    symmetry. now apply notin_remove.
  - apply String.eqb_neq in E.
    destruct (string_dec k k'); [congruence|].
    cbn. now rewrite IH.
Qed.

Lemma NoDup_remove_key k (l : list string) :
  NoDup l -> NoDup (List.remove string_dec k l).
Proof.
  induction 1 as [|x l Hx Hl IH]; cbn; [constructor|].
  destruct (string_dec k x); [exact IH|].
  constructor; [|exact IH].
  intros Hin. apply in_remove in Hin. tauto.
Qed.

Lemma wellFormed_delete k m :
  wellFormed m -> wellFormed (JsMap.delete k m).
Proof.
  intros H. unfold wellFormed. rewrite keys_delete by assumption.
  now apply NoDup_remove_key.
Qed.

Lemma get_delete_same k m :
  wellFormed m -> JsMap.get k (JsMap.delete k m) = None.
Proof.
  intros H. apply get_None_keys. rewrite keys_delete by assumption.
  apply remove_In.
Qed.

Lemma get_delete_other k k' m :
  k' <> k -> JsMap.get k' (JsMap.delete k m) = JsMap.get k' m.
Proof.
  intros Hne.
  assert (Hkk : String.eqb k' k = false) by now apply String.eqb_neq.
  induction m as [|[k0 v0] m IH]; cbn; [reflexivity|].
  destruct (String.eqb k k0) eqn:E; cbn.
  - apply String.eqb_eq in E. subst k0. now rewrite Hkk.
  - now rewrite IH.
Qed.

Lemma delete_absent k m : ~ In k (keys m) -> JsMap.delete k m = m.
Proof.
  unfold keys. induction m as [|[k' v'] m IH]; cbn; [reflexivity|].
  intros H. destruct (String.eqb k k') eqn:E.
  - apply String.eqb_eq in E. subst. tauto.
  - rewrite IH; [reflexivity | tauto].
Qed.

Lemma length_delete_present k m :
  In k (keys m) -> S (List.length (JsMap.delete k m)) = List.length m.
Proof.
  unfold keys. induction m as [|[k' v'] m IH]; cbn; [tauto|].
  destruct (String.eqb k k') eqn:E; [reflexivity|].
  apply String.eqb_neq in E. intros [H|H]; [congruence|].
  cbn. now rewrite IH.
Qed.

Lemma In_delete k kv m : In kv (JsMap.delete k m) -> In kv m.
Proof.
  unfold keys. induction m as [|[k' v'] m IH]; cbn; [tauto|].
  destruct (String.eqb k k'); [tauto|].
  cbn. intros [H|H]; [now left | right; now apply IH].
Qed.

Lemma In_delete_other k kv m :
  fst kv <> k -> In kv m -> In kv (JsMap.delete k m).
Proof.
  unfold keys. induction m as [|[k' v'] m IH]; cbn; [tauto|].
  intros Hne [H|H].
  - subst kv. cbn in Hne.
    destruct (String.eqb k k') eqn:E.
    + apply String.eqb_eq in E. congruence.
    + now left.
  - destruct (String.eqb k k'); [exact H|].
    right. now apply IH.
Qed.

End WithValue.

End MapFacts.

(** ** The storage *)

Module StorageFacts.
Import Types Storage.

Lemma insertByLastUsed_insertSorted (w : Wallet) (l : list Wallet) :
  insertByLastUsed w l
  = insertSorted (fun a b => lastUsed b <=? lastUsed a) w l.
Proof.
  induction l as [|x l IH]; cbn; [reflexivity|].
  now rewrite IH.
Qed.

Lemma sortByLastUsed_stableSort (l : list Wallet) :
  sortByLastUsed l = stableSort (fun a b => lastUsed b <=? lastUsed a) l.
Proof.
  induction l as [|x l IH]; cbn; [reflexivity|].
  fold (sortByLastUsed l).
  fold (stableSort (fun a b => lastUsed b <=? lastUsed a) l).
  now rewrite IH, insertByLastUsed_insertSorted.
Qed.

(** X5.  [loadAllWallets] returns every stored wallet once, no other,
    the most recently used first. *)
Theorem loadAllWallets_sorted (s : State) :
  Permutation (loadAllWallets s) (JsMap.values (wallets s))
  /\ StronglySorted (fun a b => lastUsed b <= lastUsed a)
                    (loadAllWallets s).
Proof.
  unfold loadAllWallets. rewrite sortByLastUsed_stableSort.
  split; [apply SortFacts.stableSort_perm|].
  apply (SortFacts.descending_ordered lastUsed).
Qed.

(** What was saved under an id is what is loaded under it, until it
    is saved again or deleted. *)
Lemma loadWallet_saveWallet (w : Wallet) (s : State) :
  loadWallet (id w) (saveWallet w s) = Some w.
Proof. apply JsMapFacts.get_set_same. Qed.

Lemma loadWallet_saveWallet_other (w : Wallet) (k : string) (s : State) :
  k <> id w -> loadWallet k (saveWallet w s) = loadWallet k s.
Proof. intros H. now apply JsMapFacts.get_set_other. Qed.

Lemma loadWallet_deleteWallet (k : string) (s : State) :
  MapFacts.wellFormed (wallets s) ->
  loadWallet k (deleteWallet k s) = None.
Proof. intros H. now apply MapFacts.get_delete_same. Qed.

Lemma loadWallet_deleteWallet_other (k k' : string) (s : State) :
  k' <> k -> loadWallet k' (deleteWallet k s) = loadWallet k' s.
Proof. intros H. now apply MapFacts.get_delete_other. Qed.

End StorageFacts.


(** ** The vault: guards, locking and what its operations keep *)

Module VaultStateFacts.
Import Types SeedVaultMock VaultFacts.
Local Open Scope eff_scope.

Definition notInitialized : JsError :=
  createError VAULT_LOCKED "Seed Vault is not initialized".

Lemma ensureInitialized_false {A} (k : unit -> M State A) v :
  isInitialized v = false ->
  bindM ensureInitialized k v = (Throw notInitialized, v).
Proof. intros Hi. unfold bindM, ensureInitialized. now rewrite Hi. Qed.

Lemma ensureUnlocked_false {A} (k : unit -> M State A) v :
  isInitialized v = false ->
  bindM ensureUnlocked k v = (Throw notInitialized, v).
Proof.
  intros Hi. unfold bindM, ensureUnlocked, ensureInitialized, bindM.
  now rewrite Hi.
Qed.

(** *** What the wallet operations leave alone *)

(** Everything but the stored wallets and the stored configuration. *)
Definition sameControl (v v' : State) : Prop :=
  isInitialized v' = isInitialized v
  /\ isLocked v' = isLocked v
  /\ masterPassword v' = masterPassword v
  /\ config v' = config v
  /\ lockTimeout v' = lockTimeout v
  /\ lastActivity v' = lastActivity v
  /\ Storage.kind (storage v') = Storage.kind (storage v)
  /\ Storage.locked (storage v') = Storage.locked (storage v).

Lemma sameControl_refl v : sameControl v v.
Proof. now repeat split. Qed.

Lemma sameControl_trans v1 v2 v3 :
  sameControl v1 v2 -> sameControl v2 v3 -> sameControl v1 v3.
Proof.
  unfold sameControl. intuition congruence.
Qed.

Definition StorageOnly {A} (m : M State A) : Prop :=
  forall v, sameControl v (snd (m v)).

Lemma StorageOnly_ret {A} (a : A) : StorageOnly (ret a).
Proof. intros v. apply sameControl_refl. Qed.

Lemma StorageOnly_throw {A} (e : JsError) : StorageOnly (@throw State A e).
Proof. intros v. apply sameControl_refl. Qed.

Lemma StorageOnly_lift {A} (r : Result A) : StorageOnly (lift r).
Proof. intros v. apply sameControl_refl. Qed.

Lemma StorageOnly_gets {A} (f : State -> A) : StorageOnly (gets f).
Proof. intros v. apply sameControl_refl. Qed.

Lemma StorageOnly_bind {A B} (m : M State A) (k : A -> M State B) :
  StorageOnly m -> (forall a, StorageOnly (k a)) -> StorageOnly (bindM m k).
Proof.
  intros Hm Hk v. unfold bindM. specialize (Hm v).
  destruct (m v) as [[a|e] v1]; cbn [snd] in *; [|exact Hm].
  apply sameControl_trans with v1; [exact Hm | apply Hk].
Qed.

Lemma StorageOnly_tryCatch {A} (m : M State A) (h : JsError -> M State A) :
  StorageOnly m -> (forall e, StorageOnly (h e)) ->
  StorageOnly (tryCatch m h).
Proof.
  intros Hm Hh v. unfold tryCatch. specialize (Hm v).
  destruct (m v) as [[a|e] v1]; cbn [snd] in *; [exact Hm|].
  apply sameControl_trans with v1; [exact Hm | apply Hh].
Qed.

Lemma StorageOnly_save (w : Wallet) :
  StorageOnly (modify (withStorage (Storage.saveWallet w))).
Proof. intros v. now repeat split. Qed.

Lemma StorageOnly_delete (k : string) :
  StorageOnly (modify (withStorage (Storage.deleteWallet k))).
Proof. intros v. now repeat split. Qed.

Lemma StorageOnly_requireWallet (k : string) : StorageOnly (requireWallet k).
Proof.
  intros v. unfold requireWallet.
  destruct (Storage.loadWallet k (storage v)); apply sameControl_refl.
Qed.

Lemma StorageOnly_rethrow {A} (prefix : string) (e : JsError) :
  StorageOnly (@rethrow A prefix e).
Proof.
  intros v. unfold rethrow. destruct (code e); apply sameControl_refl.
Qed.

Section WithPrimitives.
Context {P : Primitives}.

Lemma StorageOnly_decrypt (w : Wallet) : StorageOnly (decryptKeyMaterial w).
Proof. intros v. apply sameControl_refl. Qed.

Lemma StorageOnly_encrypt mn kp g : StorageOnly (encryptKeyMaterial mn kp g).
Proof.
  intros v. unfold encryptKeyMaterial.
  destruct (CryptoUtils.encrypt _ _ _). apply sameControl_refl.
Qed.

End WithPrimitives.

Ltac storage_only :=
  repeat first
    [ apply StorageOnly_ret | apply StorageOnly_throw
    | apply StorageOnly_lift | apply StorageOnly_gets
    | apply StorageOnly_save | apply StorageOnly_delete
    | apply StorageOnly_requireWallet | apply StorageOnly_rethrow
    | apply StorageOnly_decrypt | apply StorageOnly_encrypt
    | apply StorageOnly_bind; [|intros ?]
    | apply StorageOnly_tryCatch; [|intros ?]
    | progress cbv zeta
    | progress unfold simulateUserConfirmation
    | match goal with
      | |- StorageOnly (match ?x with _ => _ end) => destruct x
      | |- StorageOnly (if ?b then _ else _) => destruct b
      end ].

(** A method that starts with [ensureUnlocked] and [updateActivity] and
    then touches the storage only: it stops at its guard, or runs on an
    unlocked vault and leaves it unlocked. *)
Lemma guarded_operation {A} (body : M State A) now v :
  StorageOnly body ->
  let v' := snd ((ensureUnlocked ;; updateActivity now ;; body) v) in
  (v' = v /\ (isInitialized v = false \/ isLocked v = true))
  \/ (isInitialized v = true /\ isLocked v = false
      /\ sameControl (snd (updateActivity now v)) v').
Proof.
  intros Hbody. cbv zeta.
  destruct (isInitialized v) eqn:Hi.
  - destruct (isLocked v) eqn:Hl.
    + left. rewrite locked_prefix by assumption. split; [reflexivity|].
      now right.
    + right. rewrite unlocked_prefix by assumption.
      split; [reflexivity|]. split; [reflexivity|]. apply Hbody.
  - left. rewrite ensureUnlocked_false by assumption.
    split; [reflexivity | now left].
Qed.


(** The two ways a guarded operation ends. *)
Definition Guarded (now : Time) (v v' : State) : Prop :=
  (v' = v /\ (isInitialized v = false \/ isLocked v = true))
  \/ (isInitialized v = true /\ isLocked v = false
      /\ sameControl (snd (updateActivity now v)) v').

Lemma listWallets_result now v :
  isInitialized v = true -> isLocked v = false ->
  fst (listWallets now v) = Ok (Storage.loadAllWallets (storage v)).
Proof.
  intros Hi Hl. unfold listWallets.
  rewrite unlocked_prefix by assumption. unfold gets. cbn [fst].
  destruct (updateActivity_frame now v) as (Hs & _). now rewrite Hs.
Qed.

Lemma getWallet_result wid now v :
  isInitialized v = true -> isLocked v = false ->
  fst (getWallet wid now v) = Ok (Storage.loadWallet wid (storage v)).
Proof.
  intros Hi Hl. unfold getWallet.
  rewrite unlocked_prefix by assumption. unfold gets. cbn [fst].
  destruct (updateActivity_frame now v) as (Hs & _). now rewrite Hs.
Qed.

(** [lock] on an unlocked vault. *)
Definition lockedState (v : State) : State :=
  let v1 := setMasterPassword None (setLocked true v) in
  setLockTimeout None
    (if Storage.instanceofFileSystemStorage (storage v1)
     then withStorage Storage.createLock v1 else v1).

Lemma lock_unlocked v :
  isInitialized v = true -> isLocked v = false ->
  lock v = (Ok tt, lockedState v).
Proof.
  intros Hi Hl. unfold lock, bindM at 1, ensureInitialized.
  rewrite Hi. cbn [negb]. rewrite Hl.
  unfold lockedState, bindM, modify, clearLockTimeout. cbn [snd fst].
  now destruct (Storage.instanceofFileSystemStorage _).
Qed.

Lemma lockedState_frame v :
  isInitialized (lockedState v) = isInitialized v
  /\ isLocked (lockedState v) = true
  /\ masterPassword (lockedState v) = None
  /\ lockTimeout (lockedState v) = None
  /\ Storage.wallets (storage (lockedState v)) = Storage.wallets (storage v).
Proof.
  unfold lockedState. cbv zeta.
  destruct (Storage.instanceofFileSystemStorage _); now repeat split.
Qed.

(** [CryptoUtils.parseDerivationPath] throws one error only, and it is
    not VAULT_LOCKED. *)
Lemma parseDerivationPath_not_locked path :
  ~ Spec.throwsVaultLocked (CryptoUtils.parseDerivationPath path).
Proof.
  unfold Spec.throwsVaultLocked, CryptoUtils.parseDerivationPath.
  intros [msg H].
  destruct (CryptoUtils.matchTokens CryptoUtils.hardenedRegex path);
    [discriminate H|].
  destruct (CryptoUtils.matchTokens CryptoUtils.mixedRegex path);
    discriminate H.
Qed.

Section WithPrimitives.
Context {P : Primitives}.

Lemma exportWallet_result wid now v :
  isInitialized v = true -> isLocked v = false ->
  fst (exportWallet wid now v)
  = match Storage.loadWallet wid (storage v) with
    | None => Throw (notFound wid)
    | Some w =>
        match bind (CryptoUtils.decrypt (encryptedPrivateKey w)
                                        (masterPassword v))
                   JSON_parse with
        | Ok km =>
            Ok (mkWalletExport (profile w) (km_mnemonic km) (publicKey w)
                               (createdAt w))
        | Throw e =>
            Throw (createError DECRYPTION_FAILED
                     ("Failed to export wallet: " ++ message e))
        end
    end.
Proof.
  intros Hi Hl. unfold exportWallet.
  rewrite unlocked_prefix by assumption.
  destruct (updateActivity_frame now v) as (Hs & _ & _ & Hp & _).
  unfold bindM at 1, requireWallet. rewrite Hs.
  destruct (Storage.loadWallet wid (storage v)) as [w|]; [|reflexivity].
  unfold tryCatch, bindM, decryptKeyMaterial, throw, ret. rewrite Hp.
  now destruct (bind _ _).
Qed.

(** X6.  On a vault that was never initialized each of the fifteen
    operations that start with a guard ([lock], [unlock], [getStatus],
    [reset] and the wallet, key and signing operations) throws
    VAULT_LOCKED with the message that the vault is not initialized, and
    changes nothing.  The two batch operations, which have no guard of
    their own, throw it for the first item; on an empty batch they
    return an empty list without looking at the vault at all.  The four
    helpers [validateMnemonic], [generateMnemonic],
    [parseDerivationPath] and [formatDerivationPath] have no guard
    either: on such a vault too they answer as the functions of
    [CryptoUtils] do, and never with VAULT_LOCKED.  With [initialize],
    these are all the public methods of the class. *)
Theorem uninitialized_vault v :
  isInitialized v = false ->
  lock v = (Throw notInitialized, v)
  /\ (forall pw now, unlock pw now v = (Throw notInitialized, v))
  /\ getStatus v = (Throw notInitialized, v)
  /\ reset v = (Throw notInitialized, v)
  /\ (forall prof now g,
         generateWallet prof now g v = (Throw notInitialized, v))
  /\ (forall prof mn now g,
         importWallet prof mn now g v = (Throw notInitialized, v))
  /\ (forall wid now, exportWallet wid now v = (Throw notInitialized, v))
  /\ (forall now, listWallets now v = (Throw notInitialized, v))
  /\ (forall wid now, getWallet wid now v = (Throw notInitialized, v))
  /\ (forall wid now, deleteWallet wid now v = (Throw notInitialized, v))
  /\ (forall wid path now,
         deriveKeypair wid path now v = (Throw notInitialized, v))
  /\ (forall wid c now,
         deriveKeypairFromComponents wid c now v
         = (Throw notInitialized, v))
  /\ (forall wid now, getPublicKey wid now v = (Throw notInitialized, v))
  /\ (forall wid tx auto now,
         signTransaction wid tx auto now v = (Throw notInitialized, v))
  /\ (forall wid msg auto now,
         signMessage wid msg auto now v = (Throw notInitialized, v))
  /\ (forall wid tx txs auto now,
         signTransactions wid (tx :: txs) auto now v
         = (Throw notInitialized, v))
  /\ (forall wid msg msgs auto now,
         signMessages wid (msg :: msgs) auto now v
         = (Throw notInitialized, v))
  /\ (forall wid auto now,
         signTransactions wid [] auto now v = (Ok [], v)
         /\ signMessages wid [] auto now v = (Ok [], v))
  /\ (forall mn,
         validateMnemonic mn v = (Ok (CryptoUtils.validateMnemonic mn), v))
  /\ (forall strength g,
         generateMnemonic strength g v
         = (Ok (fst (CryptoUtils.generateMnemonic
                       (match strength with Some s => s | None => 128 end)
                       g)), v))
  /\ (forall path,
         parseDerivationPath path v = (CryptoUtils.parseDerivationPath path, v)
         /\ ~ Spec.throwsVaultLocked (CryptoUtils.parseDerivationPath path))
  /\ (forall c,
         formatDerivationPath c v
         = (Ok (CryptoUtils.formatDerivationPath c), v)).
Proof.
  intros Hi.
  assert (Htx : forall wid tx auto now,
             signTransaction wid tx auto now v = (Throw notInitialized, v))
    by (intros; now apply ensureUnlocked_false).
  assert (Hmsg : forall wid msg auto now,
             signMessage wid msg auto now v = (Throw notInitialized, v))
    by (intros; now apply ensureUnlocked_false).
  repeat match goal with
         | |- _ /\ _ => split
         | |- ~ _ => apply parseDerivationPath_not_locked
         | |- forall _, _ => intro
         end;
    try (now apply ensureUnlocked_false);
    try (now apply ensureInitialized_false);
    try reflexivity.
  - cbn [signTransactions]. unfold bindM at 1. now rewrite Htx.
  - cbn [signMessages]. unfold bindM at 1. now rewrite Hmsg.
Qed.

(** X7.  Locking an unlocked vault and unlocking it again with the same
    password gives back the same wallets: [listWallets] and
    [exportWallet] answer as they did before.  While the vault is
    unlocked, [unlock] is a no-op whatever password it is given: the
    password is not looked at and the master password stays. *)
Theorem lock_unlock_roundtrip v pw t :
  isInitialized v = true -> isLocked v = false ->
  masterPassword v = Some pw -> (4 <= String.length pw)%nat ->
  (forall pw' t', unlock pw' t' v = (Ok tt, v))
  /\ exists v1 v2,
       lock v = (Ok tt, v1)
       /\ isLocked v1 = true /\ masterPassword v1 = None
       /\ unlock pw t v1 = (Ok tt, v2)
       /\ isLocked v2 = false /\ masterPassword v2 = Some pw
       /\ (forall t', fst (listWallets t' v2) = fst (listWallets t' v))
       /\ (forall wid t',
              fst (exportWallet wid t' v2) = fst (exportWallet wid t' v)).
Proof.
  intros Hi Hl Hp Hlen. split.
  { intros pw' t'. unfold unlock, bindM at 1, ensureInitialized.
    rewrite Hi. cbn [negb]. now rewrite Hl. }
  destruct (lockedState_frame v) as (Hi1 & Hl1 & Hp1 & _ & Hw1).
  rewrite Hi in Hi1.
  assert (Hpw : (isEmpty pw || Nat.ltb (String.length pw) 4) = false).
  { destruct (isEmpty pw || Nat.ltb (String.length pw) 4) eqn:E;
      [|reflexivity].
    apply UnlockFacts.short_password in E. lia. }
  destruct (UnlockFacts.unlocked_frame pw t (lockedState v))
    as (Hi2 & Hl2 & Hp2 & Hw2).
  rewrite Hi1 in Hi2. rewrite Hw1 in Hw2.
  exists (lockedState v), (UnlockFacts.unlocked pw t (lockedState v)).
  split; [now apply lock_unlocked|].
  split; [exact Hl1|]. split; [exact Hp1|].
  split; [now apply UnlockFacts.unlock_accepts|].
  split; [exact Hl2|]. split; [exact Hp2|].
  split.
  - intros t'. rewrite !listWallets_result by assumption.
    unfold Storage.loadAllWallets. now rewrite Hw2.
  - intros wid t'. rewrite !exportWallet_result by assumption.
    unfold Storage.loadWallet. now rewrite Hw2, Hp2, Hp.
Qed.

End WithPrimitives.

Lemma uninitialized_vault_witness :
  isInitialized (constructor None true 0) = false
  /\ lock (constructor None true 0)
     = (Throw notInitialized, constructor None true 0)
  /\ getStatus (constructor None true 0)
     = (Throw notInitialized, constructor None true 0)
  /\ parseDerivationPath "m/44'/501'/0'/0'/0'" (constructor None true 0)
     = (Ok (CryptoUtils.mkComponents 44 501 0 0 0), constructor None true 0).
Proof.
  pose proof (@uninitialized_vault Toy.primitives (constructor None true 0)
                eq_refl) as H.
  split; [reflexivity|]. split; [apply H|]. split; [apply H|].
  destruct H as (_ & _ & _ & _ & _ & _ & _ & _ & _ & _ & _ & _ & _ & _ & _
                 & _ & _ & _ & _ & _ & Hparse & _).
  now rewrite (proj1 (Hparse "m/44'/501'/0'/0'/0'")).
Defined.

Lemma lock_unlock_roundtrip_witness :
  exists v1 v2,
    lock Toy.vaultWithWallet = (Ok tt, v1)
    /\ unlock "test-password" 9 v1 = (Ok tt, v2)
    /\ fst (exportWallet (P := Toy.primitives) Toy.testWalletId 10 v2)
       = fst (exportWallet (P := Toy.primitives) Toy.testWalletId 10
                           Toy.vaultWithWallet).
Proof.
  destruct (@lock_unlock_roundtrip Toy.primitives Toy.vaultWithWallet
              "test-password" 9 eq_refl eq_refl eq_refl)
    as (_ & v1 & v2 & H1 & _ & _ & H2 & _ & _ & _ & H3).
  - cbn. lia.
  - exists v1, v2. split; [exact H1|]. split; [exact H2|]. apply H3.
Defined.

End VaultStateFacts.


(** ** The vault: a locked vault keeps no password *)

Module VaultInvariantFacts.
Import Types SeedVaultMock VaultFacts VaultStateFacts.
Local Open Scope eff_scope.

(** A locked vault holds no master password and no pending auto-lock
    timer; the lock marker of the storage is only there on a file
    storage, and only while the vault is locked. *)
Definition Clean (v : State) : Prop :=
  (isLocked v = true -> masterPassword v = None /\ lockTimeout v = None)
  /\ (Storage.locked (storage v) = true ->
      Storage.instanceofFileSystemStorage (storage v) = true
      /\ isLocked v = true).

Lemma updateActivity_timer now v :
  isLocked v = true ->
  lockTimeout (snd (updateActivity now v)) = lockTimeout v.
Proof.
  intros Hl. unfold updateActivity, bindM, modify. cbn.
  rewrite Hl, andb_false_r. reflexivity.
Qed.

Lemma Clean_updateActivity now v :
  Clean v -> Clean (snd (updateActivity now v)).
Proof.
  intros [H1 H2].
  destruct (updateActivity_frame now v) as (Hs & _ & Hl & Hp & _).
  split.
  - rewrite Hl, Hp. intros L. rewrite updateActivity_timer by exact L.
    now apply H1.
  - now rewrite Hs, Hl.
Qed.

Lemma Clean_guarded now v v' : Clean v -> Guarded now v v' -> Clean v'.
Proof.
  intros [H1 H2] [[-> _] | (Hi & Hl & S)]; [now split|].
  destruct (updateActivity_frame now v) as (Hs & _ & Hl' & _).
  destruct S as (_ & Sl & _ & _ & _ & _ & Sk & Sm).
  rewrite Hl', Hl in Sl. rewrite Hs in Sk, Sm.
  split.
  - rewrite Sl. discriminate.
  - rewrite Sm. intros L. destruct (H2 L) as [_ L']. congruence.
Qed.

Lemma guarded {A} (body : M State A) now v :
  StorageOnly body ->
  Guarded now v (snd ((ensureUnlocked ;; updateActivity now ;; body) v)).
Proof. apply guarded_operation. Qed.

(** [initialize]: the vault before its last step, [updateActivity]. *)
Definition initializedState (cfg : option SeedVaultConfig) (v : State)
  : State :=
  let v0 :=
    match cfg with
    | Some c => setConfig (spread (config v) c) v
    | None => v
    end in
  let v1 := withStorage (Storage.initialize (Some (config v0))) v0 in
  let v2 :=
    if Storage.instanceofFileSystemStorage (storage v1)
    then setLocked (Storage.isLocked (storage v1)) v1 else v1 in
  setInitialized true v2.

Lemma initialize_state cfg now v :
  initialize cfg now v = updateActivity now (initializedState cfg v).
Proof.
  unfold initialize, initializedState, when, bindM, modify, ret.
  destruct cfg as [c|]; cbn [fst snd];
    now destruct (Storage.instanceofFileSystemStorage _).
Qed.

Lemma Clean_initializedState cfg v : Clean v -> Clean (initializedState cfg v).
Proof.
  intros [H1 H2]. unfold initializedState. cbv zeta.
  assert (E : forall v0,
             isLocked v0 = isLocked v ->
             masterPassword v0 = masterPassword v ->
             lockTimeout v0 = lockTimeout v ->
             Storage.kind (storage v0) = Storage.kind (storage v) ->
             Storage.locked (storage v0) = Storage.locked (storage v) ->
             Clean
               (setInitialized true
                  (if Storage.instanceofFileSystemStorage
                        (storage
                           (withStorage
                              (Storage.initialize (Some (config v0))) v0))
                   then setLocked
                          (Storage.isLocked
                             (storage
                                (withStorage
                                   (Storage.initialize (Some (config v0)))
                                   v0)))
                          (withStorage
                             (Storage.initialize (Some (config v0))) v0)
                   else withStorage
                          (Storage.initialize (Some (config v0))) v0))).
  { intros v0 El Ep Et Ek Em.
    unfold Storage.instanceofFileSystemStorage in *. cbn.
    rewrite Ek. destruct (Storage.kind (storage v)) eqn:K; split; cbn;
      rewrite ?Ek, ?K, ?Em, ?El, ?Ep, ?Et.
    - intros L. destruct (H2 L) as [_ L']. now apply H1.
    - intros L. now split.
    - exact H1.
    - exact H2. }
  destruct cfg as [c|]; now apply E.
Qed.

Lemma lock_cases v :
  snd (lock v) = v
  \/ (isInitialized v = true /\ isLocked v = false
      /\ snd (lock v) = lockedState v).
Proof.
  destruct (isInitialized v) eqn:Hi.
  - destruct (isLocked v) eqn:Hl.
    + left. unfold lock, bindM, ensureInitialized. rewrite Hi. cbn.
      now rewrite Hl.
    + right. now rewrite lock_unlocked.
  - left. unfold lock. now rewrite ensureInitialized_false.
Qed.

Lemma Clean_lockedState v : Clean v -> Clean (lockedState v).
Proof.
  intros [H1 H2]. unfold lockedState. cbv zeta.
  unfold Storage.instanceofFileSystemStorage in *. cbn.
  destruct (Storage.kind (storage v)) eqn:K; split; cbn;
    unfold Storage.instanceofFileSystemStorage; cbn;
    rewrite ?K; try (intros _; split; reflexivity).
  intros L. destruct (H2 L) as [L' _]. discriminate L'.
Qed.

Lemma Clean_lock v : Clean v -> Clean (snd (lock v)).
Proof.
  intros H. destruct (lock_cases v) as [-> | (_ & _ & ->)];
    [exact H | now apply Clean_lockedState].
Qed.

Lemma unlocked_marker pw now v :
  Storage.kind (storage (UnlockFacts.unlocked pw now v))
  = Storage.kind (storage v)
  /\ Storage.locked (storage (UnlockFacts.unlocked pw now v))
     = if Storage.instanceofFileSystemStorage (storage v)
       then false else Storage.locked (storage v).
Proof.
  unfold UnlockFacts.unlocked. cbv zeta.
  destruct (UnlockFacts.setupAutoLock_frame now
              (snd (updateActivity now
                 (if Storage.instanceofFileSystemStorage
                       (storage (setMasterPassword (Some pw)
                                   (setLocked false v)))
                  then withStorage Storage.removeLock
                         (setMasterPassword (Some pw) (setLocked false v))
                  else setMasterPassword (Some pw) (setLocked false v)))))
    as (-> & _).
  match goal with
  | |- context [updateActivity now ?x] =>
      destruct (updateActivity_frame now x) as (-> & _)
  end.
  unfold Storage.instanceofFileSystemStorage. cbn.
  destruct (Storage.kind (storage v)) eqn:K; cbn; rewrite ?K;
    split; reflexivity.
Qed.

Lemma Clean_unlock pw now v : Clean v -> Clean (snd (unlock pw now v)).
Proof.
  intros H.
  destruct (isInitialized v) eqn:Hi;
    [|unfold unlock; now rewrite ensureInitialized_false].
  destruct (isLocked v) eqn:Hl.
  2:{ unfold unlock, bindM at 1, ensureInitialized.
      rewrite Hi. cbn [negb]. now rewrite Hl. }
  destruct (isEmpty pw || Nat.ltb (String.length pw) 4) eqn:Hpw.
  { unfold unlock, bindM at 1, ensureInitialized.
    rewrite Hi. cbn [negb]. rewrite Hl. cbn [negb]. now rewrite Hpw. }
  rewrite UnlockFacts.unlock_accepts by assumption. cbn [snd].
  destruct (UnlockFacts.unlocked_frame pw now v) as (_ & L & _).
  destruct (unlocked_marker pw now v) as (K & M).
  destruct H as [H1 H2]. split.
  - rewrite L. discriminate.
  - rewrite M. unfold Storage.instanceofFileSystemStorage in *.
    destruct (Storage.kind (storage v)) eqn:E; [discriminate|].
    intros S. destruct (H2 S) as [S' _]. discriminate S'.
Qed.

Lemma Clean_reset v : Clean v -> Clean (snd (reset v)).
Proof.
  intros H.
  destruct (isInitialized v) eqn:Hi;
    [|unfold reset; now rewrite ensureInitialized_false].
  unfold reset, bindM, ensureInitialized, modify, clearLockTimeout.
  rewrite Hi. cbn. split; cbn; [tauto | discriminate].
Qed.

Lemma Clean_getStatus v : snd (getStatus v) = v.
Proof.
  unfold getStatus, bindM, ensureInitialized.
  now destruct (isInitialized v).
Qed.

Lemma Clean_fireAutoLock now v : Clean v -> Clean (fireAutoLock now v).
Proof.
  intros H. unfold fireAutoLock.
  destruct (lockTimeout v) as [t|]; [|exact H].
  destruct (t <=? now); [|exact H].
  apply Clean_lock. destruct H as [H1 H2]. split; cbn; [|exact H2].
  intros L. destruct (H1 L) as [-> _]. now split.
Qed.

Section WithPrimitives.
Context {P : Primitives}.

Lemma generateWallet_guarded prof now g v :
  Guarded now v (snd (generateWallet prof now g v)).
Proof. unfold generateWallet. apply guarded. storage_only. Qed.

Lemma importWallet_guarded prof mn now g v :
  Guarded now v (snd (importWallet prof mn now g v)).
Proof. unfold importWallet. apply guarded. storage_only. Qed.

Lemma exportWallet_guarded wid now v :
  Guarded now v (snd (exportWallet wid now v)).
Proof. unfold exportWallet. apply guarded. storage_only. Qed.

Lemma listWallets_guarded now v : Guarded now v (snd (listWallets now v)).
Proof. unfold listWallets. apply guarded. storage_only. Qed.

Lemma getWallet_guarded wid now v :
  Guarded now v (snd (getWallet wid now v)).
Proof. unfold getWallet. apply guarded. storage_only. Qed.

Lemma deleteWallet_guarded wid now v :
  Guarded now v (snd (deleteWallet wid now v)).
Proof. unfold deleteWallet. apply guarded. storage_only. Qed.

Lemma deriveKeypair_guarded wid path now v :
  Guarded now v (snd (deriveKeypair wid path now v)).
Proof. unfold deriveKeypair. apply guarded. storage_only. Qed.

Lemma getPublicKey_guarded wid now v :
  Guarded now v (snd (getPublicKey wid now v)).
Proof. unfold getPublicKey. apply guarded. storage_only. Qed.

Lemma signTransaction_guarded wid tx auto now v :
  Guarded now v (snd (signTransaction wid tx auto now v)).
Proof. unfold signTransaction. apply guarded. storage_only. Qed.

Lemma signMessage_guarded wid msg auto now v :
  Guarded now v (snd (signMessage wid msg auto now v)).
Proof. unfold signMessage. apply guarded. storage_only. Qed.

Lemma Clean_signTransactions wid txs auto now v :
  Clean v -> Clean (snd (signTransactions wid txs auto now v)).
Proof.
  revert v. induction txs as [|tx txs IH]; intros v H; [exact H|].
  cbn [signTransactions]. unfold bindM at 1.
  pose proof (Clean_guarded H (signTransaction_guarded wid tx auto now v))
    as H1.
  destruct (signTransaction wid tx auto now v) as [[r|e] v1];
    cbn [snd] in *; [|exact H1].
  unfold bindM at 1. specialize (IH v1 H1).
  now destruct (signTransactions wid txs auto now v1) as [[rs|e] v2].
Qed.

Lemma Clean_signMessages wid msgs auto now v :
  Clean v -> Clean (snd (signMessages wid msgs auto now v)).
Proof.
  revert v. induction msgs as [|msg msgs IH]; intros v H; [exact H|].
  cbn [signMessages]. unfold bindM at 1.
  pose proof (Clean_guarded H (signMessage_guarded wid msg auto now v))
    as H1.
  destruct (signMessage wid msg auto now v) as [[r|e] v1];
    cbn [snd] in *; [|exact H1].
  unfold bindM at 1. specialize (IH v1 H1).
  now destruct (signMessages wid msgs auto now v1) as [[rs|e] v2].
Qed.

(** One public operation of the vault, or its auto-lock timer going
    off, whatever the outcome. *)
Inductive Step : State -> State -> Prop :=
| Step_initialize cfg now v : Step v (snd (initialize cfg now v))
| Step_lock v : Step v (snd (lock v))
| Step_unlock pw now v : Step v (snd (unlock pw now v))
| Step_getStatus v : Step v (snd (getStatus v))
| Step_generateWallet prof now g v :
    Step v (snd (generateWallet prof now g v))
| Step_importWallet prof mn now g v :
    Step v (snd (importWallet prof mn now g v))
| Step_exportWallet wid now v : Step v (snd (exportWallet wid now v))
| Step_listWallets now v : Step v (snd (listWallets now v))
| Step_getWallet wid now v : Step v (snd (getWallet wid now v))
| Step_deleteWallet wid now v : Step v (snd (deleteWallet wid now v))
| Step_deriveKeypair wid path now v :
    Step v (snd (deriveKeypair wid path now v))
| Step_deriveKeypairFromComponents wid c now v :
    Step v (snd (deriveKeypairFromComponents wid c now v))
| Step_getPublicKey wid now v : Step v (snd (getPublicKey wid now v))
| Step_signTransaction wid tx auto now v :
    Step v (snd (signTransaction wid tx auto now v))
| Step_signTransactions wid txs auto now v :
    Step v (snd (signTransactions wid txs auto now v))
| Step_signMessage wid msg auto now v :
    Step v (snd (signMessage wid msg auto now v))
| Step_signMessages wid msgs auto now v :
    Step v (snd (signMessages wid msgs auto now v))
| Step_reset v : Step v (snd (reset v))
| Step_autoLock now v : Step v (fireAutoLock now v).

(** The vaults a program can reach from [new SeedVaultMock(...)]. *)
Inductive Reachable : State -> Prop :=
| Reachable_new cfg useMemoryStorage now :
    Reachable (constructor cfg useMemoryStorage now)
| Reachable_step v v' : Reachable v -> Step v v' -> Reachable v'.

Lemma Clean_step v v' : Clean v -> Step v v' -> Clean v'.
Proof.
  intros H S. destruct S;
    try (eapply Clean_guarded; [exact H|];
         first [ apply generateWallet_guarded | apply importWallet_guarded
               | apply exportWallet_guarded | apply listWallets_guarded
               | apply getWallet_guarded | apply deleteWallet_guarded
               | apply deriveKeypair_guarded | apply getPublicKey_guarded
               | apply signTransaction_guarded
               | apply signMessage_guarded ]).
  - rewrite initialize_state.
    now apply Clean_updateActivity, Clean_initializedState.
  - now apply Clean_lock.
  - now apply Clean_unlock.
  - now rewrite Clean_getStatus.
  - now apply Clean_signTransactions.
  - now apply Clean_signMessages.
  - now apply Clean_reset.
  - now apply Clean_fireAutoLock.
Qed.

Lemma Clean_reachable v : Reachable v -> Clean v.
Proof.
  induction 1 as [cfg mem now | v v' _ IH S].
  - split; cbn; [now split | now destruct mem].
  - exact (Clean_step IH S).
Qed.

(** X8.  Whatever sequence of operations a vault has gone through since
    it was made, with whatever outcomes, and whenever its auto-lock
    timer went off: while it is locked it holds no master password and
    no pending auto-lock timer. *)
Theorem locked_vault_keeps_no_password v :
  Reachable v -> isLocked v = true ->
  masterPassword v = None /\ lockTimeout v = None.
Proof.
  intros R L. now apply (Clean_reachable R).
Qed.

End WithPrimitives.

Lemma locked_vault_keeps_no_password_witness :
  isLocked Toy.relockedVault = true
  /\ masterPassword Toy.relockedVault = None
  /\ lockTimeout Toy.relockedVault = None.
Proof.
  split; [reflexivity|].
  apply (@locked_vault_keeps_no_password Toy.primitives);
    [|reflexivity].
  unfold Toy.relockedVault. eapply Reachable_step; [|apply Step_lock].
  unfold Toy.vaultWithWallet.
  eapply Reachable_step; [|apply Step_importWallet].
  unfold Toy.unlockedVault.
  eapply Reachable_step; [|apply Step_unlock].
  unfold Toy.lockedVault.
  eapply Reachable_step; [|apply Step_initialize].
  apply Reachable_new.
Defined.

End VaultInvariantFacts.

(** ** What the vault keeps of a wallet it made *)

Module KeyStoreFacts.
Import Types SeedVaultMock VaultFacts.
Local Open Scope eff_scope.

(** The stand-ins for [JSON] and the utf8 codec satisfy what is assumed
    of them. *)
Lemma splitAt_ofByte (b : byte) (s : string) :
  Toy.splitAt ":" (Hex.ofByte b ++ s)
  = match Toy.splitAt ":" s with
    | Some (x, y) => Some (Hex.ofByte b ++ x, y)
    | None => None
    end.
Proof. destruct b; cbn; now destruct (Toy.splitAt ":" s) as [[x y]|]. Qed.

Lemma splitAt_toHex (bs : Bytes) (s : string) :
  Toy.splitAt ":" (Hex.toHex bs ++ ":" ++ s) = Some (Hex.toHex bs, s).
Proof.
  induction bs as [|b bs IH]; cbn [Hex.toHex]; [reflexivity|].
  now rewrite CryptoFacts.append_assoc, splitAt_ofByte, IH.
Qed.

Lemma fromHex_toHex (bs : Bytes) : Hex.fromHex (Hex.toHex bs) = bs.
Proof.
  rewrite <- (PathFacts.append_empty_r (Hex.toHex bs)).
  rewrite CryptoFacts.fromHex_toHex_app. cbn. apply app_nil_r.
Qed.

Lemma toy_key_material_laws : KeyMaterialLaws Toy.primitives.
Proof.
  constructor.
  - intros [mn sk].
    cbn [JSON_parse JSON_stringify Toy.primitives km_mnemonic km_secretKey].
    now rewrite splitAt_toHex, fromHex_toHex.
  - intros km. cbn. apply string_of_list_byte_of_string.
Qed.

(** The mnemonic [generateWallet] uses: that of the profile when it has
    one that is not empty, else a new one. *)
Definition chosenMnemonic {P : Primitives} (prof : WalletProfile) (g : Rng)
  : string * Rng :=
  match mnemonic prof with
  | Some m => if isEmpty m then CryptoUtils.generateMnemonic 128 g
              else (m, g)
  | None => CryptoUtils.generateMnemonic 128 g
  end.

(** The vault [v] is unlocked, stores [w] under its id, reads the
    mnemonic [mn] out of its encrypted key material, and derives from
    it, along the path of the profile, the keypair [kp] whose public key
    is that of [w]. *)
Definition Holds {P : Primitives} (v : State) (w : Wallet) (mn : string)
           (kp : Keypair) : Prop :=
  isInitialized v = true /\ isLocked v = false
  /\ Storage.loadWallet (id w) (storage v) = Some w
  /\ bind (CryptoUtils.decrypt (encryptedPrivateKey w) (masterPassword v))
          JSON_parse
     = Ok (mkKeyMaterial mn (kp_secretKey kp))
  /\ CryptoUtils.deriveKeypairFromMnemonic mn (derivationPath (profile w))
     = Ok kp
  /\ publicKey w = kp_publicKey kp.

(** The vault is unlocked and derives the keypair [kp] for the wallet it
    stores under [wid], whose public key is [pk]. *)
Definition Ready {P : Primitives} (v : State) (wid : string) (kp : Keypair)
           (pk : PublicKey) : Prop :=
  isInitialized v = true /\ isLocked v = false
  /\ exists w, Storage.loadWallet wid (storage v) = Some w
               /\ Spec.signingKey v w = Ok kp
               /\ publicKey w = pk.

Definition hasInstructions (tx : Web3.Transaction) : bool :=
  match Web3.instructions tx with
  | None | Some [] => false
  | Some _ => true
  end.

(** What [signTransaction] returns for a transaction with
    instructions. *)
Definition signedBy {P : Primitives} (kp : Keypair) (now : Time)
           (tx : Web3.Transaction) : SigningResult :=
  let signature := nacl_sign_detached mockMessage (kp_secretKey kp) in
  mkSigningResult signature
    (Web3.mkTransaction
       (Web3.instructions tx) (Some (kp_publicKey kp)) (Some mockBlockhash)
       [Web3.mkSignature (kp_publicKey kp) (Some signature)])
    now.

Definition noInstructions : JsError :=
  createError INVALID_TRANSACTION "Transaction has no instructions".

Section WithPrimitives.
Context {P : Primitives}.

Lemma Holds_Ready v w mn kp :
  Holds v w mn kp -> Ready v (id w) kp (kp_publicKey kp).
Proof.
  intros (Hi & Hl & Hw & Hd & Hk & Hpk).
  split; [exact Hi|]. split; [exact Hl|].
  exists w. split; [exact Hw|]. split; [|exact Hpk].
  unfold Spec.signingKey. rewrite Hd. exact Hk.
Qed.

(** The state a signing call leaves. *)
Definition touched (wid : string) (now : Time) (v : State) : State :=
  match Storage.loadWallet wid (storage v) with
  | Some w =>
      withStorage (Storage.saveWallet (setLastUsed now w))
                  (snd (updateActivity now v))
  | None => snd (updateActivity now v)
  end.

Lemma Ready_touched v wid kp pk now :
  Ready v wid kp pk -> Ready (touched wid now v) wid kp pk.
Proof.
  intros (Hi & Hl & w & Hw & Hk & Hpk). unfold touched. rewrite Hw.
  destruct (updateActivity_frame now v) as (Hs & Hi' & Hl' & Hp & _).
  split; [cbn [isInitialized withStorage]; now rewrite Hi'|].
  split; [cbn [isLocked withStorage]; now rewrite Hl'|].
  cbn [storage withStorage]. unfold Storage.loadWallet, Storage.saveWallet.
  cbn [Storage.wallets]. rewrite Hs. cbn [id setLastUsed].
  destruct (String.eqb wid (id w)) eqn:E.
  - apply String.eqb_eq in E. subst wid.
    exists (setLastUsed now w).
    split; [apply JsMapFacts.get_set_same|].
    split; [|exact Hpk].
    unfold Spec.signingKey in *.
    cbn [masterPassword withStorage setLastUsed encryptedPrivateKey profile].
    rewrite Hp. exact Hk.
  - apply String.eqb_neq in E. exists w.
    split; [rewrite JsMapFacts.get_set_other by exact E; exact Hw|].
    split; [|exact Hpk].
    unfold Spec.signingKey in *.
    cbn [masterPassword withStorage setLastUsed encryptedPrivateKey profile].
    rewrite Hp. exact Hk.
Qed.

Lemma signMessage_ready wid msg auto now v kp pk :
  Ready v wid kp pk ->
  signMessage wid msg auto now v
  = (Ok (mkMessageSigningResult
           (nacl_sign_detached msg (kp_secretKey kp)) msg
           (kp_publicKey kp) now),
     touched wid now v).
Proof.
  intros (Hi & Hl & w & Hw & Hk & Hpk).
  rewrite (@SigningFacts.signMessage_any _ wid msg auto now v w Hi Hl Hw).
  rewrite (@SigningFacts.signMessage_auto _ wid msg now v w Hi Hl Hw).
  unfold touched. now rewrite Hk, Hw.
Qed.

Lemma signTransaction_ready wid tx now v kp :
  Ready v wid kp (kp_publicKey kp) ->
  signTransaction wid tx true now v
  = if hasInstructions tx
    then (Ok (signedBy kp now tx), touched wid now v)
    else (Throw noInstructions, snd (updateActivity now v)).
Proof.
  intros (Hi & Hl & w & Hw & Hk & Hpk).
  rewrite (@SigningFacts.signTransaction_auto _ wid tx now v w Hi Hl Hw).
  unfold touched, hasInstructions, signedBy. rewrite Hk, Hw, Hpk.
  rewrite String.eqb_refl. cbn [negb].
  now destruct (Web3.instructions tx) as [[|i l]|].
Qed.

Lemma signMessages_ready wid msgs auto now :
  forall v kp pk,
    Ready v wid kp pk ->
    fst (signMessages wid msgs auto now v)
    = Ok (map (fun msg =>
                 mkMessageSigningResult
                   (nacl_sign_detached msg (kp_secretKey kp)) msg
                   (kp_publicKey kp) now)
              msgs).
Proof.
  induction msgs as [|msg msgs IH]; intros v kp pk Hr; [reflexivity|].
  cbn [signMessages map]. unfold bindM at 1.
  rewrite (@signMessage_ready wid msg auto now _ _ _ Hr).
  unfold bindM at 1.
  pose proof (IH _ _ _ (@Ready_touched _ _ _ _ now Hr)) as Hrest.
  destruct (signMessages wid msgs auto now (touched wid now v)) as [r v'].
  cbn [fst] in Hrest. now subst r.
Qed.

Lemma signTransactions_ready wid txs now :
  forall v kp,
    Ready v wid kp (kp_publicKey kp) ->
    fst (signTransactions wid txs true now v)
    = if forallb hasInstructions txs
      then Ok (map (signedBy kp now) txs)
      else Throw noInstructions.
Proof.
  induction txs as [|tx txs IH]; intros v kp Hr; [reflexivity|].
  cbn [signTransactions map forallb]. unfold bindM at 1.
  rewrite (@signTransaction_ready wid tx now _ _ Hr).
  destruct (hasInstructions tx); cbn [andb]; [|reflexivity].
  unfold bindM at 1.
  pose proof (IH _ _ (@Ready_touched _ _ _ _ now Hr)) as Hrest.
  destruct (signTransactions wid txs true now (touched wid now v))
    as [r v'].
  cbn [fst] in Hrest. subst r.
  now destruct (forallb hasInstructions txs).
Qed.

End WithPrimitives.

End KeyStoreFacts.

(** ** Wallets from creation to deletion *)

Module WalletFacts.
Import Types SeedVaultMock VaultFacts VaultStateFacts KeyStoreFacts.
Local Open Scope eff_scope.

Section WithLaws.
Context {P : Primitives} {L : PrimitiveLaws P} {K : KeyMaterialLaws P}.

(** [decrypt] reads back, with the same password, the blob [encrypt]
    has returned; with a [null] password [encrypt] returns none. *)
Lemma decrypt_of_encrypt data pw g blob :
  utf8Decode (utf8Encode data) = data ->
  fst (CryptoUtils.encrypt data pw g) = Ok blob ->
  CryptoUtils.decrypt blob pw = Ok data.
Proof.
  intros Hutf8. unfold CryptoUtils.encrypt, CryptoUtils.generateSecureRandom.
  pose proof (randomBytes_length CryptoUtils.SALT_LENGTH g) as Hs.
  destruct (randomBytes CryptoUtils.SALT_LENGTH g) as [salt g1].
  cbn [fst] in Hs.
  pose proof (randomBytes_length CryptoUtils.IV_LENGTH g1) as Hv.
  destruct (randomBytes CryptoUtils.IV_LENGTH g1) as [iv g2].
  cbn [fst] in Hv.
  destruct pw as [pw|]; [|discriminate].
  destruct (aes256cbc_roundtrip
              (CryptoUtils.deriveEncryptionKey pw salt) iv (utf8Encode data)
              (CryptoFacts.deriveEncryptionKey_length pw salt) Hv)
    as (u & f & u' & f' & Hc & Hd & Hplain).
  rewrite Hc. cbn [bind fst snd]. intros [= <-].
  rewrite (@CryptoFacts.decrypt_blob _ _ pw salt iv u f u' f' Hs Hv Hd).
  now rewrite Hplain, Hutf8.
Qed.

Lemma stored_key_material mn sk pw g blob :
  fst (CryptoUtils.encrypt (JSON_stringify (mkKeyMaterial mn sk)) pw g)
  = Ok blob ->
  bind (CryptoUtils.decrypt blob pw) JSON_parse = Ok (mkKeyMaterial mn sk).
Proof.
  intros H. rewrite (@decrypt_of_encrypt _ pw g _ (JSON_utf8 _) H).
  cbn [bind]. apply JSON_roundtrip.
Qed.

Lemma Holds_saved v w mn kp now :
  isInitialized v = true -> isLocked v = false ->
  bind (CryptoUtils.decrypt (encryptedPrivateKey w) (masterPassword v))
       JSON_parse
  = Ok (mkKeyMaterial mn (kp_secretKey kp)) ->
  CryptoUtils.deriveKeypairFromMnemonic mn (derivationPath (profile w))
  = Ok kp ->
  publicKey w = kp_publicKey kp ->
  Holds (withStorage (Storage.saveWallet w) (snd (updateActivity now v)))
        w mn kp.
Proof.
  intros Hi Hl Hd Hk Hpk.
  destruct (updateActivity_frame now v) as (Hs & Hi' & Hl' & Hp & _).
  unfold Holds. cbn [isInitialized isLocked storage masterPassword withStorage].
  rewrite Hi', Hl', Hp.
  split; [exact Hi|]. split; [exact Hl|].
  split; [apply JsMapFacts.get_set_same|].
  split; [exact Hd|]. split; [exact Hk | exact Hpk].
Qed.

(** What a successful [importWallet] leaves. *)
Lemma importWallet_holds prof mn now g v w v' :
  importWallet prof mn now g v = (Ok w, v') ->
  exists kp blob,
    Holds v' w mn kp
    /\ CryptoUtils.validateMnemonic mn = true
    /\ w = ImportFacts.imported prof mn kp blob now.
Proof.
  intros H.
  destruct (isInitialized v) eqn:Hi.
  2:{ destruct (@ImportFacts.importWallet_not_unlocked _ prof mn now g v)
        as (e & He); [now left | rewrite He in H; discriminate H]. }
  destruct (isLocked v) eqn:Hl.
  1:{ destruct (@ImportFacts.importWallet_not_unlocked _ prof mn now g v)
        as (e & He); [now right | rewrite He in H; discriminate H]. }
  rewrite ImportFacts.importWallet_unlocked in H by assumption.
  destruct (CryptoUtils.validateMnemonic mn) eqn:Hv; cbn [negb] in H;
    [|discriminate H].
  destruct (CryptoUtils.deriveKeypairFromMnemonic _ _) as [kp|e] eqn:Hk;
    [|discriminate H].
  destruct (find _ _); [discriminate H|].
  destruct (fst (CryptoUtils.encrypt _ _ _)) as [blob|e] eqn:He;
    [|discriminate H].
  injection H as <- <-.
  exists kp, blob. split; [|now split].
  apply Holds_saved; try assumption; try reflexivity.
  exact (@stored_key_material _ _ _ _ _ He).
Qed.

Lemma generateWallet_not_unlocked prof now g v :
  isInitialized v = false \/ isLocked v = true ->
  exists e, generateWallet prof now g v = (Throw e, v).
Proof.
  intros H. destruct (isInitialized v) eqn:Hi.
  - destruct H as [H|H]; [discriminate H|].
    eexists. unfold generateWallet. now apply locked_prefix.
  - eexists. unfold generateWallet. now apply ensureUnlocked_false.
Qed.

(** What a successful [generateWallet] leaves. *)
Lemma generateWallet_holds prof now g v w v' :
  generateWallet prof now g v = (Ok w, v') ->
  exists kp,
    Holds v' w (fst (chosenMnemonic prof g)) kp
    /\ CryptoUtils.validateMnemonic (fst (chosenMnemonic prof g)) = true
    /\ profile w = prof /\ createdAt w = now /\ lastUsed w = now.
Proof.
  intros H.
  destruct (isInitialized v) eqn:Hi.
  2:{ destruct (@generateWallet_not_unlocked prof now g v)
        as (e & He); [now left | rewrite He in H; discriminate H]. }
  destruct (isLocked v) eqn:Hl.
  1:{ destruct (@generateWallet_not_unlocked prof now g v)
        as (e & He); [now right | rewrite He in H; discriminate H]. }
  unfold generateWallet in H.
  rewrite unlocked_prefix in H by assumption.
  destruct (updateActivity_frame now v) as (Hs & _ & _ & Hp & _).
  change (match mnemonic prof with
          | Some m => if isEmpty m then CryptoUtils.generateMnemonic 128 g
                      else (m, g)
          | None => CryptoUtils.generateMnemonic 128 g
          end) with (chosenMnemonic prof g) in H.
  destruct (chosenMnemonic prof g) as [mn g1]. cbn [fst].
  unfold tryCatch, bindM, lift, ret, throw, modify, rethrow,
    encryptKeyMaterial in H.
  destruct (CryptoUtils.validateMnemonic mn) eqn:Hv; cbn [negb] in H.
  2:{ cbn in H. discriminate H. }
  destruct (CryptoUtils.deriveKeypairFromMnemonic _ _) as [kp|e] eqn:Hk.
  2:{ destruct (code e); discriminate H. }
  destruct (CryptoUtils.generateWalletId g1) as [wid g2].
  rewrite Hp in H.
  destruct (CryptoUtils.encrypt _ _ g2) as [[blob|e] g3] eqn:He;
    cbn [bind fst] in H.
  2:{ destruct (code e); discriminate H. }
  injection H as <- <-.
  exists kp. split; [|now repeat split].
  apply Holds_saved; try assumption; try reflexivity.
  apply (@stored_key_material mn (kp_secretKey kp) (masterPassword v) g2).
  now rewrite He.
Qed.

Lemma exportWallet_holds v w mn kp now :
  Holds v w mn kp ->
  fst (exportWallet (id w) now v)
  = Ok (mkWalletExport (profile w) mn (publicKey w) (createdAt w)).
Proof.
  intros (Hi & Hl & Hw & Hd & _).
  rewrite exportWallet_result by assumption. now rewrite Hw, Hd.
Qed.

(** X9.  A wallet that [importWallet] has returned is exported with the
    mnemonic it was imported from: [exportWallet] on its id returns the
    profile, that mnemonic, its public key and the time of the import.
    The vault also keeps the mnemonic in the clear: the wallet that
    [getWallet] returns carries it in its profile. *)
Theorem import_export_roundtrip prof mn t g v w v' :
  importWallet prof mn t g v = (Ok w, v') ->
  (forall t',
      fst (exportWallet (id w) t' v')
      = Ok (mkWalletExport
              (mkProfile (name prof) (Some mn) (derivationPath prof)
                         (network prof))
              mn (publicKey w) t))
  /\ (forall t', fst (getWallet (id w) t' v') = Ok (Some w))
  /\ mnemonic (profile w) = Some mn.
Proof.
  intros H.
  destruct (@importWallet_holds _ _ _ _ _ _ _ H) as (kp & blob & Hh & _ & ->).
  split; [|split; [|reflexivity]]; intros t'.
  - now rewrite (@exportWallet_holds _ _ _ _ t' Hh).
  - destruct Hh as (Hi & Hl & Hw & _).
    rewrite getWallet_result by assumption. now rewrite Hw.
Qed.

(** X10.  A wallet that [generateWallet] has returned is exported with
    the mnemonic it was made from, which is a valid one: that of the
    profile when it has one that is not empty, else the one
    [generateMnemonic] gave.  The stored profile is the one handed
    in. *)
Theorem generate_export_roundtrip prof t g v w v' :
  generateWallet prof t g v = (Ok w, v') ->
  CryptoUtils.validateMnemonic (fst (chosenMnemonic prof g)) = true
  /\ (forall m, mnemonic prof = Some m -> m <> EmptyString ->
                fst (chosenMnemonic prof g) = m)
  /\ forall t',
       fst (exportWallet (id w) t' v')
       = Ok (mkWalletExport prof (fst (chosenMnemonic prof g))
                            (publicKey w) t).
Proof.
  intros H.
  destruct (@generateWallet_holds _ _ _ _ _ _ H) as (kp & Hh & Hv & Hp & Hc & _).
  split; [exact Hv|]. split.
  - intros m Hm Hne. unfold chosenMnemonic. rewrite Hm.
    destruct m; [now elim Hne | reflexivity].
  - intros t'. now rewrite (@exportWallet_holds _ _ _ _ t' Hh), Hp, Hc.
Qed.

(** X11.  A wallet that [importWallet] or [generateWallet] has returned
    signs at once: the keypair derived again from its mnemonic has its
    public key, [signMessage] returns the signature that keypair makes
    of the message, [signTransaction] with [autoApprove] passes its
    check of the key and signs every transaction that has an
    instruction, and the stored wallet then shows the time of the
    signing as its last use. *)
Theorem created_wallet_signs prof mn t g v w v' :
  importWallet prof mn t g v = (Ok w, v')
  \/ (generateWallet prof t g v = (Ok w, v')
      /\ mn = fst (chosenMnemonic prof g)) ->
  exists kp,
    CryptoUtils.deriveKeypairFromMnemonic mn (derivationPath prof) = Ok kp
    /\ publicKey w = kp_publicKey kp
    /\ (forall msg auto t',
           fst (signMessage (id w) msg auto t' v')
           = Ok (mkMessageSigningResult
                   (nacl_sign_detached msg (kp_secretKey kp)) msg
                   (publicKey w) t'))
    /\ (forall tx t',
           hasInstructions tx = true ->
           fst (signTransaction (id w) tx true t' v')
           = Ok (signedBy kp t' tx))
    /\ (forall msg auto t',
           Storage.loadWallet
             (id w) (storage (snd (signMessage (id w) msg auto t' v')))
           = Some (setLastUsed t' w)).
Proof.
  intros H.
  assert (Hh : exists kp, Holds v' w mn kp
                          /\ derivationPath (profile w) = derivationPath prof).
  { destruct H as [H|[H ->]].
    - destruct (@importWallet_holds _ _ _ _ _ _ _ H) as (kp & blob & Hh & _ & ->).
      now exists kp.
    - destruct (@generateWallet_holds _ _ _ _ _ _ H) as (kp & Hh & _ & Hp & _).
      exists kp. now rewrite Hp. }
  destruct Hh as (kp & Hh & Hpath). exists kp.
  pose proof (@Holds_Ready _ _ _ _ _ Hh) as Hr.
  destruct Hh as (Hi & Hl & Hw & Hd & Hk & Hpk).
  split; [now rewrite <- Hpath|]. split; [exact Hpk|].
  split; [|split].
  - intros msg auto t'. rewrite (@signMessage_ready _ _ msg auto t' _ _ _ Hr).
    cbn [fst]. now rewrite Hpk.
  - intros tx t' Htx. rewrite (@signTransaction_ready _ _ tx t' _ _ Hr).
    now rewrite Htx.
  - intros msg auto t'. rewrite (@signMessage_ready _ _ msg auto t' _ _ _ Hr).
    cbn [snd]. unfold touched. rewrite Hw.
    cbn [storage withStorage]. apply JsMapFacts.get_set_same.
Qed.

End WithLaws.

Section WithPrimitives.
Context {P : Primitives}.

(** X12.  On an unlocked vault that holds the wallet and derives its
    keypair, the batch calls sign item by item with that keypair.
    [signMessages] returns one result for each message, in the order of
    the messages, each the signature the keypair makes of its message;
    with [autoApprove] or without.  [signTransactions] with
    [autoApprove], when the keypair has the public key of the wallet,
    returns a result for every transaction when each of them has an
    instruction, and throws INVALID_TRANSACTION when one of them has
    none: no result of the batch is returned then. *)
Theorem vault_batches wid now v w kp :
  isInitialized v = true -> isLocked v = false ->
  Storage.loadWallet wid (storage v) = Some w ->
  Spec.signingKey v w = Ok kp ->
  (forall msgs auto,
      fst (signMessages wid msgs auto now v)
      = Ok (map (fun msg =>
                   mkMessageSigningResult
                     (nacl_sign_detached msg (kp_secretKey kp)) msg
                     (kp_publicKey kp) now)
                msgs))
  /\ (kp_publicKey kp = publicKey w ->
      forall txs,
        fst (signTransactions wid txs true now v)
        = if forallb hasInstructions txs
          then Ok (map (signedBy kp now) txs)
          else Throw noInstructions).
Proof.
  intros Hi Hl Hw Hk. split.
  - intros msgs auto.
    apply (@signMessages_ready _ wid msgs auto now v kp (publicKey w)).
    split; [exact Hi|]. split; [exact Hl|]. now exists w.
  - intros Hpk txs.
    apply (@signTransactions_ready _ wid txs now v kp).
    split; [exact Hi|]. split; [exact Hl|]. exists w. now repeat split.
Qed.

(** X13.  [deleteWallet] on an unlocked vault that holds the wallet
    removes it: afterwards [getWallet] returns null for its id, and
    [exportWallet], [signMessage] and a second [deleteWallet] throw
    WALLET_NOT_FOUND; what is stored under any other id is returned as
    before.  The storage is a [Map]: it holds an id once. *)
Theorem deleteWallet_removes wid now v w :
  isInitialized v = true -> isLocked v = false ->
  MapFacts.wellFormed (Storage.wallets (storage v)) ->
  Storage.loadWallet wid (storage v) = Some w ->
  exists v',
    deleteWallet wid now v = (Ok tt, v')
    /\ (forall t, fst (getWallet wid t v') = Ok None)
    /\ (forall t, fst (exportWallet wid t v') = Throw (notFound wid))
    /\ (forall msg auto t,
           fst (signMessage wid msg auto t v') = Throw (notFound wid))
    /\ (forall t, fst (deleteWallet wid t v') = Throw (notFound wid))
    /\ (forall k t, k <> wid ->
                    fst (getWallet k t v') = fst (getWallet k t v)).
Proof.
  intros Hi Hl Hwf Hw.
  destruct (updateActivity_frame now v) as (Hs & Hi' & Hl' & _).
  exists (withStorage (Storage.deleteWallet wid) (snd (updateActivity now v))).
  assert (Hgone : forall v0,
             storage v0 = storage (withStorage (Storage.deleteWallet wid)
                                      (snd (updateActivity now v))) ->
             Storage.loadWallet wid (storage v0) = None).
  { intros v0 ->. cbn [storage withStorage]. rewrite Hs.
    now apply StorageFacts.loadWallet_deleteWallet. }
  assert (Hi2 : isInitialized (withStorage (Storage.deleteWallet wid)
                                 (snd (updateActivity now v))) = true)
    by (cbn [isInitialized withStorage]; now rewrite Hi').
  assert (Hl2 : isLocked (withStorage (Storage.deleteWallet wid)
                            (snd (updateActivity now v))) = false)
    by (cbn [isLocked withStorage]; now rewrite Hl').
  set (v' := withStorage (Storage.deleteWallet wid)
               (snd (updateActivity now v))) in *.
  split.
  { unfold deleteWallet. rewrite unlocked_prefix by assumption.
    unfold bindM at 1.
    rewrite (@requireWallet_found wid w) by now rewrite Hs.
    reflexivity. }
  split.
  { intros t. rewrite getWallet_result by assumption.
    now rewrite Hgone. }
  split.
  { intros t. rewrite exportWallet_result by assumption.
    now rewrite Hgone. }
  split.
  { intros msg auto t. unfold signMessage.
    rewrite unlocked_prefix by assumption. unfold bindM at 1.
    rewrite requireWallet_missing; [reflexivity|].
    apply Hgone. apply updateActivity_frame. }
  split.
  { intros t. unfold deleteWallet.
    rewrite unlocked_prefix by assumption. unfold bindM at 1.
    rewrite requireWallet_missing; [reflexivity|].
    apply Hgone. apply updateActivity_frame. }
  intros k t Hk. rewrite !getWallet_result by assumption.
  f_equal. subst v'. cbn [storage withStorage]. rewrite Hs.
  now apply StorageFacts.loadWallet_deleteWallet_other.
Qed.

End WithPrimitives.

Lemma import_export_roundtrip_witness :
  exists w v',
    importWallet (P := Toy.primitives) Toy.testProfile Toy.testMnemonic 3
                 0%nat Toy.unlockedVault = (Ok w, v')
    /\ fst (exportWallet (P := Toy.primitives) (id w) 4 v')
       = Ok (mkWalletExport
               (mkProfile "Test Wallet" (Some "abandon about")
                          "m/44'/501'/0'/0'/0'" devnet)
               "abandon about" (publicKey w) 3).
Proof.
  destruct (importWallet (P := Toy.primitives) Toy.testProfile
                         Toy.testMnemonic 3 0%nat Toy.unlockedVault)
    as [[w|e] v'] eqn:E; [|vm_compute in E; discriminate E].
  exists w, v'. split; [reflexivity|].
  apply (@import_export_roundtrip
           Toy.primitives CryptoFacts.toy_laws toy_key_material_laws
           Toy.testProfile Toy.testMnemonic 3 0%nat Toy.unlockedVault w v' E).
Defined.

Lemma generate_export_roundtrip_witness :
  exists w v',
    generateWallet (P := Toy.primitives) Toy.testProfile 3 0%nat
                   Toy.unlockedVault = (Ok w, v')
    /\ fst (exportWallet (P := Toy.primitives) (id w) 4 v')
       = Ok (mkWalletExport Toy.testProfile "abandon ability"
                            (publicKey w) 3).
Proof.
  destruct (generateWallet (P := Toy.primitives) Toy.testProfile 3 0%nat
                           Toy.unlockedVault)
    as [[w|e] v'] eqn:E; [|vm_compute in E; discriminate E].
  exists w, v'. split; [reflexivity|].
  apply (@generate_export_roundtrip
           Toy.primitives CryptoFacts.toy_laws toy_key_material_laws
           Toy.testProfile 3 0%nat Toy.unlockedVault w v' E).
Defined.

Lemma created_wallet_signs_witness :
  exists w v',
    importWallet (P := Toy.primitives) Toy.testProfile Toy.testMnemonic 3
                 0%nat Toy.unlockedVault = (Ok w, v')
    /\ exists sig,
         fst (signMessage (P := Toy.primitives) (id w) Toy.message false 4 v')
         = Ok (mkMessageSigningResult sig Toy.message (publicKey w) 4).
Proof.
  destruct (importWallet (P := Toy.primitives) Toy.testProfile
                         Toy.testMnemonic 3 0%nat Toy.unlockedVault)
    as [[w|e] v'] eqn:E; [|vm_compute in E; discriminate E].
  exists w, v'. split; [reflexivity|].
  destruct (@created_wallet_signs
              Toy.primitives CryptoFacts.toy_laws toy_key_material_laws
              Toy.testProfile Toy.testMnemonic 3 0%nat Toy.unlockedVault
              w v' (or_introl E))
    as (kp & _ & _ & Hsign & _).
  eexists. apply Hsign.
Defined.

Lemma vault_batches_witness :
  exists w kp,
    Toy.testWallet = Some w
    /\ Spec.signingKey (P := Toy.primitives) Toy.vaultWithWallet w = Ok kp
    /\ fst (signMessages (P := Toy.primitives) Toy.testWalletId
                         [Toy.message; []] false 9 Toy.vaultWithWallet)
       = Ok [mkMessageSigningResult
               (@nacl_sign_detached Toy.primitives Toy.message
                                    (kp_secretKey kp))
               Toy.message (kp_publicKey kp) 9;
             mkMessageSigningResult
               (@nacl_sign_detached Toy.primitives [] (kp_secretKey kp))
               [] (kp_publicKey kp) 9]
    /\ fst (signTransactions (P := Toy.primitives) Toy.testWalletId
                             [Toy.transferTx; Toy.emptyTx] true 9
                             Toy.vaultWithWallet)
       = Throw noInstructions.
Proof.
  destruct Toy.testWallet as [w|] eqn:Ew; [|discriminate Ew].
  destruct (Spec.signingKey (P := Toy.primitives) Toy.vaultWithWallet w)
    as [kp|e] eqn:Ek.
  2:{ vm_compute in Ew. injection Ew as <-. vm_compute in Ek.
      discriminate Ek. }
  exists w, kp. split; [reflexivity|]. split; [exact Ek|].
  destruct (@vault_batches Toy.primitives Toy.testWalletId 9
              Toy.vaultWithWallet w kp eq_refl eq_refl)
    as (Hmsgs & Htxs).
  - vm_compute in Ew. injection Ew as <-. vm_compute. reflexivity.
  - exact Ek.
  - split; [apply Hmsgs|]. apply Htxs.
    vm_compute in Ew. injection Ew as <-. vm_compute in Ek.
    injection Ek as <-. reflexivity.
Defined.

Lemma deleteWallet_removes_witness :
  exists v',
    deleteWallet Toy.testWalletId 9 Toy.vaultWithWallet = (Ok tt, v')
    /\ fst (getWallet Toy.testWalletId 10 v') = Ok None
    /\ fst (exportWallet (P := Toy.primitives) Toy.testWalletId 10 v')
       = Throw (notFound Toy.testWalletId).
Proof.
  destruct Toy.testWallet as [w|] eqn:Ew; [|discriminate Ew].
  destruct (@deleteWallet_removes Toy.primitives Toy.testWalletId 9
              Toy.vaultWithWallet w eq_refl eq_refl)
    as (v' & Hd & Hg & He & _).
  - vm_compute. repeat constructor. intros [].
  - vm_compute in Ew. injection Ew as <-. vm_compute. reflexivity.
  - exists v'. split; [exact Hd|]. split; [apply Hg | apply He].
Defined.


End WalletFacts.

(** ** The vault over file storage, and derived keys *)

Module VaultEdgeFacts.
Import Types SeedVaultMock VaultFacts VaultStateFacts.
Local Open Scope eff_scope.

(** [new SeedVaultMock(cfg, useMemoryStorage)], then
    [initialize(cfg')]. *)
Definition initializedVault (cfg cfg' : option SeedVaultConfig)
           (useMemoryStorage : bool) (t0 t : Time) : State :=
  snd (initialize cfg' t (constructor cfg useMemoryStorage t0)).

Definition nullPasswordError : JsError :=
  createError ENCRYPTION_FAILED
    ("Encryption failed: " ++ CryptoUtils.nullPasswordMessage).

Definition invalidPath (path : string) : JsError :=
  createError INVALID_DERIVATION_PATH
    ("Invalid Solana derivation path: " ++ path).

Lemma initializedVault_state cfg cfg' useMemoryStorage t0 t :
  isInitialized (initializedVault cfg cfg' useMemoryStorage t0 t) = true
  /\ isLocked (initializedVault cfg cfg' useMemoryStorage t0 t)
     = useMemoryStorage
  /\ masterPassword (initializedVault cfg cfg' useMemoryStorage t0 t) = None
  /\ Storage.wallets (storage (initializedVault cfg cfg' useMemoryStorage t0 t))
     = [].
Proof.
  unfold initializedVault. rewrite VaultInvariantFacts.initialize_state.
  destruct (updateActivity_frame t
              (VaultInvariantFacts.initializedState
                 cfg' (constructor cfg useMemoryStorage t0)))
    as (Hs & Hi & Hl & Hp & _).
  rewrite Hi, Hl, Hp, Hs.
  unfold VaultInvariantFacts.initializedState, constructor.
  destruct cfg', useMemoryStorage; cbn; now repeat split.
Qed.

Section WithPrimitives.
Context {P : Primitives}.

Lemma encrypt_null data g :
  fst (CryptoUtils.encrypt data None g) = Throw nullPasswordError.
Proof.
  unfold CryptoUtils.encrypt.
  destruct (CryptoUtils.generateSecureRandom CryptoUtils.SALT_LENGTH g)
    as [salt g1].
  now destruct (CryptoUtils.generateSecureRandom CryptoUtils.IV_LENGTH g1).
Qed.

(** X14.  A vault over file storage comes out of [initialize] unlocked,
    with no master password, when the storage has no lock marker, as
    with a new storage; over memory storage it stays locked.  [unlock]
    then returns at once and stores no password, whatever it is given,
    and [importWallet] of a valid mnemonic fails with
    ENCRYPTION_FAILED. *)
Theorem file_vault_starts_unlocked cfg cfg' t0 t :
  isInitialized (initializedVault cfg cfg' false t0 t) = true
  /\ isLocked (initializedVault cfg cfg' false t0 t) = false
  /\ masterPassword (initializedVault cfg cfg' false t0 t) = None
  /\ isLocked (initializedVault cfg cfg' true t0 t) = true
  /\ (forall pw now,
         unlock pw now (initializedVault cfg cfg' false t0 t)
         = (Ok tt, initializedVault cfg cfg' false t0 t))
  /\ (forall prof mn kp now g,
         CryptoUtils.validateMnemonic mn = true ->
         CryptoUtils.deriveKeypairFromMnemonic mn (derivationPath prof)
         = Ok kp ->
         fst (importWallet prof mn now g
                           (initializedVault cfg cfg' false t0 t))
         = Throw nullPasswordError).
Proof.
  destruct (initializedVault_state cfg cfg' false t0 t)
    as (Hi & Hl & Hp & Hw).
  destruct (initializedVault_state cfg cfg' true t0 t) as (_ & Hl' & _).
  repeat (split; [assumption|]). split.
  - intros pw now. unfold unlock, bindM at 1, ensureInitialized.
    rewrite Hi. cbn [negb]. now rewrite Hl.
  - intros prof mn kp now g Hv Hk.
    rewrite ImportFacts.importWallet_unlocked by assumption.
    rewrite Hv, Hk. cbn [negb].
    unfold Storage.loadAllWallets. rewrite Hw. cbn [JsMap.values map
      Storage.sortByLastUsed fold_right find].
    now rewrite Hp, encrypt_null.
Qed.

Lemma validate_formatted (c : CryptoUtils.DerivationPathComponents) :
  CryptoUtils.validateSolanaDerivationPath (CryptoUtils.formatDerivationPath c)
  = DerivationFacts.solanaComponents c.
Proof.
  unfold CryptoUtils.validateSolanaDerivationPath.
  rewrite DerivationFacts.parse_format_cases.
  destruct (DerivationFacts.printsAsDigits c) eqn:E.
  - apply DerivationFacts.validate_components.
  - destruct (DerivationFacts.solanaComponents c) eqn:S; [|reflexivity].
    apply DerivationFacts.solanaComponents_small in S. congruence.
Qed.

Lemma deriveKeypair_unlocked wid path now v w :
  isInitialized v = true -> isLocked v = false ->
  Storage.loadWallet wid (storage v) = Some w ->
  deriveKeypair wid path now v
  = (if negb (CryptoUtils.validateSolanaDerivationPath path)
     then Throw (invalidPath path)
     else
       match bind (CryptoUtils.decrypt (encryptedPrivateKey w)
                                       (masterPassword v))
                  JSON_parse with
       | Throw e => Throw (Spec.rethrown "Failed to derive keypair: " e)
       | Ok km =>
           match CryptoUtils.deriveKeypairFromMnemonic (km_mnemonic km)
                                                       path with
           | Throw e => Throw (Spec.rethrown "Failed to derive keypair: " e)
           | Ok kp => Ok (mkDerivedKey kp (kp_publicKey kp) path)
           end
       end,
     snd (updateActivity now v)).
Proof.
  intros Hi Hl Hw. unfold deriveKeypair.
  rewrite unlocked_prefix by assumption.
  destruct (updateActivity_frame now v) as (Hs & _ & _ & Hp & _).
  unfold bindM at 1. rewrite (@requireWallet_found wid w) by now rewrite Hs.
  unfold Spec.rethrown, tryCatch, bindM, lift, ret, throw,
    decryptKeyMaterial, rethrow, invalidPath.
  destruct (CryptoUtils.validateSolanaDerivationPath path); cbn [negb];
    [|reflexivity].
  rewrite Hp.
  destruct (bind _ _) as [km|e]; [|now destruct (code e)].
  destruct (CryptoUtils.deriveKeypairFromMnemonic _ _) as [kp|e];
    [reflexivity | now destruct (code e)].
Qed.

(** X15.  On an unlocked vault that holds the wallet, [deriveKeypair]
    rejects a path that [validateSolanaDerivationPath] does not accept
    with INVALID_DERIVATION_PATH, before it decrypts anything; for an
    accepted path it returns the keypair derived from the stored
    mnemonic along that path, with its public key and the path.
    [deriveKeypairFromComponents] does the same with the formatted
    components, so it rejects all components but those of purpose 44 and
    coin type 501 with indices up to 2^31 - 1.  Neither changes what is
    stored. *)
Theorem deriveKeypair_checks_path wid now v w :
  isInitialized v = true -> isLocked v = false ->
  Storage.loadWallet wid (storage v) = Some w ->
  (forall path,
      CryptoUtils.validateSolanaDerivationPath path = false ->
      fst (deriveKeypair wid path now v) = Throw (invalidPath path))
  /\ (forall path km kp,
         CryptoUtils.validateSolanaDerivationPath path = true ->
         bind (CryptoUtils.decrypt (encryptedPrivateKey w) (masterPassword v))
              JSON_parse = Ok km ->
         CryptoUtils.deriveKeypairFromMnemonic (km_mnemonic km) path
         = Ok kp ->
         fst (deriveKeypair wid path now v)
         = Ok (mkDerivedKey kp (kp_publicKey kp) path))
  /\ (forall c,
         DerivationFacts.solanaComponents c = false ->
         fst (deriveKeypairFromComponents wid c now v)
         = Throw (invalidPath (CryptoUtils.formatDerivationPath c)))
  /\ (forall path,
         storage (snd (deriveKeypair wid path now v)) = storage v).
Proof.
  intros Hi Hl Hw.
  split; [|split; [|split]].
  - intros path Hv. rewrite (@deriveKeypair_unlocked wid path now v w)
      by assumption.
    now rewrite Hv.
  - intros path km kp Hv Hd Hk.
    rewrite (@deriveKeypair_unlocked wid path now v w) by assumption.
    now rewrite Hv, Hd, Hk.
  - intros c Hc. unfold deriveKeypairFromComponents.
    rewrite (@deriveKeypair_unlocked wid _ now v w) by assumption.
    now rewrite validate_formatted, Hc.
  - intros path.
    rewrite (@deriveKeypair_unlocked wid path now v w) by assumption.
    apply updateActivity_frame.
Qed.

End WithPrimitives.

Lemma deriveKeypair_checks_path_witness :
  fst (deriveKeypair (P := Toy.primitives) Toy.testWalletId
                     "m/44'/60'/0'/0'/0'" 9 Toy.vaultWithWallet)
  = Throw (invalidPath "m/44'/60'/0'/0'/0'")
  /\ fst (deriveKeypairFromComponents
            (P := Toy.primitives) Toy.testWalletId
            (CryptoUtils.mkComponents 44 60 0 0 0) 9 Toy.vaultWithWallet)
     = Throw (invalidPath "m/44'/60'/0'/0'/0'").
Proof.
  destruct Toy.testWallet as [w|] eqn:Ew; [|discriminate Ew].
  destruct (@deriveKeypair_checks_path Toy.primitives Toy.testWalletId 9
              Toy.vaultWithWallet w eq_refl eq_refl)
    as (Hpath & _ & Hc & _).
  - vm_compute in Ew. injection Ew as <-. vm_compute. reflexivity.
  - split; [now apply Hpath|].
    now apply (Hc (CryptoUtils.mkComponents 44 60 0 0 0)).
Defined.

End VaultEdgeFacts.

(** ** The transaction log *)

Module TrackerLogFacts.
Import TransactionTracker.
Local Open Scope eff_scope.

(** Every entry is stored under its own id. *)
Definition Keyed (m : JsMap.t TransactionLogEntry) : Prop :=
  forall k e, In (k, e) m -> id e = k.

Definition Consistent (t : State) : Prop :=
  MapFacts.wellFormed (transactions t) /\ Keyed (transactions t).

Lemma In_set {V} k (v : V) kv m :
  In kv (JsMap.set k v m) -> kv = (k, v) \/ In kv m.
Proof.
  induction m as [|[k' v'] m IH]; cbn.
  - intros [<-|[]]. now left.
  - destruct (String.eqb k k'); cbn.
    + intros [<-|H]; [now left | right; now right].
    + intros [<-|H]; [right; now left|].
      destruct (IH H) as [->|H']; [now left | right; now right].
Qed.

Lemma Keyed_set k e m : Keyed m -> id e = k -> Keyed (JsMap.set k e m).
Proof.
  intros Hm He k' e' Hin.
  destruct (In_set _ _ _ _ Hin) as [[= -> ->]|H]; [exact He | now apply Hm].
Qed.

Lemma Keyed_delete k m : Keyed m -> Keyed (JsMap.delete k m).
Proof.
  intros Hm k' e' Hin. apply Hm. exact (MapFacts.In_delete _ _ _ Hin).
Qed.

Lemma Consistent_set k e t :
  Consistent t -> id e = k ->
  Consistent (withTransactions (JsMap.set k e) t).
Proof.
  intros [Hw Hk] He. split; cbn.
  - now apply MapFacts.wellFormed_set.
  - now apply Keyed_set.
Qed.

Lemma deleteAll_consistent ids :
  forall m,
    MapFacts.wellFormed m /\ Keyed m ->
    MapFacts.wellFormed (deleteAll ids m) /\ Keyed (deleteAll ids m).
Proof.
  induction ids as [|k ids IH]; intros m [Hw Hk]; [now split|].
  cbn. apply IH. split.
  - now apply MapFacts.wellFormed_delete.
  - now apply Keyed_delete.
Qed.

Lemma setAll_consistent logs :
  forall m,
    MapFacts.wellFormed m /\ Keyed m ->
    MapFacts.wellFormed
      (fold_left (fun m log => JsMap.set (id log) log m) logs m)
    /\ Keyed (fold_left (fun m log => JsMap.set (id log) log m) logs m).
Proof.
  induction logs as [|log logs IH]; intros m [Hw Hk]; [now split|].
  cbn. apply IH. split.
  - now apply MapFacts.wellFormed_set.
  - now apply Keyed_set.
Qed.

Lemma Consistent_empty maxEntries retentionPeriod :
  Consistent (mkTracker [] maxEntries retentionPeriod).
Proof. split; [constructor | intros k e []]. Qed.

Lemma Consistent_cleanup now t : Consistent t -> Consistent (cleanup now t).
Proof.
  intros H. unfold cleanup, Consistent. cbn [transactions].
  pose proof (deleteAll_consistent
                (map fst (filter (fun kv => createdAt (snd kv)
                                            <? now - retentionPeriod t)
                                 (transactions t))) H) as H1.
  destruct (maxEntries t <? _); [|exact H1].
  now apply deleteAll_consistent.
Qed.

(** The calls that change a tracker made by
    [new TransactionTracker(maxEntries, retentionPeriod)]. *)
Inductive Change : State -> State -> Prop :=
| Change_createTransaction i w d tx md now t :
    Change t (snd (createTransaction i w d tx md now t))
| Change_updateStatus i s extra now t :
    Change t (snd (updateStatus i s extra now t))
| Change_addSignature i sig now t :
    Change t (snd (addSignature i sig now t))
| Change_addError i err now t :
    Change t (snd (addError i err now t))
| Change_addEvent i ty data msg now t :
    Change t (snd (addEvent i ty data msg now t))
| Change_clear t : Change t (clear t)
| Change_cleanup now t : Change t (cleanup now t)
| Change_importLogs logs t : Change t (importLogs logs t).

Inductive Tracker : State -> Prop :=
| Tracker_new maxEntries retentionPeriod :
    Tracker (mkTracker [] maxEntries retentionPeriod)
| Tracker_change t t' : Tracker t -> Change t t' -> Tracker t'.

Lemma Consistent_change t t' : Consistent t -> Change t t' -> Consistent t'.
Proof.
  intros H C. destruct C.
  - now apply Consistent_set.
  - unfold updateStatus.
    destruct (JsMap.get i (transactions t)) as [e|] eqn:E; [|exact H].
    apply Consistent_set; [exact H|]. cbn.
    destruct H as [_ Hk]. apply Hk. now apply MapFacts.get_Some_In.
  - unfold addSignature.
    destruct (JsMap.get i (transactions t)) as [e|] eqn:E; [|exact H].
    apply Consistent_set; [exact H|]. cbn.
    destruct H as [_ Hk]. apply Hk. now apply MapFacts.get_Some_In.
  - unfold addError.
    destruct (JsMap.get i (transactions t)) as [e|] eqn:E; [|exact H].
    apply Consistent_set; [exact H|]. cbn.
    destruct H as [_ Hk]. apply Hk. now apply MapFacts.get_Some_In.
  - unfold addEvent.
    destruct (JsMap.get i (transactions t)) as [e|] eqn:E; [|exact H].
    apply Consistent_set; [exact H|]. cbn.
    destruct H as [_ Hk]. apply Hk. now apply MapFacts.get_Some_In.
  - split; [constructor | intros k e []].
  - now apply Consistent_cleanup.
  - unfold importLogs, Consistent. cbn [transactions withTransactions].
    apply setAll_consistent. split; [constructor | intros k e []].
Qed.

Lemma Tracker_consistent t : Tracker t -> Consistent t.
Proof.
  induction 1 as [|t t' _ IH C]; [apply Consistent_empty|].
  exact (Consistent_change IH C).
Qed.

Lemma In_values {V} (v : V) (m : JsMap.t V) :
  In v (JsMap.values m) <-> exists k, In (k, v) m.
Proof.
  unfold JsMap.values. rewrite in_map_iff. split.
  - intros ([k v'] & <- & H). now exists k.
  - intros (k & H). now exists (k, v).
Qed.

Lemma NoDup_ids (m : JsMap.t TransactionLogEntry) :
  MapFacts.wellFormed m -> Keyed m -> NoDup (map id (JsMap.values m)).
Proof.
  unfold MapFacts.wellFormed, MapFacts.keys, JsMap.values.
  intros Hw Hk. rewrite map_map.
  rewrite (map_ext_in (fun x => id (snd x)) fst); [exact Hw|].
  intros [k e] Hin. cbn. now apply Hk.
Qed.

(** X16.  In a tracker, whatever calls have been made on it, no two
    logged entries have the same id, and every logged entry is the one
    [getTransaction] returns for its id. *)
Theorem logged_ids_are_unique t :
  Tracker t ->
  NoDup (map id (exportLogs t))
  /\ forall e, In e (exportLogs t) -> getTransaction (id e) t = Some e.
Proof.
  intros H. destruct (Tracker_consistent H) as [Hw Hk]. split.
  - now apply NoDup_ids.
  - intros e He. apply In_values in He. destruct He as (k & Hin).
    unfold getTransaction. rewrite (Hk _ _ Hin).
    now apply MapFacts.In_get.
Qed.

Lemma logged_ids_are_unique_witness :
  NoDup (map id (exportLogs Toy.tracker))
  /\ forall e, In e (exportLogs Toy.tracker) ->
               getTransaction (id e) Toy.tracker = Some e.
Proof.
  apply logged_ids_are_unique. unfold Toy.tracker.
  eapply Tracker_change; [|apply Change_updateStatus].
  eapply Tracker_change; [|apply Change_createTransaction].
  apply Tracker_new.
Defined.

(** The four calls that add to the entry of an id. *)
Inductive Mutator (transactionId : string) (now : Time)
  : M State unit -> Prop :=
| Mutator_updateStatus s extra :
    Mutator transactionId now (updateStatus transactionId s extra now)
| Mutator_addSignature sig :
    Mutator transactionId now (addSignature transactionId sig now)
| Mutator_addError err :
    Mutator transactionId now (addError transactionId err now)
| Mutator_addEvent ty data msg :
    Mutator transactionId now (addEvent transactionId ty data msg now).

(** [e'] is [e] with one more event, made at [now]. *)
Definition Extends (now : Time) (e e' : TransactionLogEntry) : Prop :=
  id e' = id e /\ walletId e' = walletId e
  /\ dAppIdentifier e' = dAppIdentifier e
  /\ transaction e' = transaction e /\ metadata e' = metadata e
  /\ createdAt e' = createdAt e /\ updatedAt e' = now
  /\ exists ev, events e' = (events e ++ [ev])%list /\ ev_timestamp ev = now.

(** X17.  [updateStatus], [addSignature], [addError] and [addEvent] on
    an id the tracker does not know throw [Transaction <id> not found]
    and change nothing.  On a known id they return, and the entry then
    has the events it had and one more at the end, made at the time of
    the call, with the same id, wallet, dApp, transaction, metadata and
    creation time; no other entry is touched and none is added. *)
Theorem mutators_append transactionId now m t :
  Mutator transactionId now m ->
  match getTransaction transactionId t with
  | None => m t = (Throw (notFound transactionId), t)
  | Some e =>
      exists e',
        fst (m t) = Ok tt
        /\ getTransaction transactionId (snd (m t)) = Some e'
        /\ Extends now e e'
        /\ (forall k, k <> transactionId ->
                      getTransaction k (snd (m t)) = getTransaction k t)
        /\ MapFacts.keys (transactions (snd (m t)))
           = MapFacts.keys (transactions t)
  end.
Proof.
  intros Hm. unfold getTransaction.
  assert (Hkeys : forall e e',
             JsMap.get transactionId (transactions t) = Some e ->
             MapFacts.keys (JsMap.set transactionId e' (transactions t))
             = MapFacts.keys (transactions t)).
  { intros e e' He. apply MapFacts.keys_set_present.
    apply MapFacts.get_Some_In in He.
    unfold MapFacts.keys. change transactionId with (fst (transactionId, e)).
    now apply in_map. }
  destruct Hm; unfold updateStatus, addSignature, addError, addEvent;
    destruct (JsMap.get transactionId (transactions t)) as [e|] eqn:E;
    try reflexivity;
    (eexists; split; [reflexivity|];
     split; [cbn; apply JsMapFacts.get_set_same|];
     split; [|split;
              [intros k Hk; cbn; now apply JsMapFacts.get_set_other
              | cbn; now apply (Hkeys e)]]);
    unfold Extends; cbn; repeat (split; [reflexivity|]);
    eexists; split; reflexivity.
Qed.

Lemma mutators_append_witness :
  exists e',
    getTransaction
      "tx-123"
      (snd (addSignature "tx-123" "sig" 3 Toy.tracker)) = Some e'
    /\ List.length (events e') = 3%nat.
Proof.
  pose proof (@mutators_append "tx-123" 3 (addSignature "tx-123" "sig" 3)
                Toy.tracker (Mutator_addSignature "tx-123" 3 "sig")) as H.
  destruct (getTransaction "tx-123" Toy.tracker) as [e|] eqn:E;
    [|vm_compute in E; discriminate E].
  destruct H as (e' & _ & Hget & (_ & _ & _ & _ & _ & _ & _ & ev & Hev & _) & _).
  exists e'. split; [exact Hget|].
  rewrite Hev, length_app. vm_compute in E. injection E as <-. reflexivity.
Defined.

(** X18.  [createTransaction] never fails and does not look at what the
    tracker holds: under an id that is already logged it puts a new
    pending entry with the one event of its creation in the place of the
    old entry, whose events are gone; under a new id it adds the entry
    after all others.  No other entry is touched. *)
Theorem createTransaction_replaces i w d tx md now t :
  exists e,
    createTransaction i w d tx md now t
    = (Ok e, withTransactions (JsMap.set i e) t)
    /\ status e = pending
    /\ events e = [mkEvent status_change now (Created pending)
                           (Some "Transaction created")]
    /\ getTransaction i (withTransactions (JsMap.set i e) t) = Some e
    /\ (forall k, k <> i ->
                  getTransaction k (withTransactions (JsMap.set i e) t)
                  = getTransaction k t)
    /\ (getTransaction i t = None ->
        transactions (withTransactions (JsMap.set i e) t)
        = (transactions t ++ [(i, e)])%list)
    /\ (getTransaction i t <> None ->
        MapFacts.keys (transactions (withTransactions (JsMap.set i e) t))
        = MapFacts.keys (transactions t)).
Proof.
  eexists. split; [reflexivity|]. split; [reflexivity|].
  split; [reflexivity|].
  split; [cbn; apply JsMapFacts.get_set_same|].
  split; [intros k Hk; cbn; now apply JsMapFacts.get_set_other|].
  unfold getTransaction. cbn [transactions withTransactions]. split.
  - intros H. apply MapFacts.set_absent. now apply MapFacts.get_None_keys.
  - intros H. apply MapFacts.keys_set_present.
    destruct (in_dec string_dec i (MapFacts.keys (transactions t)))
      as [Hin|Hout]; [exact Hin|].
    elim H. now apply MapFacts.get_None_keys.
Qed.

End TrackerLogFacts.

(** ** Queries on the transaction log *)

Module TrackerQueryFacts.
Import TransactionTracker.

(** What a text option asks of a field: nothing when it is absent or
    empty. *)
Definition wantsText (opt : option string) (field : string) : bool :=
  match opt with
  | Some wanted => isEmpty wanted || String.eqb field wanted
  | None => true
  end.

(** The entries the options of a query select. *)
Definition matches (o : TransactionQueryOptions) (e : TransactionLogEntry)
  : bool :=
  wantsText (q_walletId o) (walletId e)
  && wantsText (q_dAppIdentifier o) (dAppIdentifier e)
  && match q_status o with
     | Some s => statusEqb (status e) s
     | None => true
     end
  && match q_fromDate o with
     | Some d => d <=? createdAt e
     | None => true
     end
  && match q_toDate o with
     | Some d => createdAt e <=? d
     | None => true
     end.

(** The number a numeric option stands for: none when it is absent or
    0. *)
Definition given (opt : option N) : option nat :=
  match opt with
  | Some n => if n =? 0 then None else Some (N.to_nat n)
  | None => None
  end.

Definition newestFirst (a b : TransactionLogEntry) : Prop :=
  createdAt b <= createdAt a.

Lemma filter_filter {A} (f g : A -> bool) (l : list A) :
  filter g (filter f l) = filter (fun x => f x && g x) l.
Proof.
  induction l as [|x l IH]; cbn; [reflexivity|].
  destruct (f x); cbn; [|exact IH].
  destruct (g x); now rewrite IH.
Qed.

Lemma filter_all {A} (l : list A) : filter (fun _ => true) l = l.
Proof. induction l as [|x l IH]; cbn; [reflexivity | now rewrite IH]. Qed.

Lemma filterByText_filter opt field l :
  filterByText opt field l = filter (fun e => wantsText opt (field e)) l.
Proof.
  unfold filterByText, wantsText. destruct opt as [[|c s]|]; cbn [isEmpty orb].
  - now rewrite filter_all.
  - reflexivity.
  - now rewrite filter_all.
Qed.

Lemma filterBy_filter {A} (opt : option A) keep l :
  filterBy opt keep l
  = filter (fun e => match opt with Some x => keep x e | None => true end) l.
Proof.
  unfold filterBy. destruct opt; [reflexivity | now rewrite filter_all].
Qed.

Lemma selectTransactions_matches o t :
  selectTransactions o t
  = stableSort (fun a b => createdAt b <=? createdAt a)
               (filter (matches o) (exportLogs t)).
Proof.
  unfold selectTransactions, exportLogs. cbv zeta. f_equal.
  rewrite !filterBy_filter, !filterByText_filter, !filter_filter.
  apply filter_ext. intros e. unfold matches. now rewrite !andb_assoc.
Qed.

Lemma queryTransactions_page o t :
  queryTransactions o t
  = let results := selectTransactions o t in
    let results :=
      match given (q_offset o) with
      | Some n => skipn n results
      | None => results
      end in
    match given (q_limit o) with
    | Some n => firstn n results
    | None => results
    end.
Proof.
  unfold queryTransactions, sliceBy, given. cbv zeta.
  destruct (q_offset o) as [n|], (q_limit o) as [k|];
    try destruct (n =? 0); try destruct (k =? 0); reflexivity.
Qed.

Lemma StronglySorted_app {A} (R : A -> A -> Prop) (l1 l2 : list A) :
  StronglySorted R (l1 ++ l2) ->
  StronglySorted R l1 /\ StronglySorted R l2
  /\ forall a b, In a l1 -> In b l2 -> R a b.
Proof.
  induction l1 as [|x l1 IH]; cbn; intros H.
  - split; [constructor|]. split; [exact H|]. intros a b [].
  - apply StronglySorted_inv in H. destruct H as [H Hx].
    destruct (IH H) as (H1 & H2 & H12).
    rewrite Forall_forall in Hx.
    split; [|split; [exact H2|]].
    + constructor; [exact H1|]. rewrite Forall_forall. intros y Hy.
      apply Hx. apply in_or_app. now left.
    + intros a b [<-|Ha] Hb; [|now apply H12].
      apply Hx. apply in_or_app. now right.
Qed.

Lemma StronglySorted_firstn {A} (R : A -> A -> Prop) n (l : list A) :
  StronglySorted R l -> StronglySorted R (firstn n l).
Proof.
  intros H. rewrite <- (firstn_skipn n l) in H.
  now apply StronglySorted_app in H.
Qed.

Lemma StronglySorted_skipn {A} (R : A -> A -> Prop) n (l : list A) :
  StronglySorted R l -> StronglySorted R (skipn n l).
Proof.
  intros H. rewrite <- (firstn_skipn n l) in H.
  now apply StronglySorted_app in H.
Qed.

Lemma In_firstn {A} n (x : A) l : In x (firstn n l) -> In x l.
Proof.
  intros H. rewrite <- (firstn_skipn n l). apply in_or_app. now left.
Qed.

Lemma In_skipn {A} n (x : A) l : In x (skipn n l) -> In x l.
Proof.
  intros H. rewrite <- (firstn_skipn n l). apply in_or_app. now right.
Qed.

Lemma selectTransactions_sorted o t :
  StronglySorted newestFirst (selectTransactions o t).
Proof.
  rewrite selectTransactions_matches.
  apply (SortFacts.descending_ordered createdAt).
Qed.

Lemma In_selectTransactions o t e :
  In e (selectTransactions o t)
  <-> In e (exportLogs t) /\ matches o e = true.
Proof.
  rewrite selectTransactions_matches, SortFacts.In_stableSort.
  apply filter_In.
Qed.

(** X19.  Every entry [queryTransactions] returns is a logged entry
    that passes each filter given (a wallet or dApp filter that is the
    empty text asks nothing); the entries come newest first; and with a
    limit other than 0 there are at most that many. *)
Theorem query_results o t :
  (forall e, In e (queryTransactions o t) ->
             In e (exportLogs t) /\ matches o e = true)
  /\ StronglySorted newestFirst (queryTransactions o t)
  /\ (forall n, q_limit o = Some n -> n <> 0 ->
                (List.length (queryTransactions o t) <= N.to_nat n)%nat).
Proof.
  rewrite queryTransactions_page. cbv zeta.
  pose proof (selectTransactions_sorted o t) as Hs.
  split; [|split].
  - intros e He. apply In_selectTransactions.
    destruct (given (q_limit o)); [apply In_firstn in He|];
      destruct (given (q_offset o)); try apply In_skipn in He; exact He.
  - destruct (given (q_limit o)); [apply StronglySorted_firstn|];
      destruct (given (q_offset o)); try apply StronglySorted_skipn;
      exact Hs.
  - intros n Hn Hn0. unfold given at 1. rewrite Hn.
    apply N.eqb_neq in Hn0. rewrite Hn0. apply firstn_le_length.
Qed.

(** X20.  Without an offset and a limit [queryTransactions] returns
    every logged entry that passes the filters, each as often as it is
    logged.  An offset of 0 is no offset, and a limit of 0 is no limit:
    all those entries are returned, not none. *)
Theorem query_without_paging o t :
  q_offset o = None \/ q_offset o = Some 0 ->
  q_limit o = None \/ q_limit o = Some 0 ->
  Permutation (queryTransactions o t) (filter (matches o) (exportLogs t)).
Proof.
  intros Ho Hl. rewrite queryTransactions_page. cbv zeta.
  assert (Eo : given (q_offset o) = None) by now destruct Ho as [-> | ->].
  assert (El : given (q_limit o) = None) by now destruct Hl as [-> | ->].
  rewrite Eo, El, selectTransactions_matches.
  apply SortFacts.stableSort_perm.
Qed.

Lemma query_without_paging_witness :
  Permutation
    (queryTransactions
       (mkQuery (Some "wallet-456") None None None None (Some 0) None)
       Toy.tracker)
    (exportLogs Toy.tracker).
Proof.
  apply (@query_without_paging
           (mkQuery (Some "wallet-456") None None None None (Some 0) None)
           Toy.tracker); [now left | now right].
Defined.

(** X21.  [getRecentTransactions(n)] with [n] above 0 returns the [n]
    newest entries of the log, or the whole log when it has fewer: the
    entries returned and those left out make up the log, and none left
    out is newer than one returned.  Without an argument [n] is 50;
    with 0 the whole log is returned. *)
Theorem recent_are_newest n t :
  n <> 0 ->
  List.length (getRecentTransactions (Some n) t)
  = Nat.min (N.to_nat n) (List.length (exportLogs t))
  /\ (exists rest,
         Permutation (getRecentTransactions (Some n) t ++ rest)
                     (exportLogs t)
         /\ forall e e', In e (getRecentTransactions (Some n) t) ->
                         In e' rest -> createdAt e' <= createdAt e)
  /\ getRecentTransactions None t = getRecentTransactions (Some 50) t
  /\ Permutation (getRecentTransactions (Some 0) t) (exportLogs t).
Proof.
  intros Hn. apply N.eqb_neq in Hn.
  assert (Hall : selectTransactions
                   (mkQuery None None None None None (Some n) None) t
                 = stableSort (fun a b => createdAt b <=? createdAt a)
                              (exportLogs t)).
  { rewrite selectTransactions_matches. f_equal. apply filter_all. }
  assert (Hrecent : getRecentTransactions (Some n) t
                    = firstn (N.to_nat n)
                        (stableSort (fun a b => createdAt b <=? createdAt a)
                                    (exportLogs t))).
  { unfold getRecentTransactions. rewrite queryTransactions_page.
    cbv zeta. cbn [q_offset q_limit given]. now rewrite Hn, Hall. }
  split; [|split; [|split]].
  - rewrite Hrecent, length_firstn, SortFacts.length_stableSort.
    reflexivity.
  - exists (skipn (N.to_nat n)
              (stableSort (fun a b => createdAt b <=? createdAt a)
                          (exportLogs t))).
    rewrite Hrecent, firstn_skipn.
    split; [apply SortFacts.stableSort_perm|].
    pose proof (SortFacts.descending_ordered createdAt (exportLogs t)) as Hs.
    rewrite <- (firstn_skipn (N.to_nat n)) in Hs.
    apply StronglySorted_app in Hs. destruct Hs as (_ & _ & Hs).
    intros e e' He He'. exact (Hs e e' He He').
  - reflexivity.
  - unfold getRecentTransactions. rewrite queryTransactions_page.
    cbv zeta. cbn [q_offset q_limit given N.eqb].
    rewrite selectTransactions_matches.
    rewrite SortFacts.stableSort_perm.
    unfold matches. cbn. now rewrite filter_all.
Qed.

Lemma recent_are_newest_witness :
  List.length (getRecentTransactions (Some 5) Toy.tracker) = 1%nat.
Proof.
  destruct (@recent_are_newest 5 Toy.tracker) as (H & _);
    [discriminate | exact H].
Defined.

End TrackerQueryFacts.

(** ** Housekeeping of the transaction log *)

Module TrackerCleanupFacts.
Import TransactionTracker TrackerLogFacts.
Local Unset Implicit Arguments.

Lemma In_deleteAll ids :
  forall m kv, In kv (deleteAll ids m) -> In kv m.
Proof.
  induction ids as [|k ids IH]; intros m kv H; [exact H|].
  cbn in H. apply IH in H. exact (MapFacts.In_delete _ _ _ H).
Qed.

Lemma In_deleteAll_other ids :
  forall m kv, ~ In (fst kv) ids -> In kv m -> In kv (deleteAll ids m).
Proof.
  induction ids as [|k ids IH]; intros m kv Hk H; [exact H|].
  cbn. apply IH; [intros Hin; apply Hk; now right|].
  apply MapFacts.In_delete_other; [|exact H].
  intros E. apply Hk. now left.
Qed.

Lemma wellFormed_deleteAll ids :
  forall m, MapFacts.wellFormed m -> MapFacts.wellFormed (deleteAll ids m).
Proof.
  induction ids as [|k ids IH]; intros m H; [exact H|].
  cbn. apply IH. now apply MapFacts.wellFormed_delete.
Qed.

Lemma keys_deleteAll ids m k :
  In k (MapFacts.keys (deleteAll ids m)) -> In k (MapFacts.keys m).
Proof.
  unfold MapFacts.keys. rewrite !in_map_iff.
  intros (kv & E & H). exists kv. split; [exact E|].
  exact (In_deleteAll _ _ _ H).
Qed.

Lemma deleteAll_removes ids :
  forall m k,
    MapFacts.wellFormed m -> In k ids ->
    ~ In k (MapFacts.keys (deleteAll ids m)).
Proof.
  induction ids as [|k0 ids IH]; intros m k Hw Hin; [destruct Hin|].
  destruct Hin as [<-|Hin]; cbn.
  - intros H. apply keys_deleteAll in H.
    rewrite MapFacts.keys_delete in H by exact Hw.
    exact (remove_In _ _ _ H).
  - apply IH; [now apply MapFacts.wellFormed_delete | exact Hin].
Qed.

Lemma length_deleteAll ids :
  forall m,
    MapFacts.wellFormed m -> NoDup ids ->
    (forall k, In k ids -> In k (MapFacts.keys m)) ->
    (List.length (deleteAll ids m) + List.length ids
     = List.length m)%nat.
Proof.
  induction ids as [|k0 ids IH]; intros m Hw Hnd Hin; [cbn; lia|].
  change (deleteAll (k0 :: ids) m) with (deleteAll ids (JsMap.delete k0 m)).
  cbn [List.length].
  apply NoDup_cons_iff in Hnd. destruct Hnd as [Hk0 Hnd].
  pose proof (MapFacts.length_delete_present k0 m (Hin k0 (or_introl eq_refl)))
    as Hlen.
  assert (H1 : (List.length (deleteAll ids (JsMap.delete k0 m))
                + List.length ids
                = List.length (JsMap.delete k0 m))%nat).
  { apply IH; [now apply MapFacts.wellFormed_delete | exact Hnd |].
    intros k Hk. rewrite MapFacts.keys_delete by exact Hw.
    apply in_in_remove; [|apply Hin; now right].
    intros ->. exact (Hk0 Hk). }
  lia.
Qed.

Lemma unique_entry {V} (m : JsMap.t V) k v v' :
  MapFacts.wellFormed m -> In (k, v) m -> In (k, v') m -> v = v'.
Proof.
  intros Hw H H'.
  apply (@MapFacts.In_get _ k v m Hw) in H.
  apply (@MapFacts.In_get _ k v' m Hw) in H'. congruence.
Qed.

Lemma NoDup_app_disjoint {A} (l1 l2 : list A) (a : A) :
  NoDup (l1 ++ l2) -> In a l1 -> In a l2 -> False.
Proof.
  induction l1 as [|x l1 IH]; cbn; intros H [] H2.
  - subst x. apply NoDup_cons_iff in H. destruct H as [H _].
    apply H. apply in_or_app. now right.
  - apply NoDup_cons_iff in H. destruct H as [_ H]. now apply IH.
Qed.

Lemma NoDup_firstn {A} n (l : list A) : NoDup l -> NoDup (firstn n l).
Proof.
  intros H. rewrite <- (firstn_skipn n l) in H.
  exact (NoDup_app_remove_r _ _ H).
Qed.

(** The two passes of [cleanup]. *)
Definition old (cutoff : Time) (kv : string * TransactionLogEntry) : bool :=
  createdAt (snd kv) <? cutoff.

Definition remaining (now : Time) (t : State)
  : JsMap.t TransactionLogEntry :=
  deleteAll (map fst (filter (old (now - retentionPeriod t))
                             (transactions t)))
            (transactions t).

Definition oldestFirst (now : Time) (t : State)
  : list (string * TransactionLogEntry) :=
  stableSort (fun a b => createdAt (snd a) <=? createdAt (snd b))
             (remaining now t).

Definition excess (now : Time) (t : State) : nat :=
  N.to_nat (N.of_nat (List.length (remaining now t)) - maxEntries t).

Lemma cleanup_passes now t :
  transactions (cleanup now t)
  = if maxEntries t <? N.of_nat (List.length (remaining now t))
    then deleteAll (map fst (firstn (excess now t) (oldestFirst now t)))
                   (remaining now t)
    else remaining now t.
Proof. reflexivity. Qed.

Lemma In_remaining now t kv :
  MapFacts.wellFormed (transactions t) ->
  In kv (remaining now t)
  <-> In kv (transactions t)
      /\ now - retentionPeriod t <= createdAt (snd kv).
Proof.
  intros Hw. unfold remaining. split.
  - intros H. pose proof (In_deleteAll _ _ _ H) as Hin.
    split; [exact Hin|].
    destruct (N.le_gt_cases (now - retentionPeriod t) (createdAt (snd kv)))
      as [Hle|Hlt]; [exact Hle|].
    exfalso.
    apply (deleteAll_removes
             (map fst (filter (old (now - retentionPeriod t))
                              (transactions t)))
             (transactions t) (fst kv) Hw).
    + apply in_map. apply filter_In. split; [exact Hin|].
      unfold old. now apply N.ltb_lt.
    + unfold MapFacts.keys. now apply in_map.
  - intros [Hin Hnew]. apply In_deleteAll_other; [|exact Hin].
    intros Hk. apply in_map_iff in Hk. destruct Hk as ([k e] & E & Hold).
    apply filter_In in Hold. destruct Hold as [Hin' Hold].
    destruct kv as [k' e']. cbn in E. subst k'.
    rewrite (unique_entry _ _ _ _ Hw Hin Hin') in Hnew.
    unfold old in Hold. apply N.ltb_lt in Hold. cbn in *. lia.
Qed.

Lemma wellFormed_remaining now t :
  MapFacts.wellFormed (transactions t) ->
  MapFacts.wellFormed (remaining now t).
Proof. apply wellFormed_deleteAll. Qed.

Lemma oldestFirst_keys now t :
  MapFacts.wellFormed (transactions t) ->
  NoDup (map fst (oldestFirst now t)).
Proof.
  intros Hw. apply wellFormed_remaining with (now := now) in Hw.
  unfold MapFacts.wellFormed, MapFacts.keys in Hw.
  eapply Permutation_NoDup; [|exact Hw].
  apply Permutation_map. symmetry. apply SortFacts.stableSort_perm.
Qed.

(** The entries the second pass keeps are those that come after the
    first [excess] in the order of age. *)
Lemma In_kept now t kv :
  MapFacts.wellFormed (transactions t) ->
  In kv (deleteAll (map fst (firstn (excess now t) (oldestFirst now t)))
                   (remaining now t))
  <-> In kv (skipn (excess now t) (oldestFirst now t)).
Proof.
  intros Hw.
  pose proof (wellFormed_remaining now t Hw) as Hr.
  pose proof (oldestFirst_keys now t Hw) as Hnd.
  assert (Hperm : forall x, In x (oldestFirst now t) <-> In x (remaining now t))
    by (intros x; apply SortFacts.In_stableSort).
  rewrite <- (firstn_skipn (excess now t) (oldestFirst now t)) in Hnd.
  rewrite map_app in Hnd.
  split.
  - intros H. pose proof (In_deleteAll _ _ _ H) as Hin.
    apply Hperm in Hin.
    rewrite <- (firstn_skipn (excess now t)) in Hin.
    apply in_app_or in Hin. destruct Hin as [Hin|Hin]; [|exact Hin].
    exfalso.
    apply (deleteAll_removes
             (map fst (firstn (excess now t) (oldestFirst now t)))
             (remaining now t) (fst kv) Hr).
    + now apply in_map.
    + unfold MapFacts.keys. now apply in_map.
  - intros H. apply In_deleteAll_other.
    + intros Hk.
      apply (NoDup_app_disjoint _ _ (fst kv) Hnd); [exact Hk|].
      now apply in_map.
    + apply Hperm. rewrite <- (firstn_skipn (excess now t)).
      apply in_or_app. now right.
Qed.

Lemma filter_none {A} (f : A -> bool) (l : list A) :
  (forall x, In x l -> f x = false) -> filter f l = [].
Proof.
  induction l as [|x l IH]; intros H; cbn; [reflexivity|].
  rewrite (H x (or_introl eq_refl)). apply IH.
  intros y Hy. apply H. now right.
Qed.

Lemma length_kept now t :
  MapFacts.wellFormed (transactions t) ->
  maxEntries t < N.of_nat (List.length (remaining now t)) ->
  N.of_nat
    (List.length
       (deleteAll (map fst (firstn (excess now t) (oldestFirst now t)))
                  (remaining now t)))
  = maxEntries t.
Proof.
  intros Hw Hover.
  assert (Hlen : List.length (oldestFirst now t)
                 = List.length (remaining now t))
    by apply SortFacts.length_stableSort.
  assert (H : (List.length
                 (deleteAll
                    (map fst (firstn (excess now t) (oldestFirst now t)))
                    (remaining now t))
               + List.length
                   (map fst (firstn (excess now t) (oldestFirst now t)))
               = List.length (remaining now t))%nat).
  { apply length_deleteAll.
    - now apply wellFormed_remaining.
    - rewrite <- firstn_map. apply NoDup_firstn. now apply oldestFirst_keys.
    - intros k Hk. apply in_map_iff in Hk. destruct Hk as (kv & <- & Hin).
      apply TrackerQueryFacts.In_firstn in Hin.
      apply SortFacts.In_stableSort in Hin.
      unfold MapFacts.keys. now apply in_map. }
  rewrite length_map, length_firstn, Hlen in H.
  unfold excess in H at 2. lia.
Qed.

(** X22.  [cleanup] deletes every entry older than the retention
    period, and then, while more than [maxEntries] are left, the oldest
    of them: the entries it leaves are entries of the log made within
    the retention period, at most [maxEntries] of them, and none of
    them is older than an entry of that age it has deleted.  A log
    within both limits is left as it is. *)
Theorem cleanup_keeps_newest now t :
  Tracker t ->
  (forall e, In e (exportLogs (cleanup now t)) ->
             In e (exportLogs t)
             /\ now - retentionPeriod t <= createdAt e)
  /\ N.of_nat (List.length (exportLogs (cleanup now t))) <= maxEntries t
  /\ (forall e e',
         In e (exportLogs (cleanup now t)) ->
         In e' (exportLogs t) ->
         now - retentionPeriod t <= createdAt e' ->
         ~ In e' (exportLogs (cleanup now t)) ->
         createdAt e' <= createdAt e)
  /\ ((forall e, In e (exportLogs t) ->
                 now - retentionPeriod t <= createdAt e) ->
      N.of_nat (List.length (exportLogs t)) <= maxEntries t ->
      cleanup now t = t).
Proof.
  intros Ht. destruct (Tracker_consistent Ht) as [Hw _].
  unfold exportLogs, JsMap.values.
  split; [|split; [|split]].
  - intros e He. apply in_map_iff in He. destruct He as ([k e0] & <- & Hin).
    rewrite cleanup_passes in Hin.
    assert (Hrem : In (k, e0) (remaining now t)).
    { destruct (maxEntries t <? _); [|exact Hin].
      exact (In_deleteAll _ _ _ Hin). }
    apply In_remaining in Hrem; [|exact Hw]. destruct Hrem as [H1 H2].
    split; [|exact H2]. now apply (in_map snd) in H1.
  - rewrite length_map, cleanup_passes.
    destruct (maxEntries t <? _) eqn:E.
    + apply N.ltb_lt in E. rewrite (length_kept now t Hw E). lia.
    + now apply N.ltb_ge in E.
  - intros e e' He He' Hnew Hgone.
    apply in_map_iff in He. destruct He as ([k e0] & <- & Hin).
    apply in_map_iff in He'. destruct He' as ([k' e1] & <- & Hin').
    cbn [snd] in *.
    assert (Hrem : In (k', e1) (remaining now t))
      by (apply In_remaining; [exact Hw | now split]).
    rewrite cleanup_passes in Hin, Hgone.
    destruct (maxEntries t <? _).
    2:{ elim Hgone. now apply (in_map snd) in Hrem. }
    apply In_kept in Hin; [|exact Hw].
    assert (Hfirst : In (k', e1) (firstn (excess now t) (oldestFirst now t))).
    { apply SortFacts.In_stableSort
        with (before := fun a b => createdAt (snd a) <=? createdAt (snd b))
        in Hrem.
      fold (oldestFirst now t) in Hrem.
      rewrite <- (firstn_skipn (excess now t)) in Hrem.
      apply in_app_or in Hrem. destruct Hrem as [H|H]; [exact H|].
      elim Hgone. apply (in_map snd) with (x := (k', e1)).
      apply In_kept; assumption. }
    pose proof (SortFacts.ascending_ordered
                  (fun kv : string * TransactionLogEntry => createdAt (snd kv))
                  (remaining now t)) as Hs.
    fold (oldestFirst now t) in Hs.
    rewrite <- (firstn_skipn (excess now t)) in Hs.
    apply TrackerQueryFacts.StronglySorted_app in Hs.
    destruct Hs as (_ & _ & Hs).
    exact (Hs _ _ Hfirst Hin).
  - intros Hall Hsize.
    assert (Hnone : filter (old (now - retentionPeriod t)) (transactions t)
                    = []).
    { apply filter_none. intros [k e] Hin. unfold old.
      apply N.ltb_ge. apply Hall. now apply (in_map snd) in Hin. }
    assert (Hrem : remaining now t = transactions t)
      by (unfold remaining; now rewrite Hnone).
    assert (Htx : transactions (cleanup now t) = transactions t).
    { rewrite cleanup_passes, Hrem.
      rewrite length_map in Hsize.
      apply N.ltb_ge in Hsize. now rewrite Hsize. }
    destruct t as [m mx rp]. unfold cleanup in *. cbn in *. now rewrite Htx.
Qed.

Lemma cleanup_keeps_newest_witness :
  N.of_nat (List.length (exportLogs (cleanup 5 Toy.tracker))) <= 10000
  /\ cleanup 5 Toy.tracker = Toy.tracker.
Proof.
  destruct (cleanup_keeps_newest 5 Toy.tracker) as (_ & Hb & _ & Hsame).
  - unfold Toy.tracker.
    eapply Tracker_change; [|apply Change_updateStatus].
    eapply Tracker_change; [|apply Change_createTransaction].
    apply Tracker_new.
  - split; [exact Hb|]. apply Hsame.
    + intros e He. exact (N.le_0_l (createdAt e)).
    + vm_compute. discriminate.
Defined.

Lemma setAll_fresh logs :
  forall m,
    NoDup (map id logs) ->
    (forall log, In log logs -> ~ In (id log) (MapFacts.keys m)) ->
    fold_left (fun m log => JsMap.set (id log) log m) logs m
    = (m ++ map (fun log => (id log, log)) logs)%list.
Proof.
  induction logs as [|log logs IH]; intros m Hnd Hout;
    [symmetry; apply app_nil_r|].
  cbn [fold_left map]. cbn [map] in Hnd.
  apply NoDup_cons_iff in Hnd. destruct Hnd as [Hlog Hnd].
  rewrite MapFacts.set_absent by (apply Hout; now left).
  rewrite IH; [now rewrite <- app_assoc | exact Hnd |].
  intros l Hl Hin. unfold MapFacts.keys in Hin.
  rewrite map_app in Hin. apply in_app_or in Hin.
  destruct Hin as [Hin|[E|[]]].
  - exact (Hout l (or_intror Hl) Hin).
  - cbn in E. apply Hlog. rewrite E. now apply in_map.
Qed.

Lemma get_setAll k logs :
  forall m,
    JsMap.get k (fold_left (fun m log => JsMap.set (id log) log m) logs m)
    = match find (fun log => String.eqb (id log) k) (rev logs) with
      | Some log => Some log
      | None => JsMap.get k m
      end.
Proof.
  induction logs as [|log logs IH] using rev_ind; intros m; [reflexivity|].
  rewrite fold_left_app, rev_app_distr. cbn [fold_left rev app find].
  destruct (String.eqb (id log) k) eqn:E.
  - apply String.eqb_eq in E. subst k. apply JsMapFacts.get_set_same.
  - apply String.eqb_neq in E.
    rewrite JsMapFacts.get_set_other by (intros ->; now apply E).
    apply IH.
Qed.

Lemma keyed_entries (m : JsMap.t TransactionLogEntry) :
  Keyed m -> map (fun log => (id log, log)) (JsMap.values m) = m.
Proof.
  unfold JsMap.values. intros Hk. rewrite map_map.
  rewrite <- (map_id m) at 2. apply map_ext_in.
  intros [k e] Hin. cbn. now rewrite (Hk k e Hin).
Qed.

(** X23.  [importLogs] discards what the tracker held and logs the
    entries given: [getTransaction] then returns, for an id, the last
    of the entries given that has it, and null when none has.  When the
    entries given have distinct ids, [exportLogs] returns them as they
    were given. *)
Theorem importLogs_replaces logs t :
  (forall k,
      getTransaction k (importLogs logs t)
      = find (fun log => String.eqb (id log) k) (rev logs))
  /\ (NoDup (map id logs) -> exportLogs (importLogs logs t) = logs).
Proof.
  split.
  - intros k. unfold getTransaction, importLogs.
    cbn [transactions withTransactions].
    rewrite get_setAll. now destruct (find _ _).
  - intros Hnd. unfold exportLogs, importLogs.
    cbn [transactions withTransactions].
    rewrite setAll_fresh; [|exact Hnd | intros log _ []].
    cbn [app]. unfold JsMap.values. rewrite map_map. cbn [snd].
    apply map_id.
Qed.

(** X24.  The log a tracker exports, imported again into any tracker,
    gives that tracker the same log: the same entries under the same
    ids in the same order. *)
Theorem export_import_roundtrip t t' :
  Tracker t ->
  transactions (importLogs (exportLogs t) t') = transactions t
  /\ exportLogs (importLogs (exportLogs t) t') = exportLogs t.
Proof.
  intros Ht. destruct (Tracker_consistent Ht) as [Hw Hk].
  assert (E : transactions (importLogs (exportLogs t) t') = transactions t).
  { unfold importLogs, exportLogs. cbn [transactions withTransactions].
    rewrite setAll_fresh; [| now apply NoDup_ids | intros log _ []].
    cbn [app]. now apply keyed_entries. }
  split; [exact E|]. unfold exportLogs at 1. now rewrite E.
Qed.

Lemma export_import_roundtrip_witness :
  exportLogs (importLogs (exportLogs Toy.tracker) constructor)
  = exportLogs Toy.tracker.
Proof.
  apply (export_import_roundtrip Toy.tracker constructor).
  unfold Toy.tracker.
  eapply Tracker_change; [|apply Change_updateStatus].
  eapply Tracker_change; [|apply Change_createTransaction].
  apply Tracker_new.
Defined.

End TrackerCleanupFacts.

(** ** Sessions of the protocol service *)

Module SessionFacts.
Import MWAServiceImpl MWAFacts.
Local Open Scope eff_scope.
Local Unset Implicit Arguments.


Definition sessionNotFound : JsError :=
  plainError "Invalid session: session not found".




Lemma has_get {V} k (m : JsMap.t V) v :
  JsMap.get k m = Some v -> JsMap.has k m = true.
Proof. unfold JsMap.has. now intros ->. Qed.

Lemma has_false_get {V} k (m : JsMap.t V) :
  JsMap.get k m = None -> JsMap.has k m = false.
Proof. unfold JsMap.has. now intros ->. Qed.

(** The state [updateSessionActivity] leaves for a session the service
    holds. *)
Definition activeState (session : MWASession) (now : Time) (st : State)
  : State :=
  withTimers (JsMap.set (sessionId session) (now + sessionTimeout st))
    (withTimers (JsMap.delete (sessionId session))
       (withSessions (JsMap.set (sessionId session) (touch now session))
                     st)).

Lemma updateSessionActivity_known session now st :
  getSession (sessionId session) st = Some session ->
  updateSessionActivity (sessionId session) now st
  = (Ok tt, activeState session now st).
Proof.
  unfold getSession, updateSessionActivity. now intros ->.
Qed.

Lemma activeState_frame session now st :
  seedVault (activeState session now st) = seedVault st
  /\ getSession (sessionId session) (activeState session now st)
     = Some (touch now session)
  /\ transactionTracker (activeState session now st) = transactionTracker st
  /\ transactionUI (activeState session now st) = transactionUI st.
Proof.
  unfold activeState, getSession.
  cbn [sessions seedVault withTimers withSessions transactionTracker
       transactionUI].
  split; [reflexivity|]. split; [apply JsMapFacts.get_set_same|].
  now split.
Qed.

Lemma onVault_sessions {A} (m : M SeedVaultMock.State A) st :
  sessions (snd (onVault m st)) = sessions st
  /\ fst (onVault m st) = fst (m (seedVault st))
  /\ seedVault (snd (onVault m st)) = snd (m (seedVault st)).
Proof.
  unfold onVault. now destruct (m (seedVault st)).
Qed.

(** [authorize], for a connected session the service holds, from the
    answer of the vault's [listWallets]. *)
Lemma authorize_known session request now st :
  getSession (sessionId session) st = Some session ->
  connectionState session = connected ->
  authorize session request now st
  = match onVault (SeedVaultMock.listWallets now)
                  (activeState session now st) with
    | (Throw e, st') => (Throw e, st')
    | (Ok [], st') =>
        (Throw (plainError "No wallets available for authorization"), st')
    | (Ok (w :: _), st') =>
        (Ok (mkAuthorizeResult (Types.publicKey w)
                               (Some (Types.name (Types.profile w)))
                               (Some "solana-phone-simulator://")),
         withSessions
           (JsMap.set (sessionId session)
              (authorizeSession (Types.publicKey w) request now
                                (touch now session)))
           st')
    end.
Proof.
  intros Hs Hc. unfold authorize.
  rewrite (has_get _ _ _ Hs), Hc. cbn [negb isConnected].
  rewrite (bindM_Ok _ _ _ _ _ (updateSessionActivity_known _ now _ Hs)).
  pose proof (onVault_sessions (SeedVaultMock.listWallets now)
                (activeState session now st)) as (Hsess & _).
  unfold bindM at 1.
  destruct (onVault (SeedVaultMock.listWallets now)
                    (activeState session now st))
    as [[[|w rest]|e] st'] eqn:E; try reflexivity.
  cbn [snd] in Hsess.
  unfold bindM, modify, ret.
  destruct (activeState_frame session now st) as (_ & Hget & _).
  unfold getSession in Hget. now rewrite Hsess, Hget.
Qed.

Lemma head_most_recent (s : Storage.State) w rest :
  Storage.loadAllWallets s = w :: rest ->
  In w (JsMap.values (Storage.wallets s))
  /\ forall w', In w' (JsMap.values (Storage.wallets s)) ->
                Types.lastUsed w' <= Types.lastUsed w.
Proof.
  unfold Storage.loadAllWallets.
  rewrite StorageFacts.sortByLastUsed_stableSort. intros E.
  pose proof (SortFacts.stableSort_perm
                (fun a b => Types.lastUsed b <=? Types.lastUsed a)
                (JsMap.values (Storage.wallets s))) as Hperm.
  pose proof (SortFacts.descending_ordered
                Types.lastUsed (JsMap.values (Storage.wallets s))) as Hsort.
  rewrite E in Hperm, Hsort.
  split.
  - apply (Permutation_in _ Hperm). now left.
  - intros w' Hw'. apply (Permutation_in _ (Permutation_sym Hperm)) in Hw'.
    destruct Hw' as [<-|Hin]; [apply N.le_refl|].
    apply StronglySorted_inv in Hsort. destruct Hsort as [_ Hall].
    rewrite Forall_forall in Hall. now apply Hall.
Qed.

(** X26.  [authorize], for a connected session the service holds,
    binds the session to the wallet the vault lists first, which is the
    stored wallet used most recently: it returns that wallet's public
    key and name, and the stored session then carries the key, the time
    of the authorization and the features asked for as permissions.
    When the vault is locked it throws the vault's VAULT_LOCKED, and
    when the vault holds no wallet it throws
    [No wallets available for authorization]. *)
Theorem authorize_binds_session session request now st :
  getSession (sessionId session) st = Some session ->
  connectionState session = connected ->
  SeedVaultMock.isInitialized (seedVault st) = true ->
  (SeedVaultMock.isLocked (seedVault st) = true ->
   fst (authorize session request now st) = Throw VaultFacts.lockedError)
  /\ (SeedVaultMock.isLocked (seedVault st) = false ->
      Storage.loadAllWallets (SeedVaultMock.storage (seedVault st)) = [] ->
      fst (authorize session request now st)
      = Throw (plainError "No wallets available for authorization"))
  /\ (forall w rest,
         SeedVaultMock.isLocked (seedVault st) = false ->
         Storage.loadAllWallets (SeedVaultMock.storage (seedVault st))
         = w :: rest ->
         fst (authorize session request now st)
         = Ok (mkAuthorizeResult (Types.publicKey w)
                                 (Some (Types.name (Types.profile w)))
                                 (Some "solana-phone-simulator://"))
         /\ getSession (sessionId session)
                       (snd (authorize session request now st))
            = Some (mkSession (sessionId session) (dAppIdentifier session)
                              (Some (Types.publicKey w)) connected
                              (match features request with
                               | Some f => f
                               | None => []
                               end)
                              (Some now) now)
         /\ In w (JsMap.values
                    (Storage.wallets (SeedVaultMock.storage (seedVault st))))
         /\ forall w',
              In w' (JsMap.values
                       (Storage.wallets
                          (SeedVaultMock.storage (seedVault st)))) ->
              Types.lastUsed w' <= Types.lastUsed w).
Proof.
  intros Hs Hc Hi.
  rewrite (authorize_known _ request now _ Hs Hc).
  destruct (activeState_frame session now st) as (Hv & _).
  pose proof (onVault_sessions (SeedVaultMock.listWallets now)
                (activeState session now st)) as (_ & Hfst & _).
  rewrite Hv in Hfst.
  split; [|split].
  - intros Hl.
    unfold SeedVaultMock.listWallets in Hfst.
    rewrite VaultFacts.locked_prefix in Hfst by assumption.
    destruct (onVault _ _) as [[[|w rest]|e] st']; cbn [fst] in *;
      congruence.
  - intros Hl Hnone.
    rewrite VaultStateFacts.listWallets_result in Hfst by assumption.
    rewrite Hnone in Hfst.
    destruct (onVault _ _) as [[[|w rest]|e] st']; cbn [fst] in *;
      congruence.
  - intros w rest Hl Hlist.
    rewrite VaultStateFacts.listWallets_result in Hfst by assumption.
    rewrite Hlist in Hfst.
    destruct (onVault _ _) as [[[|w0 rest0]|e] st']; cbn [fst] in Hfst;
      try discriminate Hfst.
    injection Hfst as -> ->.
    split; [reflexivity|]. split.
    + cbn [snd]. unfold getSession. cbn [sessions withSessions].
      rewrite JsMapFacts.get_set_same. unfold authorizeSession, touch.
      cbn. now rewrite Hc.
    + now apply head_most_recent with (rest := rest).
Qed.

Lemma authorize_binds_session_witness :
  exists w,
    Toy.testWallet = Some w
    /\ exists st0 s,
         connect "dapp.test" 5 "abc"
                 (MWAServiceImpl.constructor Toy.vaultWithWallet)
         = (Ok s, st0)
         /\ fst (authorize s (mkAuthorizeRequest None None) 5 st0)
            = Ok (mkAuthorizeResult (Types.publicKey w)
                                    (Some "Test Wallet")
                                    (Some "solana-phone-simulator://")).
Proof.
  destruct Toy.testWallet as [w|] eqn:Ew; [|discriminate Ew].
  exists w. split; [reflexivity|].
  destruct (connect "dapp.test" 5 "abc"
                    (MWAServiceImpl.constructor Toy.vaultWithWallet))
    as [[s|e] st0] eqn:E; [|vm_compute in E; discriminate E].
  exists st0, s. split; [reflexivity|].
  vm_compute in E. injection E as <- <-.
  match goal with
  | |- fst (authorize ?s ?r ?t ?st) = _ =>
      destruct (authorize_binds_session s r t st eq_refl eq_refl eq_refl)
        as (_ & _ & H)
  end.
  destruct (H w [] eq_refl) as (Hr & _).
  - vm_compute in Ew. injection Ew as <-. vm_compute. reflexivity.
  - vm_compute in Ew. injection Ew as <-. exact Hr.
Defined.

End SessionFacts.

(** ** The end of a session *)

Module SessionEndFacts.
Import MWAServiceImpl MWAFacts SessionFacts.
Local Open Scope eff_scope.
Local Unset Implicit Arguments.

(** The state [disconnect] leaves for a session the service holds. *)
Definition disconnectedState (sid : string) (st : State) : State :=
  withSessions (JsMap.delete sid) (withTimers (JsMap.delete sid) st).

Lemma disconnect_cases session st :
  disconnect session st
  = (Ok tt,
     if JsMap.has (sessionId session) (sessions st)
     then disconnectedState (sessionId session) st
     else st).
Proof.
  unfold disconnect. now destruct (JsMap.has _ _).
Qed.

Lemma disconnectedState_frame sid st :
  MapFacts.wellFormed (sessions st) ->
  getSession sid (disconnectedState sid st) = None
  /\ (forall k, k <> sid ->
                getSession k (disconnectedState sid st) = getSession k st)
  /\ seedVault (disconnectedState sid st) = seedVault st
  /\ transactionTracker (disconnectedState sid st) = transactionTracker st.
Proof.
  intros Hw. unfold disconnectedState, getSession.
  cbn [sessions seedVault transactionTracker withSessions withTimers].
  split; [now apply MapFacts.get_delete_same|].
  split; [|now split].
  intros k Hk. now apply MapFacts.get_delete_other.
Qed.

Section WithPrimitives.
Context {P : Primitives}.

(** X27.  [disconnect], for a session the service holds, removes it:
    afterwards [getSession] returns null for its id, and [authorize],
    [signTransactions] and [signMessages] with that session throw
    [Invalid session: session not found] and change nothing.  A second
    [disconnect] returns without doing anything.  Every other session,
    the vault and the transaction log are left as they were.  The table
    of sessions is a [Map]: it holds an id once. *)
Theorem disconnect_ends_session session st :
  MapFacts.wellFormed (sessions st) ->
  getSession (sessionId session) st <> None ->
  exists st',
    disconnect session st = (Ok tt, st')
    /\ getSession (sessionId session) st' = None
    /\ (forall k, k <> sessionId session ->
                  getSession k st' = getSession k st)
    /\ disconnect session st' = (Ok tt, st')
    /\ (forall request t,
           authorize session request t st' = (Throw sessionNotFound, st'))
    /\ (forall txs env,
           signTransactions session txs env st'
           = (Throw sessionNotFound, st'))
    /\ (forall msgs env,
           signMessages session msgs env st' = (Throw sessionNotFound, st'))
    /\ seedVault st' = seedVault st
    /\ transactionTracker st' = transactionTracker st.
Proof.
  intros Hw Hs. exists (disconnectedState (sessionId session) st).
  destruct (disconnectedState_frame (sessionId session) st Hw)
    as (Hgone & Hother & Hv & Ht).
  assert (Hhas : JsMap.has (sessionId session)
                   (sessions (disconnectedState (sessionId session) st))
                 = false) by now apply has_false_get.
  split.
  { rewrite disconnect_cases. unfold getSession in Hs. unfold JsMap.has.
    now destruct (JsMap.get (sessionId session) (sessions st)). }
  split; [exact Hgone|]. split; [exact Hother|].
  split; [now rewrite disconnect_cases, Hhas|].
  split; [intros request t; unfold authorize; now rewrite Hhas|].
  split; [intros txs env; unfold signTransactions; now rewrite Hhas|].
  split; [intros msgs env; unfold signMessages; now rewrite Hhas|].
  now split.
Qed.

End WithPrimitives.

Lemma disconnect_ends_session_witness :
  exists st',
    disconnect Toy.session Toy.service = (Ok tt, st')
    /\ getSession (sessionId Toy.session) st' = None
    /\ signMessages (P := Toy.primitives) Toy.session [Toy.message] Toy.env
                    st'
       = (Throw sessionNotFound, st').
Proof.
  destruct (@disconnect_ends_session Toy.primitives Toy.session Toy.service)
    as (st' & Hd & Hg & _ & _ & _ & _ & Hm & _).
  - vm_compute. repeat constructor. intros [].
  - vm_compute. discriminate.
  - exists st'. split; [exact Hd|]. split; [exact Hg | apply Hm].
Defined.



End SessionEndFacts.

(** ** Messages signed through the protocol service *)

Module MessageFacts.
Import MWAServiceImpl MWAFacts SessionFacts.
Local Open Scope eff_scope.
Local Unset Implicit Arguments.

Section WithPrimitives.
Context {P : Primitives}.

(** The entry for a message signed with the secret key [sk]. *)
Definition signedMessage (sk : Bytes) (msg : Bytes) : SignResult :=
  mkSignResult None (Some (nacl_sign_detached msg sk)) None.

Lemma Ready_updateActivity v wid kp pk now :
  KeyStoreFacts.Ready v wid kp pk ->
  KeyStoreFacts.Ready (snd (SeedVaultMock.updateActivity now v)) wid kp pk.
Proof.
  intros (Hi & Hl & w & Hw & Hk & Hpk).
  destruct (VaultFacts.updateActivity_frame now v)
    as (Hs & Hi' & Hl' & Hp & _).
  split; [now rewrite Hi'|]. split; [now rewrite Hl'|].
  exists w. rewrite Hs. split; [exact Hw|]. split; [|exact Hpk].
  unfold Spec.signingKey in *. now rewrite Hp.
Qed.

Lemma processMessage_ready wallet msg t st kp pk :
  KeyStoreFacts.Ready (seedVault st) (Types.id wallet) kp pk ->
  exists st',
    processMessage wallet msg t st
    = (Ok (signedMessage (kp_secretKey kp) msg), st')
    /\ KeyStoreFacts.Ready (seedVault st') (Types.id wallet) kp pk.
Proof.
  intros Hr. unfold processMessage, tryCatch, bindM, onVault.
  rewrite (@KeyStoreFacts.signMessage_ready
             P (Types.id wallet) msg true t (seedVault st) kp pk Hr).
  eexists. split; [reflexivity|]. cbn [seedVault].
  now apply KeyStoreFacts.Ready_touched.
Qed.

Lemma processMessagesFrom_ready wallet env kp pk msgs :
  forall i st,
    KeyStoreFacts.Ready (seedVault st) (Types.id wallet) kp pk ->
    fst (processMessagesFrom wallet env i msgs st)
    = Ok (map (signedMessage (kp_secretKey kp)) msgs).
Proof.
  induction msgs as [|msg msgs IH]; intros i st Hr; [reflexivity|].
  cbn [processMessagesFrom map].
  destruct (processMessage_ready wallet msg (startedAt (item env i)) st
              kp pk Hr) as (st' & Hrun & Hr').
  rewrite (bindM_Ok _ _ _ _ _ Hrun).
  pose proof (IH (S i) st' Hr') as Hrest.
  unfold bindM at 1.
  destruct (processMessagesFrom wallet env (S i) msgs st') as [r st''].
  cbn [fst] in Hrest. now subst r.
Qed.

(** [signMessages], for a connected and authorized session the service
    holds and a batch that is not empty, from the answer of the vault's
    [listWallets]. *)
Lemma signMessages_known session msgs env st key :
  getSession (sessionId session) st = Some session ->
  connectionState session = connected ->
  authorizedPublicKey session = Some key ->
  msgs <> [] ->
  signMessages session msgs env st
  = match onVault (SeedVaultMock.listWallets (now env))
                  (activeState session (now env) st) with
    | (Throw err, st') =>
        (Ok (map (fun _ => errorResult ("Failed to sign messages: "
                                          ++ message err)) msgs), st')
    | (Ok wallets, st') =>
        match find (fun w => String.eqb (Types.publicKey w) key) wallets with
        | None =>
            (Ok (map (fun _ =>
                        errorResult ("Failed to sign messages: "
                                       ++ "Authorized wallet not found"))
                     msgs), st')
        | Some wallet =>
            match processMessagesFrom wallet env 0 msgs st' with
            | (Ok rs, st'') => (Ok rs, st'')
            | (Throw err, st'') =>
                (Ok (map (fun _ => errorResult ("Failed to sign messages: "
                                                  ++ message err)) msgs),
                 st'')
            end
        end
    end.
Proof.
  intros Hs Hc Ha Hne. unfold signMessages.
  rewrite (has_get _ _ _ Hs), Hc, Ha. cbn [negb isConnected].
  rewrite (bindM_Ok _ _ _ _ _
             (updateSessionActivity_known _ (now env) _ Hs)).
  destruct msgs as [|msg msgs']; [now elim Hne|].
  unfold tryCatch, bindM at 1.
  destruct (onVault (SeedVaultMock.listWallets (now env))
                    (activeState session (now env) st))
    as [[wallets|err] st'] eqn:E; [|reflexivity].
  destruct (find _ wallets) as [wallet|]; reflexivity.
Qed.

(** X29.  [signMessages] of the protocol service, for a connected and
    authorized session the service holds and a batch that is not empty,
    returns one entry for each message, in the order of the batch.
    When the vault is unlocked, lists the authorized wallet and derives
    its keypair, each entry is the signature that keypair makes of its
    message.  When the vault is locked, or the authorized wallet is no
    longer listed, every entry is the same error and nothing is
    signed. *)
Theorem service_signMessages session msgs env st key :
  getSession (sessionId session) st = Some session ->
  connectionState session = connected ->
  authorizedPublicKey session = Some key ->
  msgs <> [] ->
  SeedVaultMock.isInitialized (seedVault st) = true ->
  (forall wallet kp pk,
      find (fun w => String.eqb (Types.publicKey w) key)
           (Storage.loadAllWallets (SeedVaultMock.storage (seedVault st)))
      = Some wallet ->
      KeyStoreFacts.Ready (seedVault st) (Types.id wallet) kp pk ->
      fst (signMessages session msgs env st)
      = Ok (map (signedMessage (kp_secretKey kp)) msgs))
  /\ (SeedVaultMock.isLocked (seedVault st) = true ->
      fst (signMessages session msgs env st)
      = Ok (map (fun _ =>
                   errorResult
                     "Failed to sign messages: Seed Vault is locked")
                msgs))
  /\ (SeedVaultMock.isLocked (seedVault st) = false ->
      find (fun w => String.eqb (Types.publicKey w) key)
           (Storage.loadAllWallets (SeedVaultMock.storage (seedVault st)))
      = None ->
      fst (signMessages session msgs env st)
      = Ok (map (fun _ =>
                   errorResult
                     "Failed to sign messages: Authorized wallet not found")
                msgs)).
Proof.
  intros Hs Hc Ha Hne Hi.
  rewrite (signMessages_known _ _ env _ key Hs Hc Ha Hne).
  destruct (activeState_frame session (now env) st) as (Hv & _).
  pose proof (onVault_sessions (SeedVaultMock.listWallets (now env))
                (activeState session (now env) st)) as (_ & Hfst & Hsnd).
  rewrite Hv in Hfst, Hsnd.
  split; [|split].
  - intros wallet kp pk Hfind Hr.
    pose proof Hr as (_ & Hl & _).
    rewrite VaultStateFacts.listWallets_result in Hfst by assumption.
    assert (Hvault : snd (SeedVaultMock.listWallets (now env) (seedVault st))
                     = snd (SeedVaultMock.updateActivity (now env)
                                                         (seedVault st))).
    { unfold SeedVaultMock.listWallets.
      now rewrite VaultFacts.unlocked_prefix by assumption. }
    rewrite Hvault in Hsnd.
    destruct (onVault _ _) as [[wallets|err] st'];
      cbn [fst snd] in Hfst, Hsnd; [|discriminate Hfst].
    injection Hfst as ->. rewrite Hfind.
    assert (Hr' : KeyStoreFacts.Ready (seedVault st') (Types.id wallet) kp pk)
      by (rewrite Hsnd; now apply Ready_updateActivity).
    pose proof (processMessagesFrom_ready wallet env kp pk msgs 0%nat st' Hr')
      as Hrun.
    destruct (processMessagesFrom wallet env 0 msgs st') as [r st''].
    cbn [fst] in Hrun. now subst r.
  - intros Hl. unfold SeedVaultMock.listWallets in Hfst.
    rewrite VaultFacts.locked_prefix in Hfst by assumption.
    destruct (onVault _ _) as [[wallets|err] st']; cbn [fst] in Hfst;
      [discriminate Hfst|].
    injection Hfst as ->. reflexivity.
  - intros Hl Hfind.
    rewrite VaultStateFacts.listWallets_result in Hfst by assumption.
    destruct (onVault _ _) as [[wallets|err] st']; cbn [fst] in Hfst;
      [|discriminate Hfst].
    injection Hfst as ->. now rewrite Hfind.
Qed.

End WithPrimitives.

Lemma service_signMessages_witness :
  exists sk,
    fst (signMessages (P := Toy.primitives) Toy.session [Toy.message; []]
                      Toy.env Toy.service)
    = Ok [signedMessage (P := Toy.primitives) sk Toy.message;
          signedMessage (P := Toy.primitives) sk []].
Proof.
  destruct Toy.testWallet as [w|] eqn:Ew; [|discriminate Ew].
  destruct (Spec.signingKey (P := Toy.primitives) Toy.vaultWithWallet w)
    as [kp|e] eqn:Ek.
  2:{ vm_compute in Ew. injection Ew as <-. vm_compute in Ek.
      discriminate Ek. }
  exists (kp_secretKey kp).
  destruct (@service_signMessages
              Toy.primitives Toy.session [Toy.message; []] Toy.env
              Toy.service (Types.publicKey w))
    as (Hsign & _).
  - reflexivity.
  - reflexivity.
  - vm_compute in Ew. injection Ew as <-. vm_compute. reflexivity.
  - discriminate.
  - reflexivity.
  - apply (Hsign w kp (Types.publicKey w)).
    + vm_compute in Ew. injection Ew as <-. vm_compute. reflexivity.
    + split; [reflexivity|]. split; [reflexivity|].
      exists w. split; [|split; [exact Ek | reflexivity]].
      vm_compute in Ew. injection Ew as <-. vm_compute. reflexivity.
Defined.

End MessageFacts.

(** ** Validation of transactions *)

Module ValidatorFacts.
Import Web3 TransactionValidator.
Local Unset Implicit Arguments.

(** The shape [validateInstructions] asks of a transaction: every key
    of every instruction has its public key and its two flags, every
    instruction its program id and its keys. *)
Definition keyOk (k : AccountMeta) : bool :=
  match pubkey k, isSigner k, isWritable k with
  | Some _, Some _, Some _ => true
  | _, _, _ => false
  end.

Definition instructionOk (ins : TransactionInstruction) : bool :=
  match programId ins, keys ins with
  | Some _, Some ks => forallb keyOk ks
  | _, _ => false
  end.

(** With that, at least one instruction and a fee payer. *)
Definition structurallyValid (tx : Transaction) : bool :=
  match instructions tx, feePayer tx with
  | Some (i :: l), Some _ => forallb instructionOk (i :: l)
  | _, _ => false
  end.

Lemma validateKeys_nil i ks :
  forall j, validateKeys i j ks = [] <-> forallb keyOk ks = true.
Proof.
  induction ks as [|k ks IH]; intros j; cbn [validateKeys forallb];
    [tauto|].
  unfold keyOk at 1.
  destruct (pubkey k), (isSigner k), (isWritable k); cbn [List.app andb];
    try (split; intros H; discriminate H).
  apply IH.
Qed.

Lemma validateInstructionsFrom_nil l :
  forall i,
    validateInstructionsFrom i l = [] <-> forallb instructionOk l = true.
Proof.
  induction l as [|ins l IH]; intros i;
    cbn [validateInstructionsFrom forallb]; [tauto|].
  unfold instructionOk at 1.
  destruct (programId ins); [|split; intros H; discriminate H].
  destruct (keys ins) as [ks|]; [|split; intros H; discriminate H].
  rewrite andb_true_iff, <- (IH (S i)), <- (validateKeys_nil i ks 0%nat).
  split.
  - intros H. apply app_eq_nil in H. exact H.
  - intros [H1 H2]. now rewrite H1, H2.
Qed.

(** What the loop of [extractTransactionMetadata] keeps true of its
    variables. *)
Definition Scanned (s : Scan) : Prop :=
  (sc_hasSystemProgram s = true -> sc_programIds s <> [])
  /\ (forall a, sc_transferAmount s = Some a ->
                a <> 0
                /\ exists r, sc_recipient s = Some r /\ isEmpty r = false).

Lemma setAdd_nonempty x l : setAdd x l <> [].
Proof.
  unfold setAdd. destruct l as [|y l]; cbn; [discriminate|].
  destruct (_ || _); discriminate.
Qed.

Lemma extractSystemTransferInfo_some ins a r :
  extractSystemTransferInfo ins = Some (a, r) ->
  a <> 0 /\ isEmpty r = false.
Proof.
  unfold extractSystemTransferInfo.
  destruct (keys ins) as [ks|]; [|discriminate].
  destruct (data ins) as [d|]; [|discriminate].
  destruct (_ && _); [|discriminate].
  destruct (match nth_error ks 1 with Some k => pubkey k | None => None end)
    as [r0|]; [|discriminate].
  destruct (isEmpty r0) eqn:Er; cbn [negb andb]; [discriminate|].
  match goal with |- context [0 <? ?x] => generalize x end.
  intros amount. destruct (0 <? amount) eqn:Ea; [|discriminate].
  intros [= <- <-]. apply N.ltb_lt in Ea. split; [lia | exact Er].
Qed.

Lemma scanInstruction_scanned ins s s' :
  scanInstruction ins s = Ok s' -> Scanned s ->
  Scanned s'
  /\ (sc_programIds s <> [] -> sc_programIds s' <> [])
  /\ (programId ins <> None -> sc_programIds s' <> []).
Proof.
  unfold scanInstruction. intros H [Hsys Hamt].
  destruct (programId ins) as [pid|].
  2:{ injection H as <-. split; [split; assumption|].
      split; [tauto|]. intros E. now elim E. }
  destruct (keys ins) as [ks|]; [|discriminate H].
  injection H as <-. cbn [sc_programIds sc_hasSystemProgram
                          sc_transferAmount sc_recipient].
  split; [split|].
  - intros _. apply setAdd_nonempty.
  - intros a.
    destruct (String.eqb pid SYSTEM_PROGRAM_ID); [|apply Hamt].
    destruct (extractSystemTransferInfo ins) as [[a0 r0]|] eqn:E;
      [|apply Hamt].
    intros [= <-]. apply extractSystemTransferInfo_some in E.
    destruct E as [Ha Hr]. split; [exact Ha|]. now exists r0.
  - split; intros _; apply setAdd_nonempty.
Qed.

Lemma scanInstructions_scanned l :
  forall s s',
    scanInstructions l s = Ok s' -> Scanned s ->
    Scanned s'
    /\ (sc_programIds s <> [] -> sc_programIds s' <> [])
    /\ (existsb (fun ins => match programId ins with
                            | Some _ => true
                            | None => false
                            end) l = true ->
        sc_programIds s' <> []).
Proof.
  induction l as [|ins l IH]; intros s s' H Hs; cbn in H.
  - injection H as <-. split; [exact Hs|]. split; [tauto | discriminate].
  - destruct (scanInstruction ins s) as [s1|e] eqn:E; [|discriminate H].
    cbn [bind] in H.
    destruct (scanInstruction_scanned _ _ _ E Hs) as (Hs1 & Hkeep1 & Hnew1).
    destruct (IH _ _ H Hs1) as (Hs' & Hkeep & Hnew).
    split; [exact Hs'|]. split; [tauto|].
    cbn [existsb]. intros Hex. apply orb_true_iff in Hex.
    destruct Hex as [Hex|Hex]; [|now apply Hnew].
    apply Hkeep, Hnew1. now destruct (programId ins).
Qed.

Lemma Scanned_start : Scanned (mkScan [] 0 false false None None).
Proof. split; cbn; [discriminate | intros a; discriminate]. Qed.

Lemma classify_known ids sys tok amt :
  (sys = true -> ids <> []) ->
  classifyTransactionType ids sys tok amt <> unknown.
Proof.
  intros H. unfold classifyTransactionType.
  destruct tok; [discriminate|].
  destruct sys.
  - destruct ids as [|x [|y ids]]; [now elim H | |];
      destruct amt; cbn; discriminate.
  - cbn [andb negb]. rewrite orb_true_r. discriminate.
Qed.

(** The metadata [extractTransactionMetadata] makes of the variables
    of its loop. *)
Definition metadataOf (l : list TransactionInstruction) (s : Scan)
  : TransactionMetadata :=
  mkMetadata (N.of_nat (List.length l)) (sc_accountCount s)
             (estimateTransactionFee l) (sc_programIds s)
             (sc_hasSystemProgram s) (sc_hasTokenProgram s)
             (sc_transferAmount s) (sc_recipient s)
             (classifyTransactionType
                (sc_programIds s) (sc_hasSystemProgram s)
                (sc_hasTokenProgram s)
                (match sc_transferAmount s with
                 | Some _ => true
                 | None => false
                 end)).

Lemma validateByType_nil l s :
  Scanned s -> l <> [] -> sc_programIds s <> [] ->
  validateByType (metadataOf l s) = [].
Proof.
  intros [Hsys Hamt] Hl Hids. unfold validateByType, metadataOf.
  cbn [type transferAmount recipient hasTokenProgram instructionCount
       programIds].
  unfold classifyTransactionType.
  destruct (sc_hasTokenProgram s); [reflexivity|].
  destruct (sc_transferAmount s) as [a|] eqn:Ea.
  - destruct (Hamt a eq_refl) as (Ha & r & Hr & Hne).
    apply N.eqb_neq in Ha.
    destruct (_ && _ && _); [now rewrite Ha, Hr, Hne|].
    destruct (_ && _ && _).
    + destruct l; [now elim Hl | reflexivity].
    + destruct (_ || _); [|reflexivity].
      destruct (sc_programIds s); [now elim Hids | reflexivity].
  - rewrite andb_false_r. cbn [andb].
    destruct (_ && _ && _).
    + destruct l; [now elim Hl | reflexivity].
    + destruct (_ || _); [|reflexivity].
      destruct (sc_programIds s); [now elim Hids | reflexivity].
Qed.

Lemma validateTransaction_cases tx v :
  validateTransaction (Some tx) = Ok v ->
  exists l s,
    instructions tx = Some l
    /\ scanInstructions l (mkScan [] 0 false false None None) = Ok s
    /\ metadata v = metadataOf l s
    /\ errors v
       = ((match l with
           | [] => ["Transaction has no instructions"]
           | _ => []
           end)
          ++ (match feePayer tx with
              | None => ["Transaction has no fee payer"]
              | Some _ => []
              end)
          ++ validateInstructionsFrom 0 l
          ++ validateByType (metadataOf l s))%list
    /\ isValid v = match errors v with [] => true | _ => false end.
Proof.
  unfold validateTransaction.
  destruct (instructions tx) as [l|]; [|discriminate].
  cbn [validateInstructions bind]. unfold extractTransactionMetadata.
  destruct (scanInstructions l _) as [s|e] eqn:Es; [|discriminate].
  cbn [bind]. intros [= <-]. exists l, s.
  split; [reflexivity|]. split; [exact Es|]. split; [reflexivity|].
  cbn [errors isValid]. split; [|reflexivity].
  now destruct l.
Qed.

(** X30.  Whenever [validateTransaction] returns for a transaction
    that is not null, whether it finds the transaction valid is decided
    by its shape alone: it is valid exactly when it has an
    instruction and a fee payer, every instruction has a program id and
    its keys, and every key its public key and its two flags.  The
    checks by type add no error to such a transaction.  The type is
    never [unknown], and a transaction that touches a token program is a
    token transfer, which requires approval. *)
Theorem validity_is_structural tx v :
  validateTransaction (Some tx) = Ok v ->
  (isValid v = true <-> structurallyValid tx = true)
  /\ (isValid v = true -> errors v = [])
  /\ type (metadata v) <> unknown
  /\ (hasTokenProgram (metadata v) = true ->
      type (metadata v) = token_transfer
      /\ requiresUserApproval (metadata v) = true).
Proof.
  intros H.
  destruct (validateTransaction_cases _ _ H)
    as (l & s & Hl & Hscan & Hm & He & Hv).
  destruct (scanInstructions_scanned _ _ _ Hscan Scanned_start)
    as (Hs & _ & Hids).
  assert (Hvalid : isValid v = true -> errors v = [])
    by (rewrite Hv; now destruct (errors v)).
  split; [|split; [exact Hvalid|split]].
  - unfold structurallyValid. rewrite Hl. split.
    + intros Hok. apply Hvalid in Hok. rewrite He in Hok.
      apply app_eq_nil in Hok. destruct Hok as [H1 Hok].
      apply app_eq_nil in Hok. destruct Hok as [H2 Hok].
      apply app_eq_nil in Hok. destruct Hok as [H3 _].
      destruct l as [|i l']; [discriminate H1|].
      destruct (feePayer tx); [|discriminate H2].
      now apply (validateInstructionsFrom_nil (i :: l') 0%nat).
    + intros Hok. destruct l as [|i l']; [discriminate Hok|].
      destruct (feePayer tx); [|discriminate Hok].
      rewrite Hv, He.
      rewrite (proj2 (validateInstructionsFrom_nil (i :: l') 0%nat) Hok).
      rewrite validateByType_nil; [reflexivity | exact Hs | discriminate |].
      apply Hids. cbn [existsb]. cbn [forallb] in Hok.
      apply andb_true_iff in Hok. destruct Hok as [Hi _].
      unfold instructionOk in Hi. now destruct (programId i).
  - rewrite Hm. unfold metadataOf. cbn [type].
    apply classify_known. apply Hs.
  - rewrite Hm. unfold metadataOf, requiresUserApproval.
    cbn [type transferAmount hasTokenProgram]. intros Htok.
    unfold classifyTransactionType. rewrite Htok.
    split; [reflexivity|]. now destruct (match sc_transferAmount s with
                                         | Some a => 1000000000 <? a
                                         | None => false
                                         end).
Qed.

Lemma validity_is_structural_witness :
  exists v,
    validateTransaction (Some Toy.transferTx) = Ok v
    /\ isValid v = true /\ type (metadata v) = transfer.
Proof.
  destruct (validateTransaction (Some Toy.transferTx)) as [v|e] eqn:E;
    [|vm_compute in E; discriminate E].
  exists v. split; [reflexivity|].
  destruct (validity_is_structural Toy.transferTx v E) as (Hv & _).
  split; [now apply Hv|].
  vm_compute in E. injection E as <-. reflexivity.
Defined.

End ValidatorFacts.
